(** * A shallow embedding of the slide-deck generator (app.py)

    The first part follows the source top to bottom: Python string
    operations, [normalize_text], the catalog matcher, the variant grouper
    and the fixed product configurator, the stock resolvers, the three
    substitution passes over a cloned template slide and the batch loop of
    [main].  The second part proves the properties of the specification.

    Strings.  A Python [str] is a sequence of code points.  The embedding
    uses [string], read as a sequence of code points 0..255 (Latin-1): this
    range contains the no-break space U+00A0 that [normalize_text] rewrites
    and the letter U+00F8 of the Danish labels, and it is closed under
    [str.lower].  Code points above 255 are outside the model. *)

From Stdlib Require Import String Ascii List ZArith Bool Arith Lia.
From Stdlib Require Import Sorted Permutation SpecFloat.
Import ListNotations.
Open Scope string_scope.

(** ** Python string primitives *)

Module Py.

(** [str.isspace] on one code point, which is also the class [\s] of [re]
    for [str] patterns: TAB..CR, FS..US, SPACE, NEL and NBSP. *)
Definition is_space (c : ascii) : bool :=
  let n := nat_of_ascii c in
  (((9 <=? n) && (n <=? 13)) || ((28 <=? n) && (n <=? 32))
   || (n =? 133) || (n =? 160))%nat.

(** [str.lower] on one code point: A..Z and the Latin-1 capitals
    U+00C0..U+00DE, the multiplication sign U+00D7 excepted. *)
Definition lower_char (c : ascii) : ascii :=
  let n := nat_of_ascii c in
  if (((65 <=? n) && (n <=? 90))
      || ((192 <=? n) && (n <=? 222) && negb (n =? 215)))%nat
  then ascii_of_nat (n + 32) else c.

Fixpoint lower (s : string) : string :=
  match s with
  | EmptyString => EmptyString
  | String c s' => String (lower_char c) (lower s')
  end.

Definition nbsp : ascii := "160"%char.
Definition space : ascii := " "%char.

(** [s.replace(old, new)] for one-character [old] and [new]. *)
Fixpoint replace_char (old new : ascii) (s : string) : string :=
  match s with
  | EmptyString => EmptyString
  | String c s' =>
      String (if Ascii.eqb c old then new else c) (replace_char old new s')
  end.

(** [re.sub(r"\s+", "", s)]: every maximal run of whitespace is replaced by
    the empty string, so exactly the whitespace code points disappear. *)
Fixpoint remove_whitespace (s : string) : string :=
  match s with
  | EmptyString => EmptyString
  | String c s' =>
      if is_space c then remove_whitespace s'
      else String c (remove_whitespace s')
  end.

(** [sub in s]. *)
Fixpoint contains (sub s : string) : bool :=
  prefix sub s
  || match s with
     | EmptyString => false
     | String _ s' => contains sub s'
     end.

(** [s.startswith(p)]. *)
Definition startswith (s p : string) : bool := prefix p s.

(** [s.lstrip()], [s.rstrip()] and [s.strip()] with no argument. *)
Fixpoint lstrip (s : string) : string :=
  match s with
  | EmptyString => EmptyString
  | String c s' => if is_space c then lstrip s' else s
  end.

Fixpoint rstrip (s : string) : string :=
  match s with
  | EmptyString => EmptyString
  | String c s' =>
      match rstrip s' with
      | EmptyString => if is_space c then EmptyString else String c EmptyString
      | r => String c r
      end
  end.

Definition strip (s : string) : string := rstrip (lstrip s).

(** [s.strip(chars)]: code points of [chars] are dropped at both ends. *)
Fixpoint mem_char (c : ascii) (chars : string) : bool :=
  match chars with
  | EmptyString => false
  | String d r => Ascii.eqb c d || mem_char c r
  end.

Fixpoint lstrip_chars (chars s : string) : string :=
  match s with
  | EmptyString => EmptyString
  | String c s' => if mem_char c chars then lstrip_chars chars s' else s
  end.

Fixpoint rstrip_chars (chars s : string) : string :=
  match s with
  | EmptyString => EmptyString
  | String c s' =>
      match rstrip_chars chars s' with
      | EmptyString =>
          if mem_char c chars then EmptyString else String c EmptyString
      | r => String c r
      end
  end.

Definition strip_chars (chars s : string) : string :=
  rstrip_chars chars (lstrip_chars chars s).

(** [s.split(sep)] for a non-empty [sep]: occurrences are taken left to
    right and do not overlap.  [skip] counts the code points of the
    separator still to be passed over, [cur] is the segment being read. *)
Fixpoint split_go (sep : string) (skip : nat) (cur s : string) : list string :=
  match s with
  | EmptyString => [cur]
  | String c s' =>
      match skip with
      | S k => split_go sep k cur s'
      | O =>
          if prefix sep s
          then cur :: split_go sep (String.length sep - 1) EmptyString s'
          else split_go sep 0 (cur ++ String c EmptyString) s'
      end
  end.

Definition split (sep s : string) : list string :=
  split_go sep 0 EmptyString s.

(** [sep.join(l)]. *)
Fixpoint join (sep : string) (l : list string) : string :=
  match l with
  | [] => EmptyString
  | [x] => x
  | x :: r => x ++ sep ++ join sep r
  end.

(** [sorted(l)] on strings: ascending in the code-point order of [str].
    That order is total and antisymmetric, so the sorted list does not
    depend on the sorting algorithm; insertion sort stands for it. *)
Fixpoint insert_sorted (x : string) (l : list string) : list string :=
  match l with
  | [] => [x]
  | y :: r => if String.leb x y then x :: l else y :: insert_sorted x r
  end.

Fixpoint sorted (l : list string) : list string :=
  match l with
  | [] => []
  | x :: r => insert_sorted x (sorted r)
  end.

(** Membership in a list of strings ([x in l], and [x in d] on keys). *)
Fixpoint mem (x : string) (l : list string) : bool :=
  match l with
  | [] => false
  | y :: r => String.eqb x y || mem x r
  end.

(** [s.add(x)] on a set kept as a duplicate-free list. *)
Definition set_add (x : string) (s : list string) : list string :=
  if mem x s then s else s ++ [x].

(** [list(dict.fromkeys(l))]: duplicates removed, first occurrences kept in
    their order.  [seen] holds the keys already in the dict. *)
Fixpoint fromkeys_go (seen l : list string) : list string :=
  match l with
  | [] => []
  | x :: r =>
      if mem x seen then fromkeys_go seen r
      else x :: fromkeys_go (seen ++ [x]) r
  end.

Definition fromkeys (l : list string) : list string := fromkeys_go [] l.

(** [d.get(key, default)] on a dict with string keys, kept as the list of
    its items in insertion order. *)
Fixpoint dict_get {A : Type} (d : list (string * A)) (key : string)
    (default : A) : A :=
  match d with
  | [] => default
  | (k, v) :: d' => if String.eqb k key then v else dict_get d' key default
  end.

(** The line boundaries of [str.splitlines] among the code points 0..255:
    LF, VT, FF, CR, FS, GS, RS and NEL. *)
Definition is_linebreak (c : ascii) : bool :=
  let n := nat_of_ascii c in
  (((10 <=? n) && (n <=? 13)) || ((28 <=? n) && (n <=? 30)) || (n =? 133))%nat.

(** [s.splitlines()]: the lines without their boundaries.  CR LF is one
    boundary, and a boundary at the end of the text starts no further line.
    [cur] is the line being read. *)
Fixpoint splitlines_go (cur s : string) : list string :=
  match s with
  | EmptyString => if cur =? "" then [] else [cur]
  | String c s' =>
      if is_linebreak c then
        cur ::
        match s' with
        | String d s'' =>
            if Ascii.eqb c "013" && Ascii.eqb d "010"
            then splitlines_go EmptyString s''
            else splitlines_go EmptyString s'
        | EmptyString => splitlines_go EmptyString s'
        end
      else splitlines_go (cur ++ String c EmptyString) s'
  end.

Definition splitlines (s : string) : list string :=
  splitlines_go EmptyString s.

End Py.

(** ** TextNormalizer *)

(** [normalize_text(s)] on a string:
    [re.sub(r"\s+", "", str(s).replace(NBSP, " ")).lower()]. *)
Definition normalize_text (s : string) : string :=
  Py.lower (Py.remove_whitespace (Py.replace_char Py.nbsp Py.space s)).

Definition normalize_col (col : string) : string := normalize_text col.

(** A string has no whitespace code point. *)
Fixpoint no_whitespace (s : string) : Prop :=
  match s with
  | EmptyString => True
  | String c s' => Py.is_space c = false /\ no_whitespace s'
  end.

(** A string has no code point that [str.lower] changes (no uppercase). *)
Fixpoint no_uppercase (s : string) : Prop :=
  match s with
  | EmptyString => True
  | String c s' => Py.lower_char c = c /\ no_uppercase s'
  end.

(** ** Spreadsheet cells, rows and tables *)

(** A cell as [pandas.read_excel] yields it for a text column: missing
    ([NaN]) or a string.  Numeric cells are outside the model. *)
Inductive cell : Type :=
  | NaN
  | Str (s : string).

(** [str(v)]. *)
Definition py_str (v : cell) : string :=
  match v with
  | NaN => "nan"
  | Str s => s
  end.

(** [pd.isna(v)]. *)
Definition isna (v : cell) : bool :=
  match v with
  | NaN => true
  | Str _ => false
  end.

(** Truth value of a cell: [nan] is a non-zero float, a string is true
    when it is not empty. *)
Definition truthy (v : cell) : bool :=
  match v with
  | NaN => true
  | Str s => negb (s =? "")
  end.

(** A catalog row (a pandas Series): normalized column name to cell. *)
Definition row : Type := list (string * cell).

(** [row.get(key, default)]. *)
Fixpoint row_get (r : row) (key : string) (default : cell) : cell :=
  match r with
  | [] => default
  | (k, v) :: r' => if k =? key then v else row_get r' key default
  end.

(** A row of the stock table.  [main] refuses a stock file that lacks one of
    the four required columns before any row is processed, so the columns
    are fields and the [KeyError] handlers of the resolvers are never
    entered. *)
Record stock_row : Type := {
  productkey : cell;
  variantname : cell;
  rts : cell;
  mto : cell
}.

(** ** CatalogMatcher *)

(** The two [for idx, row in mapping_df.iterrows()] loops of
    [find_mapping_row], each returning at its first hit. *)
Fixpoint scan_exact (norm_item mapping_prod_key : string)
    (rows : list row) : option row :=
  match rows with
  | [] => None
  | r :: rs =>
      let code := row_get r mapping_prod_key (Str "") in
      if normalize_text (py_str code) =? norm_item then Some r
      else scan_exact norm_item mapping_prod_key rs
  end.

Fixpoint scan_prefix (partial mapping_prod_key : string)
    (rows : list row) : option row :=
  match rows with
  | [] => None
  | r :: rs =>
      let code := row_get r mapping_prod_key (Str "") in
      if Py.startswith (normalize_text (py_str code)) partial then Some r
      else scan_prefix partial mapping_prod_key rs
  end.

Definition find_mapping_row (item_no : string) (mapping_df : list row)
    (mapping_prod_key : string) : option row :=
  let norm_item := normalize_text item_no in
  match scan_exact norm_item mapping_prod_key mapping_df with
  | Some r => Some r
  | None =>
      if Py.contains "-" item_no then
        let partial := normalize_text (hd "" (Py.split "-" item_no)) in
        scan_prefix partial mapping_prod_key mapping_df
      else None
  end.

(** ** VariantGrouper *)

(** [groups]: a dict from color to a set of sizes.  The dict keeps its keys
    in insertion order; a set is kept as a duplicate-free list. *)
Definition groups_t : Type := list (string * list string).

(** [groups.setdefault(color, set())]. *)
Fixpoint setdefault (groups : groups_t) (color : string) : groups_t :=
  match groups with
  | [] => [(color, [])]
  | (k, v) :: g' =>
      if k =? color then groups else (k, v) :: setdefault g' color
  end.

(** [groups[color].add(size)], for a [color] that is a key. *)
Fixpoint add_size (groups : groups_t) (color size : string) : groups_t :=
  match groups with
  | [] => []
  | (k, v) :: g' =>
      if k =? color
      then (k, Py.set_add size v) :: g'
      else (k, v) :: add_size g' color size
  end.

Definition sep : string := " - ".

(** The color and the size read from one variant name. *)
Definition parse_variant (name : string) : string * string :=
  if Py.contains sep name then
    let parts := Py.split sep name in
    (Py.strip (hd "" parts), Py.strip (last parts ""))
  else (Py.strip name, "").

(** One turn of the loop [for name in variant_names]. *)
Definition group_step (groups : groups_t) (name : string) : groups_t :=
  let (color, size) := parse_variant name in
  let groups := setdefault groups color in
  if negb (size =? "") then add_size groups color size else groups.

Definition newline : string := String "010"%char EmptyString.

(** One entry of [output_lines]. *)
Definition render_line (entry : string * list string) : string :=
  let (color, sizes) := entry in
  match sizes with
  | [] => color
  | _ => color ++ ": " ++ Py.join ", " (Py.sorted sizes)
  end.

Definition group_by_color_and_size (variant_names : list string) : string :=
  let groups := fold_left group_step variant_names [] in
  let output_lines := map render_line groups in
  Py.join newline (Py.sorted output_lines).

(** The grouping as the specification words it: the colors in first-seen
    order, for each color the distinct non-empty sizes of its names, one
    rendered line per color, the lines sorted and joined by newline. *)
Module GroupSpec.

Definition color_of (name : string) : string := fst (parse_variant name).
Definition size_of (name : string) : string := snd (parse_variant name).

Definition colors (names : list string) : list string :=
  Py.fromkeys (map color_of names).

Definition sizes_of (names : list string) (color : string) : list string :=
  Py.fromkeys
    (filter (fun z => negb (z =? ""))
       (map size_of (filter (fun n => color_of n =? color) names))).

(** The mapping from color to set of sizes that the names build. *)
Definition groups (names : list string) : groups_t :=
  map (fun c => (c, sizes_of names c)) (colors names).

Definition line (names : list string) (color : string) : string :=
  match sizes_of names color with
  | [] => color
  | sizes => color ++ ": " ++ Py.join ", " (Py.sorted sizes)
  end.

Definition group (names : list string) : string :=
  Py.join newline (Py.sorted (map (line names) (colors names))).

End GroupSpec.

(** ** The fixed product configurator *)

Module ProductConfigurator.

Definition inch : string := String "034"%char EmptyString.

Definition leg_colors : list string := ["Black"; "Grey"; "Sand"; "White"].

(** [self.products], in declaration order. *)
Definition products : list ((string * string * string) * list string) :=
  [ (("Black Linoleum", "Plywood", "Plywood"), leg_colors);
    (("Grey Linoleum", "Plywood", "Plywood"), leg_colors);
    (("Oak Lacquered Oak Veneer", "Plywood", "Plywood"), leg_colors);
    (("Oak Oiled Oak", "Oak Oiled Oak", "Oak Oiled Oak"), leg_colors);
    (("Sand Laminate", "Plywood", "Plywood"), leg_colors);
    (("Smoked Oak Oiled Oak", "Smoked Oak Oiled Oak", "Smoked Oak Oiled Oak"),
     leg_colors);
    (("White Laminate", "Plywood", "Plywood"), leg_colors) ].

Definition default_sizes : list string :=
  [ "170 x 85 cm / 67 x 33.5" ++ inch;
    "225 x 90 cm / 88.5 x 35.5" ++ inch;
    "255 x 108 cm / 100.5 x 42.5" ++ inch;
    "295 x 108 cm / 116 x 42.5" ++ inch ].

Definition sand_laminate_sizes : list string :=
  [ "225 x 90 cm / 88.5 x 35.5" ++ inch;
    "255 x 108 cm / 100.5 x 42.5" ++ inch;
    "295 x 108 cm / 116 x 42.5" ++ inch ].

Definition specific_sizes : list (string * list string) :=
  [ ("Sand Laminate", sand_laminate_sizes) ].

(** The options dict, as the pair (benfarver, stoerrelser). *)
Definition options : Type := list string * list string.

Fixpoint get_options_from
    (table : list ((string * string * string) * list string))
    (product_name : string) : option options :=
  match table with
  | [] => None
  | ((surface, _, _), colors) :: rest =>
      if Py.contains (Py.lower surface) (Py.lower product_name)
      then Some (colors, Py.dict_get specific_sizes surface default_sizes)
      else get_options_from rest product_name
  end.

Definition get_options (product_name : string) : option options :=
  get_options_from products product_name.

End ProductConfigurator.

(** ** StockResolver *)

(** U+00F8, the third letter of the Danish word for sizes. *)
Definition o_slash : string := String "248"%char EmptyString.

(** The two-line summary of a configurator hit. *)
Definition render_options (o : ProductConfigurator.options) : string :=
  "Benfarver: " ++ Py.join ", " (fst o) ++ newline
  ++ "St" ++ o_slash ++ "rrelser: " ++ Py.join ", " (snd o).

(** [process_stock_rts_alternative] and [process_stock_mto_alternative] are
    the same text up to the availability column they read; [flag] is that
    column. *)
Section StockResolver.

Variable flag : stock_row -> cell.

(** [filtered[col].notna() & (filtered[col] != "")] on one row. *)
Definition available (r : stock_row) : bool :=
  negb (isna (flag r)) && negb (py_str (flag r) =? "").

(** [filtered["variantname"].dropna().astype(str).tolist()]. *)
Fixpoint variant_names_of (rows : list stock_row) : list string :=
  match rows with
  | [] => []
  | r :: rs =>
      match variantname r with
      | NaN => variant_names_of rs
      | Str s => s :: variant_names_of rs
      end
  end.

(** The first filter: rows whose normalized product key is the row's. *)
Definition filter_key (norm_product_key : string)
    (stock_df : list stock_row) : list stock_row :=
  filter (fun r => normalize_text (py_str (productkey r)) =? norm_product_key)
    stock_df.

(** The early exits of the resolver: [None] where it returns the empty
    string before [unique_variant_names] is built, else that list. *)
Definition unique_variant_names (mapping_row : row)
    (stock_df : list stock_row) : option (list string) :=
  let product_key := row_get mapping_row "productkey" (Str "") in
  if negb (truthy product_key) || isna product_key then None
  else
    let norm_product_key := normalize_text (py_str product_key) in
    let filtered := filter_key norm_product_key stock_df in
    match filtered with
    | [] => None
    | _ =>
        let filtered := filter available filtered in
        match filtered with
        | [] => None
        | _ => Some (Py.fromkeys (variant_names_of filtered))
        end
    end.

Definition process_stock_alternative (mapping_row : row)
    (stock_df : list stock_row) : string :=
  match unique_variant_names mapping_row stock_df with
  | None => ""
  | Some unique_variant_names =>
      let product_name :=
        py_str (row_get mapping_row (normalize_col "{{Product name}}") (Str ""))
      in
      match ProductConfigurator.get_options product_name with
      | Some options => render_options options
      | None => group_by_color_and_size unique_variant_names
      end
  end.

End StockResolver.

Definition process_stock_rts_alternative : row -> list stock_row -> string :=
  process_stock_alternative rts.

Definition process_stock_mto_alternative : row -> list stock_row -> string :=
  process_stock_alternative mto.

(** ** The matcher as the specification words it *)

(** The normalized key field of a catalog row. *)
Definition key_norm (key : string) (r : row) : string :=
  normalize_text (py_str (row_get r key (Str ""))).

(** [r] is the first row of [cat], in row order, that satisfies [P]. *)
Definition first_row_such (P : row -> Prop) (cat : list row) (r : row) : Prop :=
  exists before after : list row,
    cat = (before ++ r :: after)%list /\ P r /\ forall r', In r' before -> ~ P r'.

(** [p] is a prefix of [s]. *)
Definition is_prefix_of (p s : string) : Prop := exists rest, s = p ++ rest.

(** The code point [c] does not occur in [s]. *)
Fixpoint no_char (c : ascii) (s : string) : Prop :=
  match s with
  | EmptyString => True
  | String d s' => d <> c /\ no_char c s'
  end.

(** [head] is the substring of [item] before its first hyphen. *)
Definition before_first_hyphen (item head : string) : Prop :=
  exists tail, item = head ++ "-" ++ tail /\ no_char "-"%char head.


(** ** Exceptions *)

(** A function of the source that can raise returns an [option]: [None]
    stands for an exception that nothing catches before it leaves [main],
    or for an argument outside the modelled range of a library call. *)
Definition bind {A B : Type} (x : option A) (f : A -> option B) : option B :=
  match x with
  | Some a => f a
  | None => None
  end.

Notation "x <- e ;; k" := (bind e (fun x => k))
  (at level 61, e at next level, right associativity).

Fixpoint mapM {A B : Type} (f : A -> option B) (l : list A) : option (list B) :=
  match l with
  | [] => Some []
  | a :: r => b <- f a ;; bs <- mapM f r ;; Some (b :: bs)
  end.

(** ** Python floats *)

(** IEEE 754 binary64 with round to nearest even, as the standard library
    specifies it.  Integers convert exactly below 2^53 in absolute value;
    larger ones are outside the modelled range. *)
Module Float64.

Definition prec : Z := 53.
Definition emax : Z := 1024.

Definition float : Type := spec_float.

Definition exact_int (z : Z) : bool := (Z.abs z <? 2 ^ 53)%Z.

Definition of_int (z : Z) : float := binary_normalize prec emax z 0 false.

(** [a / b] on two ints. *)
Definition true_div (a b : Z) : option float :=
  if exact_int a && exact_int b && negb (b =? 0)%Z
  then Some (SFdiv prec emax (of_int a) (of_int b))
  else None.

(** [a * x] for an int [a] and a float [x]. *)
Definition mul_int (a : Z) (x : float) : option float :=
  if exact_int a then Some (SFmul prec emax (of_int a) x) else None.

(** [min(x, y)]: the first argument unless the second is smaller. *)
Definition min (x y : float) : float :=
  if SFltb y x then y else x.

(** The integer part of the positive float with mantissa [m] and exponent
    [e]. *)
Definition trunc_value (m : positive) (e : Z) : Z :=
  (if 0 <=? e then Zpos m * 2 ^ e else Zpos m / 2 ^ (- e))%Z.

(** [int(x)]: truncation toward zero; infinities and NaN raise. *)
Definition to_int (x : float) : option Z :=
  match x with
  | S754_zero _ => Some 0%Z
  | S754_finite s m e => Some (cond_Zopp s (trunc_value m e))
  | _ => None
  end.

(** [x] is the positive float with the 53-bit mantissa [m] and the
    exponent [e]. *)
Definition normal (x : float) (m : positive) (e : Z) : Prop :=
  x = S754_finite false m e /\ (2 ^ 52 <= Zpos m < 2 ^ 53)%Z.

End Float64.

(** ** Slides *)

(** A run of text: its characters, its formatting and its link target.  A
    paragraph is the list of its runs; line breaks and fields between runs
    are outside the model. *)
Record run : Type := {
  run_text : string;
  run_format : nat;
  run_hyperlink : option string
}.

Definition paragraph : Type := list run.

(** A decoded bitmap ([PIL.Image]): its size in pixels, never zero, and its
    content. *)
Record bitmap : Type := {
  original_width : positive;
  original_height : positive;
  pixels : string
}.

(** A shape of a slide: one with a text frame, an inserted picture, or any
    other shape without text frame.  Positions and sizes are in EMU. *)
Inductive shape : Type :=
  | TextShape (left top width height : Z) (paragraphs : list paragraph)
  | PictureShape (left top width height : Z) (image : bitmap)
  | OtherShape (tag : nat).

Definition slide : Type := list shape.

Definition has_text_frame (sh : shape) : bool :=
  match sh with
  | TextShape _ _ _ _ _ => true
  | _ => false
  end.

(** [paragraph.text] restricted to runs, and [shape.text]: the paragraphs
    joined by newline. *)
Definition paragraph_text (p : paragraph) : string :=
  String.concat "" (map run_text p).

Definition shape_text (paragraphs : list paragraph) : string :=
  Py.join newline (map paragraph_text paragraphs).

(** [shape.text = ""]: one paragraph without runs is left. *)
Definition cleared_text : list paragraph := [[]].

Definition set_text (t : string) (r : run) : run :=
  {| run_text := t; run_format := run_format r;
     run_hyperlink := run_hyperlink r |}.

(** [run.hyperlink.address = url]: the empty address removes the link. *)
Definition set_hyperlink (url : string) (r : run) : run :=
  {| run_text := run_text r; run_format := run_format r;
     run_hyperlink := if url =? "" then None else Some url |}.

(** ** Placeholder tokens *)

Module Re.

Fixpoint drop (n : nat) (s : string) : string :=
  match n, s with
  | S k, String _ s' => drop k s'
  | _, _ => s
  end.

(** The literal [p] at the head of [s]: what follows it. *)
Definition eat (p s : string) : option string :=
  if prefix p s then Some (drop (String.length p) s) else None.

(** [placeholder.strip("{}").strip()]. *)
Definition key_of (placeholder : string) : string :=
  Py.strip (Py.strip_chars "{}" placeholder).

(** The pattern [\{\{\s*KEY\s*\}\}] at the head of [s]: what follows the
    match.  [KEY] is escaped, so it is matched literally and with its case.
    A key produced by [key_of] neither starts nor ends with whitespace, so
    each greedy [\s*] takes all the whitespace there is and never has to
    give any back. *)
Definition match_token (key s : string) : option string :=
  s1 <- eat "{{" s ;;
  s2 <- eat key (Py.lstrip s1) ;;
  eat "}}" (Py.lstrip s2).

(** The number of code points the match takes at the head of [s]. *)
Definition match_length (key s : string) : option nat :=
  match match_token key s with
  | Some rest => Some (String.length s - String.length rest)
  | None => None
  end.

(** [re.search(pattern, s)] as a truth value. *)
Fixpoint search (key s : string) : bool :=
  match match_token key s with
  | Some _ => true
  | None =>
      match s with
      | EmptyString => false
      | String _ s' => search key s'
      end
  end.

(** The scan of [re.sub]: matches are taken left to right and do not
    overlap; [skip] counts the code points of the current match still to
    be passed over. *)
Fixpoint sub_go (key repl : string) (skip : nat) (s : string) : string :=
  match s with
  | EmptyString => EmptyString
  | String c s' =>
      match skip with
      | S k => sub_go key repl k s'
      | O =>
          match match_length key s with
          | Some n => repl ++ sub_go key repl (n - 1) s'
          | None => String c (sub_go key repl 0 s')
          end
      end
  end.

Definition backslash : string := String "092"%char EmptyString.

(** [re.sub(pattern, repl, s)] for the token pattern of [placeholder].  A
    replacement without backslash is a literal template.  One with a
    backslash goes to the template compiler of [re] before the scan starts
    (escapes, group references, [re.error]): that is not modelled. *)
Definition sub (placeholder repl s : string) : option string :=
  if Py.contains backslash repl then None
  else Some (sub_go (key_of placeholder) repl 0 s).

End Re.

(** ** SlideComposer: text substitution *)

(** The loop over [placeholder_values.items()] on one paragraph text. *)
Fixpoint substitute_all (placeholder_values : list (string * string))
    (new_text : string) : option string :=
  match placeholder_values with
  | [] => Some new_text
  | (placeholder, replacement) :: rest =>
      new_text <- Re.sub placeholder replacement new_text ;;
      substitute_all rest new_text
  end.

(** The body of the loop over paragraphs: every run is emptied (the source
    goes from the last to the first), then the first run receives the new
    text. *)
Definition replace_in_paragraph (placeholder_values : list (string * string))
    (p : paragraph) : option paragraph :=
  let full_text := paragraph_text p in
  new_text <- substitute_all placeholder_values full_text ;;
  match p with
  | [] => Some []
  | _ :: _ =>
      match map (set_text "") p with
      | first_run :: others => Some (set_text new_text first_run :: others)
      | [] => Some []
      end
  end.

Definition replace_text_in_shape (placeholder_values : list (string * string))
    (sh : shape) : option shape :=
  match sh with
  | TextShape l t w h paragraphs =>
      ps <- mapM (replace_in_paragraph placeholder_values) paragraphs ;;
      Some (TextShape l t w h ps)
  | _ => Some sh
  end.

Definition replace_text_placeholders (sl : slide)
    (placeholder_values : list (string * string)) : option slide :=
  mapM (replace_text_in_shape placeholder_values) sl.

(** ** SlideComposer: hyperlink substitution *)

(** The loop over [hyperlink_values.items()] on one run. *)
Fixpoint replace_links_in_run
    (hyperlink_values : list (string * (string * string))) (r : run)
    : option run :=
  match hyperlink_values with
  | [] => Some r
  | (placeholder, (display_text, url)) :: rest =>
      if Re.search (Re.key_of placeholder) (run_text r) then
        t <- Re.sub placeholder display_text (run_text r) ;;
        replace_links_in_run rest (set_hyperlink url (set_text t r))
      else replace_links_in_run rest r
  end.

Definition replace_links_in_shape
    (hyperlink_values : list (string * (string * string))) (sh : shape)
    : option shape :=
  match sh with
  | TextShape l t w h paragraphs =>
      ps <- mapM (mapM (replace_links_in_run hyperlink_values)) paragraphs ;;
      Some (TextShape l t w h ps)
  | _ => Some sh
  end.

Definition replace_hyperlink_placeholders (sl : slide)
    (hyperlink_values : list (string * (string * string))) : option slide :=
  mapM (replace_links_in_shape hyperlink_values) sl.

(** ** SlideComposer: image substitution *)

Definition IMAGE_PLACEHOLDERS_ORIG : list string :=
  [ "{{Product Packshot1}}"; "{{Product Lifestyle1}}";
    "{{Product Lifestyle2}}"; "{{Product Lifestyle3}}";
    "{{Product Lifestyle4}}" ].

(** The size of the inserted picture:
    [scale = min(target_width / original_width, target_height / original_height)],
    then [int(original_width * scale)] and [int(original_height * scale)]. *)
Definition scaled_size (img : bitmap) (target_width target_height : Z)
    : option (Z * Z) :=
  let ow := Zpos (original_width img) in
  let oh := Zpos (original_height img) in
  a <- Float64.true_div target_width ow ;;
  b <- Float64.true_div target_height oh ;;
  let scale := Float64.min a b in
  x <- Float64.mul_int ow scale ;;
  new_width <- Float64.to_int x ;;
  y <- Float64.mul_int oh scale ;;
  new_height <- Float64.to_int y ;;
  Some (new_width, new_height).

Section ImagePass.

(** [fetch_and_process_image_cached]: the decoded bitmap of a URL, or
    nothing when the request or the decoding fails. *)
Variable fetch : string -> option bitmap.

(** The [results] dict: one entry per placeholder with a non-empty URL.
    The five requests run in parallel; each entry depends on its own URL
    only, so the dict does not depend on the order of completion. *)
Fixpoint fetch_all (phs : list string) (image_values : list (string * string))
    : list (string * option bitmap) :=
  match phs with
  | [] => []
  | ph :: rest =>
      let url := Py.dict_get image_values ph "" in
      if url =? "" then fetch_all rest image_values
      else (ph, fetch url) :: fetch_all rest image_values
  end.

(** What the pass does to one shape: the shape after it and the picture it
    adds to the slide, if any. *)
Definition outcome : Type := shape * option shape.

(** The loop [for ph in IMAGE_PLACEHOLDERS_ORIG] on one text shape, left at
    the first placeholder found in the text ([break]). *)
Fixpoint scan_placeholders (phs : list string)
    (image_values : list (string * string))
    (results : list (string * option bitmap))
    (l t w h : Z) (paragraphs : list paragraph) : option outcome :=
  match phs with
  | [] => Some (TextShape l t w h paragraphs, None)
  | ph :: rest =>
      let tekst := shape_text paragraphs in
      if Py.contains (normalize_text ph) (normalize_text tekst) then
        let url := Py.dict_get image_values ph "" in
        match negb (url =? ""),
              Py.dict_get results ph None with
        | true, Some img =>
            size <- scaled_size img w h ;;
            Some (TextShape l t w h cleared_text,
                  Some (PictureShape l t (fst size) (snd size) img))
        | _, _ => Some (TextShape l t w h paragraphs, None)
        end
      else scan_placeholders rest image_values results l t w h paragraphs
  end.

Definition replace_image_in_shape (image_values : list (string * string))
    (results : list (string * option bitmap)) (sh : shape) : option outcome :=
  match sh with
  | TextShape l t w h paragraphs =>
      scan_placeholders IMAGE_PLACEHOLDERS_ORIG image_values results
        l t w h paragraphs
  | _ => Some (sh, None)
  end.

(** The pictures the outcomes add, in order. *)
Fixpoint added_pictures (outs : list outcome) : list shape :=
  match outs with
  | [] => []
  | (_, Some pic) :: r => pic :: added_pictures r
  | (_, None) :: r => added_pictures r
  end.

(** The loop [for shape in slide.shapes].  A picture is added at the end of
    the shape tree; the loop reaches it later and passes over it, since a
    picture has no text frame. *)
Definition replace_image_placeholders_parallel (sl : slide)
    (image_values : list (string * string)) : option slide :=
  let results := fetch_all IMAGE_PLACEHOLDERS_ORIG image_values in
  outs <- mapM (replace_image_in_shape image_values results) sl ;;
  Some (map fst outs ++ added_pictures outs)%list.

End ImagePass.

(** ** The batch loop of [main] *)

Definition TEXT_PLACEHOLDERS_ORIG : list (string * string) :=
  [ ("{{Product name}}", "Product Name:");
    ("{{Product code}}", "Product Code:");
    ("{{Product country of origin}}", "Country of origin:");
    ("{{Product height}}", "Height:");
    ("{{Product width}}", "Width:");
    ("{{Product length}}", "Length:");
    ("{{Product depth}}", "Depth:");
    ("{{Product seat height}}", "Seat Height:");
    ("{{Product diameter}}", "Diameter:");
    ("{{CertificateName}}", "Test & certificates for the product:");
    ("{{Product Consumption COM}}", "Consumption information for COM:") ].

Definition HYPERLINK_PLACEHOLDERS_ORIG : list (string * string) :=
  [ ("{{Product Fact Sheet link}}", "Download Product Fact Sheet");
    ("{{Product configurator link}}", "Click to configure product") ].

Definition rts_heading : string :=
  "Product in stock versions:" ++ newline ++ newline.

Definition mto_heading : string :=
  "Avilable for made to order:" ++ newline ++ newline.

(** [placeholder_texts] of an item without catalog row. *)
Definition missing_item_texts (item_no : string) : list (string * string) :=
  List.app
    (map (fun entry : string * string =>
            let (ph, label) := entry in
            (ph, if ph =? "{{Product code}}" then label ++ " " ++ item_no
                 else ""))
       TEXT_PLACEHOLDERS_ORIG)
    [ ("{{Product RTS}}", rts_heading); ("{{Product MTO}}", mto_heading) ].

(** [pd.isna(value) or not str(value).strip()]. *)
Definition is_blank_value (value : cell) : bool :=
  isna value || (Py.strip (py_str value) =? "").

(** The text of one field of an item with a catalog row. *)
Definition field_text (ph label : string) (value : cell) : string :=
  if is_blank_value value then ""
  else if Py.mem ph
            ["{{Product code}}"; "{{Product name}}";
             "{{Product country of origin}}"]
  then label ++ " " ++ py_str value
  else if Py.mem ph ["{{CertificateName}}"; "{{Product Consumption COM}}"]
  then label ++ newline ++ newline ++ py_str value
  else label ++ newline ++ py_str value.

(** [placeholder_texts] of an item with catalog row [mapping_row]. *)
Definition found_item_texts (mapping_row : row) (stock_df : list stock_row)
    : list (string * string) :=
  List.app
    (map (fun entry : string * string =>
            let (ph, label) := entry in
            (ph, field_text ph label
                   (row_get mapping_row (normalize_col ph) (Str ""))))
       TEXT_PLACEHOLDERS_ORIG)
    [ ("{{Product RTS}}",
       rts_heading ++ process_stock_rts_alternative mapping_row stock_df);
      ("{{Product MTO}}",
       mto_heading ++ process_stock_mto_alternative mapping_row stock_df) ].

(** The URL of a link or image field: empty when the cell is blank. *)
Definition url_of (value : cell) : string :=
  if is_blank_value value then "" else py_str value.

Definition hyperlink_vals (mapping_row : row)
    : list (string * (string * string)) :=
  map (fun entry : string * string =>
         let (ph, display_text) := entry in
         (ph, (display_text,
               url_of (row_get mapping_row (normalize_col ph) (Str "")))))
    HYPERLINK_PLACEHOLDERS_ORIG.

Definition image_vals (mapping_row : row) : list (string * string) :=
  map (fun ph => (ph, url_of (row_get mapping_row (normalize_col ph) (Str ""))))
    IMAGE_PLACEHOLDERS_ORIG.

(** The deck under construction and the list of missing items. *)
Record deck : Type := {
  slides : list slide;
  missing_items : list string
}.

Section Main.

Variable fetch : string -> option bitmap.
Variable mapping_df : list row.
Variable stock_df : list stock_row.
Variable template_copy : slide.

Definition MAPPING_PRODUCT_CODE_KEY : string := normalize_col "{{Product code}}".

(** [duplicate_slide]: the new slide is a deep copy of the template's shape
    tree, so it shares nothing with the template or with another slide. *)
Definition duplicate_slide (template : slide) : slide := template.

(** The slide of one item, once all passes have run on the copy. *)
Definition compose_slide (item_no : string) : option slide :=
  let sl := duplicate_slide template_copy in
  match find_mapping_row item_no mapping_df MAPPING_PRODUCT_CODE_KEY with
  | None =>
      sl <- replace_text_placeholders sl (missing_item_texts item_no) ;;
      replace_hyperlink_placeholders sl []
  | Some mapping_row =>
      sl <- replace_text_placeholders sl
              (found_item_texts mapping_row stock_df) ;;
      sl <- replace_hyperlink_placeholders sl (hyperlink_vals mapping_row) ;;
      replace_image_placeholders_parallel fetch sl (image_vals mapping_row)
  end.

(** The body of the loop over items. *)
Definition process_item (d : deck) (item_no : string) : option deck :=
  let missing :=
    match find_mapping_row item_no mapping_df MAPPING_PRODUCT_CODE_KEY with
    | None => (missing_items d ++ [item_no])%list
    | Some _ => missing_items d
    end in
  sl <- compose_slide item_no ;;
  Some {| slides := (slides d ++ [sl])%list; missing_items := missing |}.

(** The loop over the items of one batch. *)
Fixpoint process_items (d : deck) (batch : list string) : option deck :=
  match batch with
  | [] => Some d
  | item_no :: rest => d' <- process_item d item_no ;; process_items d' rest
  end.

Definition batch_size : nat := 10.

(** [math.ceil(total_products / batch_size)].  The quotient is a float; it
    is the exact ceiling for every list that fits in memory. *)
Definition num_batches (total_products : nat) : nat :=
  (total_products + (batch_size - 1)) / batch_size.

(** [user_df.iloc[batch_index * batch_size : (batch_index + 1) * batch_size]]. *)
Definition batch_of (varenumre : list string) (batch_index : nat)
    : list string :=
  firstn batch_size (skipn (batch_index * batch_size) varenumre).

(** The loop [for batch_index in range(num_batches)]: [todo] batches are
    left, starting with [batch_index]. *)
Fixpoint process_batches (todo batch_index : nat) (d : deck)
    (varenumre : list string) : option deck :=
  match todo with
  | O => Some d
  | S todo' =>
      d' <- process_items d (batch_of varenumre batch_index) ;;
      process_batches todo' (S batch_index) d' varenumre
  end.

(** The deck and the missing items that [main] ends with. *)
Definition generate (varenumre : list string) : option deck :=
  process_batches (num_batches (length varenumre)) 0
    {| slides := []; missing_items := [] |} varenumre.

End Main.

(** ** Vocabulary of the substitution claims *)

(** A replacement that [re.sub] takes as a literal template. *)
Definition literal (repl : string) : Prop :=
  Py.contains Re.backslash repl = false.

(** Every code point of [w] is whitespace. *)
Fixpoint all_whitespace (w : string) : Prop :=
  match w with
  | EmptyString => True
  | String c w' => Py.is_space c = true /\ all_whitespace w'
  end.

(** All substitutions applied in turn, for literal replacements. *)
Definition apply_all (placeholder_values : list (string * string))
    (text : string) : string :=
  fold_left
    (fun t (pv : string * string) =>
       Re.sub_go (Re.key_of (fst pv)) (snd pv) 0 t)
    placeholder_values text.

(** The paragraph collapsed on its first run. *)
Definition collapse (placeholder_values : list (string * string))
    (p : paragraph) : paragraph :=
  match p with
  | [] => []
  | first_run :: others =>
      set_text (apply_all placeholder_values (paragraph_text p)) first_run
      :: map (set_text "") others
  end.

Definition map_paragraphs (f : paragraph -> paragraph) (sh : shape) : shape :=
  match sh with
  | TextShape l t w h paragraphs => TextShape l t w h (map f paragraphs)
  | _ => sh
  end.


(** ** Sample slides *)

Definition plain_run (t : string) (format : nat) : run :=
  {| run_text := t; run_format := format; run_hyperlink := None |}.


(** A template with a code field, a stock field and a name field. *)
Definition small_template : slide :=
  [ TextShape 0 0 100 100
      [ [plain_run "{{Product code}}" 1];
        [plain_run "{{Product RTS}}" 1];
        [plain_run "{{Product name}}" 1] ] ].

(** A network without any image. *)
Definition fetch_nothing (url : string) : option bitmap := None.

(** The backslash, which makes a replacement a non-literal template. *)
Definition backslash_char : ascii := "092"%char.

(** ** Vocabulary of the image claims *)

(** The normalized token [ph] occurs in the normalized text of the shape. *)
Definition token_in (paragraphs : list paragraph) (ph : string) : bool :=
  Py.contains (normalize_text ph) (normalize_text (shape_text paragraphs)).

(** The first image placeholder, in declaration order, found in the text. *)
Definition first_token (paragraphs : list paragraph) : option string :=
  find (token_in paragraphs) IMAGE_PLACEHOLDERS_ORIG.

(** The bitmap resolved for a token: none when its URL is blank or the
    fetch gave nothing. *)
Definition resolved (fetch : string -> option bitmap)
    (image_values : list (string * string)) (ph : string) : option bitmap :=
  let url := Py.dict_get image_values ph "" in
  if url =? "" then None else fetch url.

(** What happens to a text shape once the bitmap of its first token is
    known. *)
Definition insert_or_keep (l t w h : Z) (paragraphs : list paragraph)
    (img : option bitmap) : option outcome :=
  match img with
  | None => Some (TextShape l t w h paragraphs, None)
  | Some img =>
      size <- scaled_size img w h ;;
      Some (TextShape l t w h cleared_text,
            Some (PictureShape l t (fst size) (snd size) img))
  end.



(** A network that answers every URL with a 100 x 50 bitmap named after
    the URL. *)
Definition fetch_named (url : string) : option bitmap :=
  Some {| original_width := 100; original_height := 50; pixels := url |}.

(** A shape with two image tokens, the later-declared one first. *)
Definition two_token_shape : shape :=
  TextShape 10 20 1000 1000
    [[plain_run "{{Product Lifestyle1}} {{Product Packshot1}}" 1]].

Definition two_urls : list (string * string) :=
  [ ("{{Product Packshot1}}", "p.jpg"); ("{{Product Lifestyle1}}", "l.jpg") ].

Definition packshot_shape : shape :=
  TextShape 10 20 1000 1000 [[plain_run "{{Product Packshot1}}" 1]].

(** ** Vocabulary of the resolver claims *)

(** A cell is blank: missing, or the empty string. *)
Definition blank (v : cell) : Prop := v = NaN \/ v = Str "".

(** The display name of a catalog row, as the resolvers read it. *)
Definition display_name (mapping_row : row) : string :=
  py_str (row_get mapping_row (normalize_col "{{Product name}}") (Str "")).

(** The product key of a catalog row, as the resolvers read it. *)
Definition product_key (mapping_row : row) : cell :=
  row_get mapping_row "productkey" (Str "").

(** [surface] occurs in [name], case-insensitively. *)
Definition name_contains (surface name : string) : bool :=
  Py.contains (Py.lower surface) (Py.lower name).

(** The surfaces declared before Sand Laminate in the fixed table. *)
Definition earlier_surfaces : list string :=
  ["Black Linoleum"; "Grey Linoleum"; "Oak Lacquered Oak Veneer";
   "Oak Oiled Oak"].

(** The fixed summary of the Sand Laminate family. *)
Definition sand_laminate_summary : string :=
  render_options
    (ProductConfigurator.leg_colors, ProductConfigurator.sand_laminate_sizes).

(** A stock row belongs to the catalog row's product. *)
Definition same_product (mapping_row : row) (r : stock_row) : Prop :=
  normalize_text (py_str (productkey r))
  = normalize_text (py_str (product_key mapping_row)).

(** The variant list with every blank name dropped, empty strings too. *)
Definition drop_blank_names (names : list cell) : list string :=
  map py_str
    (filter (fun v => negb (isna v) && negb (py_str v =? "")) names).

(** ** Sample bitmaps *)

Definition sample_bitmap (w h : positive) : bitmap :=
  {| original_width := w; original_height := h; pixels := "" |}.

(** ** Further vocabulary and sample data *)

(** The order of [str] on strings. *)
Definition str_le (a b : string) : Prop := String.leb a b = true.


(** A Sand Laminate table, and a stock table where it can only be made to
    order. *)
Definition sand_table_row : row :=
  [("{{productname}}", Str "Table Sand Laminate"); ("productkey", Str "T1")].

Definition made_to_order_only : list stock_row :=
  [ {| productkey := Str "T1"; variantname := Str "Oak - Large";
       rts := NaN; mto := Str "x" |} ].

(** A product named after two surfaces of the fixed table. *)
Definition two_surface_row : row :=
  [ ("{{productname}}", Str "Black Linoleum top, Sand Laminate base");
    ("productkey", Str "T1") ].

(** A chair with two stock rows, one of them with an empty variant name
    (or, in the second table, a name that is one space). *)
Definition chair_row : row :=
  [("{{productname}}", Str "Chair"); ("productkey", Str "C7")].

Definition chair_stock : list stock_row :=
  [ {| productkey := Str "C7"; variantname := Str ""; rts := Str "x";
       mto := Str "x" |};
    {| productkey := Str "C7"; variantname := Str "Oak"; rts := Str "x";
       mto := Str "x" |} ].

Definition chair_stock_space : list stock_row :=
  [ {| productkey := Str "C7"; variantname := Str " "; rts := Str "x";
       mto := Str "x" |};
    {| productkey := Str "C7"; variantname := Str "Oak"; rts := Str "x";
       mto := Str "x" |} ].

(** A string is empty or starts with a code point that is not whitespace. *)
Definition head_not_space (s : string) : Prop :=
  match s with
  | EmptyString => True
  | String c _ => Py.is_space c = false
  end.

(** The slide of an item without catalog row. *)
Definition missing_item_slide (template_copy : slide) (item_no : string)
    : slide :=
  map (map_paragraphs (collapse (missing_item_texts item_no))) template_copy.

(** ** The input step of [main] *)

(** What [main] makes of the pasted text: one of its two error messages, or
    the list [varenumre]. *)
Inductive pasted : Type :=
  | NoText
  | NoValidItems
  | Items (varenumre : list string).

(** [[line.strip() for line in pasted_text.splitlines() if line.strip()]]. *)
Definition varenumre_of (pasted_text : string) : list string :=
  map Py.strip
    (filter (fun line => negb (Py.strip line =? ""))
       (Py.splitlines pasted_text)).

Definition read_items (pasted_text : string) : pasted :=
  if Py.strip pasted_text =? "" then NoText
  else
    match varenumre_of pasted_text with
    | [] => NoValidItems
    | varenumre => Items varenumre
    end.

(** No code point of [s] is a line boundary. *)
Fixpoint no_linebreak (s : string) : Prop :=
  match s with
  | EmptyString => True
  | String c s' => Py.is_linebreak c = false /\ no_linebreak s'
  end.

(** An item code as [main] passes it on: not empty, trimmed, on one line. *)
Definition item_code (i : string) : Prop :=
  i <> "" /\ Py.strip i = i /\ no_linebreak i.

(** The text that follows a line boundary [c]. *)
Definition after_break (c : ascii) (s' : string) : string :=
  match s' with
  | String d s'' => if Ascii.eqb c "013" && Ascii.eqb d "010" then s'' else s'
  | EmptyString => s'
  end.

(** ** The column checks of [main] *)

Definition REQUIRED_MAPPING_COLS_ORIG : list string :=
  [ "{{Product name}}"; "{{Product code}}"; "{{Product country of origin}}";
    "{{Product height}}"; "{{Product width}}"; "{{Product length}}";
    "{{Product depth}}"; "{{Product seat height}}"; "{{Product diameter}}";
    "{{CertificateName}}"; "{{Product Consumption COM}}";
    "{{Product Fact Sheet link}}"; "{{Product configurator link}}";
    "{{Product Packshot1}}"; "{{Product Lifestyle1}}";
    "{{Product Lifestyle2}}"; "{{Product Lifestyle3}}";
    "{{Product Lifestyle4}}"; "ProductKey" ].

Definition REQUIRED_STOCK_COLS_ORIG : list string :=
  [ "productkey"; "variantname"; "rts"; "mto" ].

(** [[req for req in normalized_required_cols if req not in df.columns]],
    where [df.columns] holds the normalized headers of the file. *)
Definition missing_cols (required_cols_orig headers : list string)
    : list string :=
  let columns := map normalize_col headers in
  filter (fun req => negb (Py.mem req columns))
    (map normalize_col required_cols_orig).

(** The columns that the composition of a slide reads from a catalog row:
    the code, the product key, the name, and one per placeholder. *)
Definition columns_read : list string :=
  MAPPING_PRODUCT_CODE_KEY :: "productkey" :: normalize_col "{{Product name}}"
  :: map normalize_col
       (map fst TEXT_PLACEHOLDERS_ORIG ++ map fst HYPERLINK_PLACEHOLDERS_ORIG
        ++ IMAGE_PLACEHOLDERS_ORIG)%list.

(** ** The template file and the deck of [main] *)

(** The items of [varenumre] without catalog row, in input order. *)
Definition unmatched (mapping_df : list row) (varenumre : list string)
    : list string :=
  filter
    (fun item_no =>
       match find_mapping_row item_no mapping_df MAPPING_PRODUCT_CODE_KEY with
       | None => true
       | Some _ => false
       end)
    varenumre.


Section MainDeck.

Variable fetch : string -> option bitmap.
Variable mapping_df : list row.
Variable stock_df : list stock_row.


End MainDeck.

(** The batches of [main], in the order of the loop. *)
Definition batches (varenumre : list string) : list (list string) :=
  map (batch_of varenumre) (seq 0 (num_batches (length varenumre))).

(** ** Vocabulary of the further properties *)

(** The surfaces of the fixed table, in declaration order. *)
Definition surfaces : list string :=
  map (fun entry : (string * string * string) * list string =>
         fst (fst (fst entry)))
    ProductConfigurator.products.

(** The text has no token opener. *)
Definition no_opener (s : string) : Prop := Py.contains "{{" s = false.

(** Two runs with the same formatting, and equal when the first has no
    token opener. *)
Definition run_kept (r r' : run) : Prop :=
  run_format r' = run_format r /\ (no_opener (run_text r) -> r' = r).

(** Two shapes with the same frame and, run by run, the same formatting. *)
Definition same_layout (sh sh' : shape) : Prop :=
  match sh, sh' with
  | TextShape l t w h ps, TextShape l' t' w' h' ps' =>
      l' = l /\ t' = t /\ w' = w /\ h' = h
      /\ Forall2 (Forall2 run_kept) ps ps'
  | _, _ => has_text_frame sh = false /\ sh' = sh
  end.

(** The tokens that only an item with a catalog row gets replaced. *)
Definition link_and_image_tokens : list string :=
  (map fst HYPERLINK_PLACEHOLDERS_ORIG ++ IMAGE_PLACEHOLDERS_ORIG)%list.

(** The value of the positive float with mantissa [m] and exponent [e],
    times 2^256: an integer for every exponent from -256 on. *)
Definition scaled_value (m : positive) (e : Z) : Z :=
  (Zpos m * 2 ^ (e + 256))%Z.

(** * Properties *)

(** ** Facts on code points, by enumeration of the 256 cases *)

Ltac by_cases_on_char c :=
  destruct c as [b0 b1 b2 b3 b4 b5 b6 b7];
  destruct b0, b1, b2, b3, b4, b5, b6, b7; vm_compute; try reflexivity; auto.

Lemma lower_char_idem (c : ascii) :
  Py.lower_char (Py.lower_char c) = Py.lower_char c.
Proof. by_cases_on_char c. Qed.

Lemma is_space_lower_char (c : ascii) :
  Py.is_space (Py.lower_char c) = Py.is_space c.
Proof. by_cases_on_char c. Qed.

Lemma lower_no_uppercase (s : string) : no_uppercase (Py.lower s).
Proof.
  induction s as [|c s IH]; simpl; [exact I|].
  split; [apply lower_char_idem | exact IH].
Qed.

Lemma lower_keeps_no_whitespace (s : string) :
  no_whitespace s -> no_whitespace (Py.lower s).
Proof.
  induction s as [|c s IH]; simpl; [trivial|].
  intros [Hc Hs]. split; [rewrite is_space_lower_char; exact Hc | auto].
Qed.

Lemma remove_whitespace_no_whitespace (s : string) :
  no_whitespace (Py.remove_whitespace s).
Proof.
  induction s as [|c s IH]; simpl; [exact I|].
  destruct (Py.is_space c) eqn:E; simpl; auto.
Qed.

Lemma normalize_text_no_whitespace (s : string) :
  no_whitespace (normalize_text s).
Proof.
  unfold normalize_text.
  apply lower_keeps_no_whitespace, remove_whitespace_no_whitespace.
Qed.

Lemma normalize_text_no_uppercase (s : string) :
  no_uppercase (normalize_text s).
Proof. unfold normalize_text. apply lower_no_uppercase. Qed.

(** On a string without whitespace and without uppercase, each of the three
    stages of [normalize_text] is the identity. *)
Lemma is_space_false_not_nbsp (c : ascii) :
  Py.is_space c = false -> Ascii.eqb c Py.nbsp = false.
Proof. by_cases_on_char c; intros H; discriminate H. Qed.

Lemma normalize_text_fixed (s : string) :
  no_whitespace s -> no_uppercase s -> normalize_text s = s.
Proof.
  unfold normalize_text.
  induction s as [|c s IH]; simpl; [reflexivity|].
  intros [Hc Hs] [Lc Ls].
  rewrite (is_space_false_not_nbsp c Hc), Hc. simpl.
  rewrite Lc, (IH Hs Ls). reflexivity.
Qed.

(** C8.  [normalize_text] is idempotent: a second application changes
    nothing, because the result of the first one has no whitespace code
    point and no code point that [str.lower] would change. *)
Theorem normalize_text_idempotent (s : string) :
  normalize_text (normalize_text s) = normalize_text s
  /\ no_whitespace (normalize_text s)
  /\ no_uppercase (normalize_text s).
Proof.
  split; [|split].
  - apply normalize_text_fixed.
    + apply normalize_text_no_whitespace.
    + apply normalize_text_no_uppercase.
  - apply normalize_text_no_whitespace.
  - apply normalize_text_no_uppercase.
Qed.


(** ** Strings: append, prefix, occurrence of a code point *)

Lemma append_empty_r (s : string) : s ++ "" = s.
Proof. induction s as [|c s IH]; simpl; [reflexivity | now rewrite IH]. Qed.

Lemma append_assoc (a b c : string) : (a ++ b) ++ c = a ++ (b ++ c).
Proof. induction a as [|x a IH]; simpl; [reflexivity | now rewrite IH]. Qed.

Lemma prefix_is_prefix_of (p s : string) :
  prefix p s = true <-> is_prefix_of p s.
Proof.
  revert s. induction p as [|c p IH]; intros s.
  - split; [intros _; exists s; reflexivity | intros _; now destruct s].
  - destruct s as [|d s]; simpl.
    + split; [discriminate | intros [rest H]; discriminate H].
    + destruct (ascii_dec c d) as [->|Hcd].
      * rewrite IH. split; intros [rest H]; exists rest.
        -- simpl. now rewrite H.
        -- simpl in H. now inversion H.
      * split; [discriminate|]. intros [rest H]. simpl in H.
        inversion H. congruence.
Qed.

Lemma prefix_char (d c : ascii) (s : string) :
  prefix (String d "") (String c s) = if ascii_dec d c then true else false.
Proof.
  cbn [prefix]. destruct (ascii_dec d c); [now destruct s | reflexivity].
Qed.

Lemma prefix_hyphen (c : ascii) (s : string) :
  prefix "-" (String c s) = if ascii_dec "-"%char c then true else false.
Proof. apply prefix_char. Qed.

Lemma contains_char_false (d : ascii) (s : string) :
  Py.contains (String d "") s = false <-> no_char d s.
Proof.
  induction s as [|c s IH].
  - simpl. tauto.
  - cbn [Py.contains no_char]. rewrite prefix_char.
    destruct (ascii_dec d c) as [E|E]; simpl.
    + split; [discriminate | intros [H _]; congruence].
    + rewrite IH. split; [intros H; split; [congruence | exact H] | tauto].
Qed.

Lemma contains_hyphen_false (s : string) :
  Py.contains "-" s = false <-> no_char "-"%char s.
Proof. apply contains_char_false. Qed.

Lemma no_char_append (d : ascii) (a b : string) :
  no_char d (a ++ b) <-> no_char d a /\ no_char d b.
Proof. induction a as [|c a IH]; simpl; [tauto | rewrite IH; tauto]. Qed.

Lemma contains_hyphen_true (s : string) :
  Py.contains "-" s = true -> exists head, before_first_hyphen s head.
Proof.
  induction s as [|c s IH].
  - discriminate.
  - cbn [Py.contains]. rewrite prefix_hyphen.
    destruct (ascii_dec "-"%char c) as [E|E]; simpl.
    + intros _. exists "". exists s. subst c. split; [reflexivity | exact I].
    + intros H. destruct (IH H) as [head [tail [Hs Hn]]].
      exists (String c head), tail. split.
      * simpl. now rewrite Hs.
      * split; [congruence | exact Hn].
Qed.

(** [item.split("-")[0]] is the substring before the first hyphen. *)
Lemma split_hyphen_head (head tail cur : string) :
  no_char "-"%char head ->
  hd "" (Py.split_go "-" 0 cur (head ++ "-" ++ tail)) = cur ++ head.
Proof.
  revert cur. induction head as [|c head IH]; intros cur Hn.
  - cbn [append Py.split_go]. rewrite prefix_hyphen.
    destruct (ascii_dec "-"%char "-"%char) as [_|E]; [|congruence].
    simpl. now rewrite append_empty_r.
  - destruct Hn as [Hc Hn]. cbn [append Py.split_go]. rewrite prefix_hyphen.
    destruct (ascii_dec "-"%char c) as [E|_]; [congruence|].
    rewrite (IH _ Hn), append_assoc. reflexivity.
Qed.

Lemma split_before_first_hyphen (item head : string) :
  before_first_hyphen item head -> hd "" (Py.split "-" item) = head.
Proof.
  intros [tail [-> Hn]]. unfold Py.split.
  now rewrite split_hyphen_head.
Qed.

(** ** The two scans *)

Lemma scan_exact_some (n key : string) (cat : list row) (r : row) :
  scan_exact n key cat = Some r ->
  first_row_such (fun r => key_norm key r = n) cat r.
Proof.
  induction cat as [|x cat IH]; simpl; [discriminate|].
  fold (key_norm key x).
  destruct (String.eqb_spec (key_norm key x) n) as [E|E].
  - intros H. inversion H; subst x. exists [], cat. simpl. tauto.
  - intros H. destruct (IH H) as [before [after [Hc [Hr Hb]]]].
    exists (x :: before), after. subst cat. split; [reflexivity|].
    split; [exact Hr|]. intros r' [<-|Hin]; [exact E | now apply Hb].
Qed.

Lemma scan_exact_none (n key : string) (cat : list row) :
  scan_exact n key cat = None ->
  forall r', In r' cat -> key_norm key r' <> n.
Proof.
  induction cat as [|x cat IH]; simpl; [tauto|].
  fold (key_norm key x).
  destruct (String.eqb_spec (key_norm key x) n) as [E|E]; [discriminate|].
  intros H r' [<-|Hin]; [exact E | now apply IH].
Qed.

Lemma scan_prefix_some (p key : string) (cat : list row) (r : row) :
  scan_prefix p key cat = Some r ->
  first_row_such (fun r => is_prefix_of p (key_norm key r)) cat r.
Proof.
  induction cat as [|x cat IH]; simpl; [discriminate|].
  fold (key_norm key x). unfold Py.startswith.
  destruct (prefix p (key_norm key x)) eqn:E.
  - intros H. inversion H; subst x. exists [], cat. simpl.
    rewrite <- prefix_is_prefix_of. tauto.
  - intros H. destruct (IH H) as [before [after [Hc [Hr Hb]]]].
    exists (x :: before), after. subst cat. split; [reflexivity|].
    split; [exact Hr|]. intros r' [<-|Hin]; [|now apply Hb].
    rewrite <- prefix_is_prefix_of. congruence.
Qed.






Lemma before_first_hyphen_some (item h : string) :
  before_first_hyphen item h -> no_char "-"%char item -> False.
Proof.
  intros [tail [-> _]]. induction h as [|c h IH]; simpl.
  - intros [H _]. congruence.
  - intros [_ H]. auto.
Qed.


(** ** Lists of strings: membership and [dict.fromkeys] *)

Section StringLists.
Local Open Scope list_scope.

Lemma mem_In (x : string) (l : list string) : Py.mem x l = true <-> In x l.
Proof.
  induction l as [|y l IH]; simpl; [split; [discriminate | tauto]|].
  rewrite orb_true_iff, IH, String.eqb_eq. split; intros [H|H]; auto.
Qed.

Lemma mem_app (x : string) (a b : list string) :
  Py.mem x (a ++ b) = Py.mem x a || Py.mem x b.
Proof.
  induction a as [|y a IH]; simpl; [reflexivity|].
  now rewrite IH, orb_assoc.
Qed.

Lemma fromkeys_go_snoc (seen l : list string) (x : string) :
  Py.fromkeys_go seen (l ++ [x]) =
  if Py.mem x (seen ++ l) then Py.fromkeys_go seen l
  else Py.fromkeys_go seen l ++ [x].
Proof.
  revert seen. induction l as [|y l IH]; intros seen; simpl.
  - rewrite app_nil_r. destruct (Py.mem x seen); reflexivity.
  - destruct (Py.mem y seen) eqn:Ey; rewrite IH.
    + replace (Py.mem x (seen ++ y :: l)) with (Py.mem x (seen ++ l));
        [reflexivity|].
      rewrite !mem_app. simpl.
      destruct (String.eqb_spec x y) as [->|_]; [now rewrite Ey | reflexivity].
    + rewrite <- app_assoc. simpl.
      destruct (Py.mem x (seen ++ y :: l)); reflexivity.
Qed.

Lemma fromkeys_snoc (l : list string) (x : string) :
  Py.fromkeys (l ++ [x]) =
  if Py.mem x l then Py.fromkeys l else Py.fromkeys l ++ [x].
Proof. unfold Py.fromkeys. now rewrite fromkeys_go_snoc. Qed.

Lemma mem_fromkeys_go (x : string) (seen l : list string) :
  Py.mem x (Py.fromkeys_go seen l) = Py.mem x l && negb (Py.mem x seen).
Proof.
  revert seen. induction l as [|y l IH]; intros seen; simpl; [reflexivity|].
  destruct (Py.mem y seen) eqn:Ey.
  - rewrite IH. destruct (String.eqb_spec x y) as [->|_]; simpl;
      [now rewrite Ey, andb_false_r | reflexivity].
  - simpl. rewrite IH, mem_app. simpl.
    destruct (String.eqb_spec x y) as [->|_]; simpl.
    + now rewrite Ey.
    + now destruct (Py.mem x l), (Py.mem x seen).
Qed.

Lemma mem_fromkeys (x : string) (l : list string) :
  Py.mem x (Py.fromkeys l) = Py.mem x l.
Proof. unfold Py.fromkeys. rewrite mem_fromkeys_go. simpl. apply andb_true_r. Qed.

Lemma fromkeys_go_NoDup (seen l : list string) : NoDup (Py.fromkeys_go seen l).
Proof.
  revert seen. induction l as [|y l IH]; intros seen; simpl; [constructor|].
  destruct (Py.mem y seen) eqn:Ey; [apply IH|].
  constructor; [|apply IH].
  rewrite <- mem_In, mem_fromkeys_go, mem_app. simpl.
  rewrite String.eqb_refl, orb_true_r, andb_false_r. discriminate.
Qed.

Lemma fromkeys_NoDup (l : list string) : NoDup (Py.fromkeys l).
Proof. apply fromkeys_go_NoDup. Qed.

Lemma fromkeys_In (x : string) (l : list string) :
  In x (Py.fromkeys l) <-> In x l.
Proof. now rewrite <- !mem_In, mem_fromkeys. Qed.

Lemma fromkeys_go_ext (s1 s2 l : list string) :
  (forall z, Py.mem z s1 = Py.mem z s2) ->
  Py.fromkeys_go s1 l = Py.fromkeys_go s2 l.
Proof.
  revert s1 s2. induction l as [|y l IH]; intros s1 s2 H; simpl; [reflexivity|].
  rewrite (H y). destruct (Py.mem y s2); [now apply IH|].
  f_equal. apply IH. intros z. now rewrite !mem_app, H.
Qed.

Lemma filter_idem {A : Type} (f : A -> bool) (l : list A) :
  filter f (filter f l) = filter f l.
Proof.
  induction l as [|a l IH]; simpl; [reflexivity|].
  destruct (f a) eqn:E; simpl; [now rewrite E, IH | exact IH].
Qed.

(** First-seen order: the head stays in front, and its later occurrences
    are the only thing it removes from the rest. *)
Lemma fromkeys_go_filter (seen l : list string) (x : string) :
  Py.fromkeys_go (seen ++ [x]) l =
  filter (fun y => negb (y =? x)%string) (Py.fromkeys_go seen l).
Proof.
  revert seen. induction l as [|y l IH]; intros seen; simpl; [reflexivity|].
  rewrite mem_app. simpl. rewrite orb_false_r.
  destruct (Py.mem y seen) eqn:Ey; simpl; [apply IH|].
  destruct (String.eqb_spec y x) as [->|Hyx]; simpl.
  - now rewrite IH, filter_idem.
  - f_equal. rewrite <- IH. apply fromkeys_go_ext.
    intros z. rewrite !mem_app. simpl.
    now destruct (Py.mem z seen), (z =? x)%string, (z =? y)%string.
Qed.

Lemma fromkeys_cons (x : string) (l : list string) :
  Py.fromkeys (x :: l) =
  x :: filter (fun y => negb (y =? x)%string) (Py.fromkeys l).
Proof.
  unfold Py.fromkeys. simpl. f_equal. apply (fromkeys_go_filter [] l x).
Qed.

End StringLists.

(** ** The grouping loop computes the specified mapping *)

Section GroupRefinement.
Local Open Scope list_scope.

Lemma colors_snoc (l : list string) (n : string) :
  GroupSpec.colors (l ++ [n]) =
  if Py.mem (GroupSpec.color_of n) (GroupSpec.colors l)
  then GroupSpec.colors l
  else GroupSpec.colors l ++ [GroupSpec.color_of n].
Proof.
  unfold GroupSpec.colors. rewrite map_app. simpl.
  now rewrite fromkeys_snoc, mem_fromkeys.
Qed.

Lemma sizes_of_snoc (l : list string) (n c : string) :
  GroupSpec.sizes_of (l ++ [n]) c =
  if (GroupSpec.color_of n =? c)%string then
    if (GroupSpec.size_of n =? "")%string then GroupSpec.sizes_of l c
    else if Py.mem (GroupSpec.size_of n) (GroupSpec.sizes_of l c)
         then GroupSpec.sizes_of l c
         else GroupSpec.sizes_of l c ++ [GroupSpec.size_of n]
  else GroupSpec.sizes_of l c.
Proof.
  unfold GroupSpec.sizes_of. rewrite filter_app. simpl.
  destruct (GroupSpec.color_of n =? c)%string.
  - rewrite map_app, filter_app. simpl.
    destruct (GroupSpec.size_of n =? "")%string; simpl.
    + now rewrite app_nil_r.
    + now rewrite fromkeys_snoc, mem_fromkeys.
  - now rewrite app_nil_r.
Qed.

Lemma sizes_of_unseen (l : list string) (c : string) :
  Py.mem c (map GroupSpec.color_of l) = false -> GroupSpec.sizes_of l c = [].
Proof.
  intros H. unfold GroupSpec.sizes_of.
  replace (filter (fun n => (GroupSpec.color_of n =? c)%string) l) with
    (@nil string); [reflexivity|].
  induction l as [|n l IH]; simpl in *; [reflexivity|].
  apply orb_false_iff in H. destruct H as [H1 H2].
  rewrite String.eqb_sym, H1. now apply IH.
Qed.

Lemma setdefault_map (g : string -> list string) (keys : list string)
    (color : string) :
  setdefault (map (fun c => (c, g c)) keys) color =
  if Py.mem color keys then map (fun c => (c, g c)) keys
  else map (fun c => (c, g c)) keys ++ [(color, [])].
Proof.
  induction keys as [|k keys IH]; simpl; [reflexivity|].
  rewrite (String.eqb_sym color k).
  destruct (k =? color)%string; simpl; [reflexivity|].
  rewrite IH. destruct (Py.mem color keys); reflexivity.
Qed.

Lemma add_size_map (g : string -> list string) (keys : list string)
    (color size : string) :
  NoDup keys ->
  add_size (map (fun c => (c, g c)) keys) color size =
  map (fun c => (c, if (c =? color)%string then Py.set_add size (g c) else g c))
    keys.
Proof.
  induction keys as [|k keys IH]; intros Hnd; simpl; [reflexivity|].
  inversion Hnd as [|? ? Hk Hnd']; subst.
  destruct (String.eqb_spec k color) as [->|Hkc].
  - f_equal. apply map_ext_in. intros c Hc.
    destruct (String.eqb_spec c color) as [->|_]; [contradiction | reflexivity].
  - f_equal. now apply IH.
Qed.

Lemma add_size_last (g : string -> list string) (keys : list string)
    (color size : string) (v : list string) :
  Py.mem color keys = false ->
  add_size (map (fun c => (c, g c)) keys ++ [(color, v)]) color size =
  map (fun c => (c, g c)) keys ++ [(color, Py.set_add size v)].
Proof.
  induction keys as [|k keys IH]; simpl.
  - intros _. now rewrite String.eqb_refl.
  - intros H. apply orb_false_iff in H. destruct H as [H1 H2].
    rewrite String.eqb_sym, H1. f_equal. now apply IH.
Qed.

Lemma group_step_groups (l : list string) (n : string) :
  group_step (GroupSpec.groups l) n = GroupSpec.groups (l ++ [n]).
Proof.
  unfold group_step, GroupSpec.groups.
  rewrite colors_snoc.
  pose proof (sizes_of_snoc l n) as Hs.
  unfold GroupSpec.color_of, GroupSpec.size_of in *.
  destruct (parse_variant n) as [color size]. simpl fst in *. simpl snd in *.
  rewrite setdefault_map.
  destruct (Py.mem color (GroupSpec.colors l)) eqn:Em.
  - destruct (size =? "")%string eqn:Ez; simpl.
    + apply map_ext. intros c. rewrite Hs.
      now destruct (color =? c)%string.
    + rewrite add_size_map by apply fromkeys_NoDup.
      apply map_ext. intros c. rewrite Hs, (String.eqb_sym c color).
      now destruct (color =? c)%string.
  - assert (Hun : GroupSpec.sizes_of l color = []).
    { apply sizes_of_unseen. unfold GroupSpec.colors in Em.
      now rewrite mem_fromkeys in Em. }
    assert (Hold : map (fun c => (c, GroupSpec.sizes_of (l ++ [n]) c))
                     (GroupSpec.colors l)
                   = map (fun c => (c, GroupSpec.sizes_of l c))
                       (GroupSpec.colors l)).
    { apply map_ext_in. intros c Hc. rewrite Hs.
      destruct (String.eqb_spec color c) as [->|_]; [|reflexivity].
      apply mem_In in Hc. congruence. }
    rewrite map_app, Hold. simpl. rewrite Hs, String.eqb_refl, Hun.
    destruct (size =? "")%string eqn:Ez; simpl; [reflexivity|].
    now rewrite add_size_last by exact Em.
Qed.

Lemma fold_group_step (todo done : list string) :
  fold_left group_step todo (GroupSpec.groups done) =
  GroupSpec.groups (done ++ todo).
Proof.
  revert done. induction todo as [|n todo IH]; intros done; simpl.
  - now rewrite app_nil_r.
  - rewrite group_step_groups, IH, <- app_assoc. reflexivity.
Qed.

Lemma render_groups (l : list string) :
  map render_line (GroupSpec.groups l) =
  map (GroupSpec.line l) (GroupSpec.colors l).
Proof.
  unfold GroupSpec.groups. rewrite map_map. apply map_ext. intros c.
  unfold render_line, GroupSpec.line.
  now destruct (GroupSpec.sizes_of l c).
Qed.

Lemma group_by_color_and_size_spec (names : list string) :
  group_by_color_and_size names = GroupSpec.group names.
Proof.
  unfold group_by_color_and_size, GroupSpec.group.
  change (@nil (string * list string)) with (GroupSpec.groups []).
  now rewrite fold_group_step, render_groups.
Qed.

End GroupRefinement.

(** ** Splitting a name built from hyphen-free segments *)

Lemma prefix_cons (a b : ascii) (p s : string) :
  prefix (String a p) (String b s) =
  if ascii_dec a b then prefix p s else false.
Proof. reflexivity. Qed.





Lemma contains_infix (sub a b : string) :
  Py.contains sub (a ++ sub ++ b) = true.
Proof.
  induction a as [|c a IH].
  - cbn [append]. assert (H : prefix sub (sub ++ b) = true).
    { apply prefix_is_prefix_of. now exists b. }
    destruct (sub ++ b); cbn [Py.contains]; now rewrite H.
  - cbn [append Py.contains]. rewrite IH. apply orb_true_r.
Qed.


Lemma parse_variant_plain (name : string) :
  Py.contains sep name = false -> parse_variant name = (Py.strip name, "").
Proof. intros H. unfold parse_variant. now rewrite H. Qed.

(** ** Sorting *)

Section Sorting.
Local Open Scope list_scope.

Lemma insert_sorted_perm (x : string) (l : list string) :
  Permutation (x :: l) (Py.insert_sorted x l).
Proof.
  induction l as [|y l IH]; simpl; [apply Permutation_refl|].
  destruct (String.leb x y); [apply Permutation_refl|].
  eapply perm_trans; [apply perm_swap | now apply perm_skip].
Qed.

Lemma sorted_perm (l : list string) : Permutation l (Py.sorted l).
Proof.
  induction l as [|x l IH]; simpl; [constructor|].
  eapply perm_trans; [apply perm_skip, IH | apply insert_sorted_perm].
Qed.

Lemma insert_sorted_sorted (x : string) (l : list string) :
  Sorted str_le l -> Sorted str_le (Py.insert_sorted x l).
Proof.
  induction l as [|y l IH]; simpl; intros H.
  - repeat constructor.
  - destruct (String.leb x y) eqn:E.
    + constructor; [exact H | constructor; exact E].
    + inversion H as [|? ? Hs Hh]; subst.
      constructor; [now apply IH|].
      assert (Hyx : str_le y x).
      { destruct (String.leb_total x y) as [T|T]; [congruence | exact T]. }
      destruct l as [|z l]; simpl; [now constructor|].
      destruct (String.leb x z); constructor; [exact Hyx|].
      now inversion Hh.
Qed.

Lemma sorted_sorted (l : list string) : Sorted str_le (Py.sorted l).
Proof.
  induction l as [|x l IH]; simpl; [constructor | now apply insert_sorted_sorted].
Qed.

End Sorting.

(** ** Claims on the matcher and the grouper *)





(** ** The stock resolvers *)

Section ResolverFacts.
Local Open Scope list_scope.

Variable flag : stock_row -> cell.

Lemma available_non_blank (r : stock_row) :
  available flag r = true <-> ~ blank (flag r).
Proof.
  unfold available, blank. destruct (flag r) as [|s]; simpl.
  - split; [discriminate | intros H; exfalso; apply H; now left].
  - destruct (String.eqb_spec s "") as [->|Hs]; simpl.
    + split; [discriminate | intros H; exfalso; apply H; now right].
    + split; [|reflexivity]. intros _ [H|H]; [discriminate | congruence].
Qed.

Lemma filter_nil_iff {A : Type} (f : A -> bool) (l : list A) :
  filter f l = [] <-> forall x, In x l -> f x = false.
Proof.
  induction l as [|a l IH]; simpl; [tauto|].
  destruct (f a) eqn:E.
  - split; [discriminate|]. intros H. specialize (H a (or_introl eq_refl)).
    congruence.
  - rewrite IH. split.
    + intros H x [<-|Hx]; auto.
    + intros H x Hx. apply H. now right.
Qed.

Lemma blank_key_exit (mapping_row : row) (stock_df : list stock_row) :
  blank (product_key mapping_row) ->
  unique_variant_names flag mapping_row stock_df = None.
Proof.
  unfold unique_variant_names, product_key. now intros [-> | ->].
Qed.

Lemma non_blank_key_continues (mapping_row : row) :
  ~ blank (product_key mapping_row) ->
  negb (truthy (product_key mapping_row)) || isna (product_key mapping_row)
  = false.
Proof.
  unfold blank. destruct (product_key mapping_row) as [|k]; simpl.
  - intros H. exfalso. apply H. now left.
  - intros H. destruct (String.eqb_spec k "") as [->|_]; [|reflexivity].
    exfalso. apply H. now right.
Qed.

Lemma filter_key_In (mapping_row : row) (stock_df : list stock_row)
    (r : stock_row) :
  In r (filter_key (normalize_text (py_str (product_key mapping_row))) stock_df)
  <-> In r stock_df /\ same_product mapping_row r.
Proof.
  unfold filter_key, same_product. rewrite filter_In, String.eqb_eq. tauto.
Qed.

Lemma no_product_row_exit (mapping_row : row) (stock_df : list stock_row) :
  (forall r, In r stock_df -> ~ same_product mapping_row r) ->
  unique_variant_names flag mapping_row stock_df = None.
Proof.
  intros H. unfold unique_variant_names. fold (product_key mapping_row).
  destruct (negb (truthy (product_key mapping_row))
            || isna (product_key mapping_row)); [reflexivity|].
  replace (filter_key _ stock_df) with (@nil stock_row); [reflexivity|].
  symmetry. apply filter_nil_iff. intros r Hr.
  apply String.eqb_neq. exact (H r Hr).
Qed.

Lemma no_available_row_exit (mapping_row : row) (stock_df : list stock_row) :
  (forall r, In r stock_df -> same_product mapping_row r -> blank (flag r)) ->
  unique_variant_names flag mapping_row stock_df = None.
Proof.
  intros H. unfold unique_variant_names. fold (product_key mapping_row).
  destruct (negb (truthy (product_key mapping_row))
            || isna (product_key mapping_row)); [reflexivity|].
  destruct (filter_key _ stock_df) as [|r0 rest] eqn:E; [reflexivity|].
  rewrite <- E.
  replace (filter (available flag) (filter_key _ stock_df))
    with (@nil stock_row); [reflexivity|].
  symmetry. apply filter_nil_iff. intros r Hr.
  apply filter_key_In in Hr. destruct Hr as [Hin Hsame].
  destruct (available flag r) eqn:Ea; [|reflexivity].
  apply available_non_blank in Ea. exfalso. now apply Ea, H.
Qed.

Lemma variant_names_of_spec (rows : list stock_row) :
  variant_names_of rows =
  map py_str (filter (fun v => negb (isna v)) (map variantname rows)).
Proof.
  induction rows as [|r rows IH]; simpl; [reflexivity|].
  destruct (variantname r); simpl; now rewrite IH.
Qed.

Lemma available_row_continues (mapping_row : row) (stock_df : list stock_row)
    (r : stock_row) :
  ~ blank (product_key mapping_row) ->
  In r stock_df -> same_product mapping_row r -> ~ blank (flag r) ->
  unique_variant_names flag mapping_row stock_df =
  Some (Py.fromkeys
          (variant_names_of
             (filter (available flag)
                (filter_key (normalize_text (py_str (product_key mapping_row)))
                   stock_df)))).
Proof.
  intros Hk Hin Hsame Hav. unfold unique_variant_names.
  fold (product_key mapping_row). rewrite (non_blank_key_continues _ Hk).
  assert (H1 : In r (filter_key
                       (normalize_text (py_str (product_key mapping_row)))
                       stock_df)) by now apply filter_key_In.
  assert (H2 : In r (filter (available flag)
                       (filter_key
                          (normalize_text (py_str (product_key mapping_row)))
                          stock_df))).
  { apply filter_In. split; [exact H1 | now apply available_non_blank]. }
  destruct (filter_key _ stock_df) as [|a l]; [destruct H1|].
  destruct (filter (available flag) (a :: l)) as [|b l']; [destruct H2|].
  reflexivity.
Qed.

Lemma process_exit (mapping_row : row) (stock_df : list stock_row) :
  unique_variant_names flag mapping_row stock_df = None ->
  process_stock_alternative flag mapping_row stock_df = "".
Proof. intros H. unfold process_stock_alternative. now rewrite H. Qed.

End ResolverFacts.

Lemma sand_laminate_options (name : string) :
  name_contains "Sand Laminate" name = true ->
  (forall surface, In surface earlier_surfaces ->
     name_contains surface name = false) ->
  ProductConfigurator.get_options name =
  Some (ProductConfigurator.leg_colors, ProductConfigurator.sand_laminate_sizes).
Proof.
  intros Hs He. unfold name_contains in *.
  unfold ProductConfigurator.get_options, ProductConfigurator.products.
  cbn [ProductConfigurator.get_options_from].
  rewrite (He "Black Linoleum") by (simpl; tauto).
  rewrite (He "Grey Linoleum") by (simpl; tauto).
  rewrite (He "Oak Lacquered Oak Veneer") by (simpl; tauto).
  rewrite (He "Oak Oiled Oak") by (simpl; tauto).
  rewrite Hs. reflexivity.
Qed.

(** ** Claims on the stock resolvers *)

(** C1, the claim as stated fails.  For a catalog row named Table Sand
    Laminate, both resolvers return the empty string on an empty stock
    table, and the ready-to-ship resolver returns the empty string when the
    only row of the product carries no ready-to-ship flag: the fixed summary
    is not rendered there.  A name that also contains a surface declared
    before Sand Laminate gets the four default sizes of that surface. *)
Lemma sand_laminate_without_stock_rows :
  name_contains "Sand Laminate" (display_name sand_table_row) = true
  /\ process_stock_rts_alternative sand_table_row [] = ""
  /\ process_stock_mto_alternative sand_table_row [] = ""
  /\ process_stock_rts_alternative sand_table_row made_to_order_only = ""
  /\ process_stock_mto_alternative sand_table_row made_to_order_only
     = sand_laminate_summary
  /\ "" <> sand_laminate_summary
  /\ name_contains "Sand Laminate" (display_name two_surface_row) = true
  /\ process_stock_mto_alternative two_surface_row made_to_order_only
     = render_options
         (ProductConfigurator.leg_colors, ProductConfigurator.default_sizes)
  /\ render_options
       (ProductConfigurator.leg_colors, ProductConfigurator.default_sizes)
     <> sand_laminate_summary.
Proof. vm_compute. repeat split; discriminate. Qed.

(** C1, amended.  For a catalog row whose display name contains Sand
    Laminate case-insensitively and none of the surfaces declared before it,
    and whose product key is not blank, each resolver returns the fixed
    summary (leg colors Black, Grey, Sand, White and the three Sand Laminate
    sizes) as soon as the stock table has one row of the product with the
    respective availability flag not blank, whatever the variant names of
    the stock rows are. *)
Theorem sand_laminate_summary_with_stock (mapping_row : row)
    (stock_df : list stock_row) :
  name_contains "Sand Laminate" (display_name mapping_row) = true ->
  (forall surface, In surface earlier_surfaces ->
     name_contains surface (display_name mapping_row) = false) ->
  ~ blank (product_key mapping_row) ->
  ((exists r, In r stock_df /\ same_product mapping_row r /\ ~ blank (rts r)) ->
   process_stock_rts_alternative mapping_row stock_df = sand_laminate_summary)
  /\
  ((exists r, In r stock_df /\ same_product mapping_row r /\ ~ blank (mto r)) ->
   process_stock_mto_alternative mapping_row stock_df = sand_laminate_summary).
Proof.
  intros Hs He Hk.
  pose proof (sand_laminate_options _ Hs He) as Ho.
  unfold display_name in Ho.
  split; intros [r [Hin [Hsame Hav]]];
    unfold process_stock_rts_alternative, process_stock_mto_alternative,
      process_stock_alternative;
    rewrite (available_row_continues _ _ _ r Hk Hin Hsame Hav), Ho;
    reflexivity.
Qed.

Lemma sand_laminate_summary_with_stock_witness :
  process_stock_mto_alternative sand_table_row made_to_order_only
  = "Benfarver: Black, Grey, Sand, White" ++ newline
    ++ "St" ++ o_slash ++ "rrelser: "
    ++ "225 x 90 cm / 88.5 x 35.5" ++ ProductConfigurator.inch ++ ", "
    ++ "255 x 108 cm / 100.5 x 42.5" ++ ProductConfigurator.inch ++ ", "
    ++ "295 x 108 cm / 116 x 42.5" ++ ProductConfigurator.inch.
Proof.
  refine (proj2 (sand_laminate_summary_with_stock sand_table_row
                   made_to_order_only _ _ _) _).
  - reflexivity.
  - intros surface H. simpl in H.
    destruct H as [<-|[<-|[<-|[<-|[]]]]]; reflexivity.
  - intros [H|H]; discriminate H.
  - eexists. split; [left; reflexivity|]. split; [reflexivity|].
    intros [H|H]; discriminate H.
Defined.

(** C4, the claim as stated fails.  A stock row of the product whose
    variant name is the empty string is not dropped: the name stays in the
    deduplicated list and reaches the grouper, whose output then starts
    with an empty line, where the list with blanks dropped gives Oak.  A
    name that is one space is kept in the same way. *)
Lemma empty_variant_name_is_kept :
  unique_variant_names rts chair_row chair_stock = Some [""; "Oak"]
  /\ Py.fromkeys (drop_blank_names (map variantname chair_stock)) = ["Oak"]
  /\ process_stock_rts_alternative chair_row chair_stock = newline ++ "Oak"
  /\ process_stock_mto_alternative chair_row chair_stock = newline ++ "Oak"
  /\ group_by_color_and_size ["Oak"] = "Oak"
  /\ newline ++ "Oak" <> "Oak"
  /\ unique_variant_names rts chair_row chair_stock_space = Some [" "; "Oak"]
  /\ process_stock_rts_alternative chair_row chair_stock_space
     = newline ++ "Oak".
Proof. vm_compute. repeat split; discriminate. Qed.

(** The part of the resolvers that C4 describes, for one availability
    column. *)
Lemma resolver_exits_and_dedup (flag : stock_row -> cell) (mapping_row : row)
    (stock_df : list stock_row) :
  (blank (product_key mapping_row) ->
   process_stock_alternative flag mapping_row stock_df = "")
  /\ ((forall r, In r stock_df -> ~ same_product mapping_row r) ->
      process_stock_alternative flag mapping_row stock_df = "")
  /\ ((forall r, In r stock_df -> same_product mapping_row r ->
         blank (flag r)) ->
      process_stock_alternative flag mapping_row stock_df = "")
  /\ (~ blank (product_key mapping_row) ->
      (exists r, In r stock_df /\ same_product mapping_row r
                 /\ ~ blank (flag r)) ->
      let rows :=
        filter (fun r => negb (isna (flag r)) && negb (py_str (flag r) =? ""))
          (filter (fun r => normalize_text (py_str (productkey r))
                            =? normalize_text (py_str (product_key mapping_row)))
             stock_df) in
      let names :=
        map py_str (filter (fun v => negb (isna v)) (map variantname rows)) in
      unique_variant_names flag mapping_row stock_df = Some (Py.fromkeys names)
      /\ process_stock_alternative flag mapping_row stock_df =
         match ProductConfigurator.get_options (display_name mapping_row) with
         | Some options => render_options options
         | None => group_by_color_and_size (Py.fromkeys names)
         end).
Proof.
  split; [intros H; now apply process_exit, blank_key_exit|].
  split; [intros H; now apply process_exit, no_product_row_exit|].
  split; [intros H; now apply process_exit, no_available_row_exit|].
  intros Hk [r [Hin [Hsame Hav]]] rows names.
  pose proof (available_row_continues flag _ _ r Hk Hin Hsame Hav) as Hu.
  rewrite variant_names_of_spec in Hu.
  split; [exact Hu|].
  unfold process_stock_alternative. rewrite Hu. reflexivity.
Qed.

(** C4, amended.  Each resolver returns the empty string when the product
    key of the catalog row is absent or blank, when no stock row has the
    same normalized product key, and when no such row has its availability
    field (rts, respectively mto) non-blank.  Otherwise the variant names of
    the remaining rows are collected with the missing ones (NaN) dropped,
    an empty-string name being kept, and deduplicated: no name is repeated,
    the names are the same, and they stand in first-seen order; the result
    is the configurator summary when the display name matches the fixed
    table, else the grouping of that list. *)
Theorem stock_resolvers_exits_and_dedup (mapping_row : row)
    (stock_df : list stock_row) :
  (forall flag resolver,
     (flag = rts /\ resolver = process_stock_rts_alternative)
     \/ (flag = mto /\ resolver = process_stock_mto_alternative) ->
     (blank (product_key mapping_row) -> resolver mapping_row stock_df = "")
     /\ ((forall r, In r stock_df -> ~ same_product mapping_row r) ->
         resolver mapping_row stock_df = "")
     /\ ((forall r, In r stock_df -> same_product mapping_row r ->
            blank (flag r)) ->
         resolver mapping_row stock_df = "")
     /\ (~ blank (product_key mapping_row) ->
         (exists r, In r stock_df /\ same_product mapping_row r
                    /\ ~ blank (flag r)) ->
         let rows :=
           filter
             (fun r => negb (isna (flag r)) && negb (py_str (flag r) =? ""))
             (filter
                (fun r => normalize_text (py_str (productkey r))
                          =? normalize_text (py_str (product_key mapping_row)))
                stock_df) in
         let names :=
           map py_str (filter (fun v => negb (isna v)) (map variantname rows))
         in
         unique_variant_names flag mapping_row stock_df
         = Some (Py.fromkeys names)
         /\ resolver mapping_row stock_df =
            match ProductConfigurator.get_options (display_name mapping_row)
            with
            | Some options => render_options options
            | None => group_by_color_and_size (Py.fromkeys names)
            end))
  /\ (forall l : list string,
        NoDup (Py.fromkeys l)
        /\ (forall x, In x (Py.fromkeys l) <-> In x l)
        /\ Py.fromkeys [] = []
        /\ forall x, Py.fromkeys (x :: l) =
                     x :: filter (fun y => negb (y =? x)) (Py.fromkeys l)).
Proof.
  split.
  - intros flag resolver [[-> ->]|[-> ->]]; apply resolver_exits_and_dedup.
  - intros l. split; [apply fromkeys_NoDup|].
    split; [intros x; apply fromkeys_In|].
    split; [reflexivity|]. intros x. apply fromkeys_cons.
Qed.

Lemma stock_resolvers_exits_and_dedup_witness :
  process_stock_rts_alternative [("productkey", Str "")] chair_stock = ""
  /\ process_stock_mto_alternative chair_row [] = ""
  /\ process_stock_rts_alternative chair_row chair_stock = newline ++ "Oak".
Proof.
  destruct (stock_resolvers_exits_and_dedup [("productkey", Str "")]
              chair_stock) as [H1 _].
  destruct (stock_resolvers_exits_and_dedup chair_row []) as [H2 _].
  destruct (stock_resolvers_exits_and_dedup chair_row chair_stock) as [H3 _].
  split; [|split].
  - apply (proj1 (H1 rts _ (or_introl (conj eq_refl eq_refl)))). now right.
  - apply (proj1 (proj2 (H2 mto _ (or_intror (conj eq_refl eq_refl))))).
    intros r [].
  - destruct (H3 rts _ (or_introl (conj eq_refl eq_refl)))
      as [_ [_ [_ H]]].
    destruct H as [_ H].
    + intros [E|E]; discriminate E.
    + eexists. split; [left; reflexivity|]. split; [reflexivity|].
      intros [E|E]; discriminate E.
    + exact H.
Defined.

(** ** Tokens *)





Lemma lstrip_head (s : string) : head_not_space (Py.lstrip s).
Proof.
  induction s as [|c s IH]; simpl; [exact I|].
  destruct (Py.is_space c) eqn:E; [exact IH | exact E].
Qed.

Lemma rstrip_head (s : string) :
  head_not_space s -> head_not_space (Py.rstrip s).
Proof.
  destruct s as [|c s]; simpl; [trivial|]. intros H.
  destruct (Py.rstrip s); simpl; [now rewrite H | exact H].
Qed.


Lemma lstrip_fixed (s : string) : head_not_space s -> Py.lstrip s = s.
Proof. destruct s as [|c s]; simpl; [reflexivity|]. now intros ->. Qed.




(** Text without an opening brace pair at its head is copied. *)
Lemma sub_go_char (key repl : string) (c : ascii) (s : string) :
  c <> "{"%char ->
  Re.sub_go key repl 0 (String c s) = String c (Re.sub_go key repl 0 s).
Proof.
  intros Hc. cbn [Re.sub_go]. unfold Re.match_length, Re.match_token, Re.eat.
  rewrite prefix_cons.
  destruct (ascii_dec "{"%char c) as [E|_]; [congruence | reflexivity].
Qed.

(** ** The text pass *)

Lemma substitute_all_literal (values : list (string * string)) (t : string) :
  Forall (fun pv => literal (snd pv)) values ->
  substitute_all values t = Some (apply_all values t).
Proof.
  revert t. induction values as [|[ph repl] values IH]; intros t H.
  - reflexivity.
  - inversion H as [|? ? Hl Hr]; subst. simpl in Hl.
    cbn [substitute_all]. unfold Re.sub. unfold literal in Hl. rewrite Hl.
    cbn [bind]. now rewrite IH.
Qed.


Lemma replace_in_paragraph_literal (values : list (string * string))
    (p : paragraph) :
  Forall (fun pv => literal (snd pv)) values ->
  replace_in_paragraph values p = Some (collapse values p).
Proof.
  intros H. unfold replace_in_paragraph.
  rewrite (substitute_all_literal _ _ H). cbn [bind].
  destruct p as [|r rs]; reflexivity.
Qed.

Lemma mapM_total {A B : Type} (f : A -> option B) (g : A -> B) (l : list A) :
  (forall a, In a l -> f a = Some (g a)) -> mapM f l = Some (map g l).
Proof.
  induction l as [|a l IH]; intros H; [reflexivity|].
  cbn [mapM map]. rewrite (H a) by now left. cbn [bind].
  rewrite IH by (intros b Hb; apply H; now right). reflexivity.
Qed.

Lemma replace_text_placeholders_literal (values : list (string * string))
    (sl : slide) :
  Forall (fun pv => literal (snd pv)) values ->
  replace_text_placeholders sl values =
  Some (map (map_paragraphs (collapse values)) sl).
Proof.
  intros H. unfold replace_text_placeholders. apply mapM_total.
  intros sh _. destruct sh as [l t w h ps| |]; try reflexivity.
  cbn [replace_text_in_shape map_paragraphs].
  rewrite (mapM_total _ (collapse values)); [reflexivity|].
  intros p _. now apply replace_in_paragraph_literal.
Qed.







(** ** The batch loop *)

Lemma replace_hyperlink_placeholders_none (sl : slide) :
  replace_hyperlink_placeholders sl [] = Some sl.
Proof.
  unfold replace_hyperlink_placeholders.
  rewrite (mapM_total _ (fun sh => sh)); [now rewrite map_id|].
  intros sh _. destruct sh as [l t w h ps| |]; try reflexivity.
  cbn [replace_links_in_shape].
  rewrite (mapM_total _ (fun p => p)); [now rewrite map_id|].
  intros p _. rewrite (mapM_total _ (fun r => r)); [now rewrite map_id|].
  reflexivity.
Qed.

Lemma missing_item_texts_literal (item_no : string) :
  no_char backslash_char item_no ->
  Forall (fun pv => literal (snd pv)) (missing_item_texts item_no).
Proof.
  intros H.
  assert (Hcode : literal ("Product Code:" ++ " " ++ item_no)).
  { apply (contains_char_false backslash_char).
    change ("Product Code:" ++ " " ++ item_no)
      with ("Product Code: " ++ item_no).
    apply no_char_append. split; [|exact H].
    simpl. repeat split; discriminate. }
  unfold missing_item_texts, TEXT_PLACEHOLDERS_ORIG. cbn [map List.app].
  repeat (constructor; [first [exact Hcode | reflexivity]|]).
  constructor.
Qed.

(** The batches cut the item list without loss or overlap: the run is the
    item loop over the whole list. *)
Section Batches.
Local Open Scope list_scope.

Variable fetch : string -> option bitmap.
Variable mapping_df : list row.
Variable stock_df : list stock_row.
Variable template_copy : slide.

Lemma process_items_app (d : deck) (a b : list string) :
  process_items fetch mapping_df stock_df template_copy d (a ++ b) =
  (d' <- process_items fetch mapping_df stock_df template_copy d a ;;
   process_items fetch mapping_df stock_df template_copy d' b).
Proof.
  revert d. induction a as [|x a IH]; intros d; [reflexivity|].
  cbn [process_items app].
  destruct (process_item fetch mapping_df stock_df template_copy d x);
    cbn [bind]; [apply IH | reflexivity].
Qed.

Lemma firstn_add {A : Type} (n m : nat) (l : list A) :
  firstn (n + m) l = firstn n l ++ firstn m (skipn n l).
Proof.
  revert l. induction n as [|n IH]; intros l; [reflexivity|].
  destruct l as [|x l]; cbn [Nat.add firstn skipn app].
  - now rewrite firstn_nil.
  - now rewrite IH.
Qed.

Lemma skipn_add {A : Type} (n m : nat) (l : list A) :
  skipn (n + m) l = skipn m (skipn n l).
Proof.
  revert l. induction n as [|n IH]; intros l; [reflexivity|].
  destruct l as [|x l]; cbn [Nat.add skipn]; [now rewrite skipn_nil | apply IH].
Qed.

Lemma process_batches_flat (todo batch_index : nat) (d : deck)
    (varenumre : list string) :
  process_batches fetch mapping_df stock_df template_copy todo batch_index d
    varenumre =
  process_items fetch mapping_df stock_df template_copy d
    (firstn (todo * batch_size) (skipn (batch_index * batch_size) varenumre)).
Proof.
  revert batch_index d. induction todo as [|todo IH]; intros i d.
  - reflexivity.
  - cbn [process_batches].
    change (S todo * batch_size)%nat with (batch_size + todo * batch_size)%nat.
    rewrite firstn_add, process_items_app. unfold batch_of.
    destruct (process_items fetch mapping_df stock_df template_copy d _);
      cbn [bind]; [|reflexivity].
    rewrite IH. do 2 f_equal.
    change (S i * batch_size)%nat with (batch_size + i * batch_size)%nat.
    rewrite (Nat.add_comm batch_size). apply skipn_add.
Qed.

Lemma num_batches_cover (n : nat) : (n <= num_batches n * batch_size)%nat.
Proof.
  unfold num_batches, batch_size. cbn [Nat.sub].
  pose proof (Nat.div_mod_eq (n + 9) 10) as H.
  pose proof (Nat.mod_upper_bound (n + 9) 10) as B. lia.
Qed.

Lemma generate_flat (varenumre : list string) :
  generate fetch mapping_df stock_df template_copy varenumre =
  process_items fetch mapping_df stock_df template_copy
    {| slides := []; missing_items := [] |} varenumre.
Proof.
  unfold generate. rewrite process_batches_flat.
  cbn [Nat.mul skipn]. rewrite firstn_all2; [reflexivity|].
  apply num_batches_cover.
Qed.

End Batches.

Section MissingItems.

Variable fetch : string -> option bitmap.
Variable mapping_df : list row.
Variable stock_df : list stock_row.
Variable template_copy : slide.

Lemma compose_slide_missing (item_no : string) :
  find_mapping_row item_no mapping_df MAPPING_PRODUCT_CODE_KEY = None ->
  no_char backslash_char item_no ->
  compose_slide fetch mapping_df stock_df template_copy item_no
  = Some (missing_item_slide template_copy item_no).
Proof.
  intros Hf Hb. unfold compose_slide, duplicate_slide. rewrite Hf.
  rewrite (replace_text_placeholders_literal _ _
             (missing_item_texts_literal _ Hb)).
  cbn [bind]. apply replace_hyperlink_placeholders_none.
Qed.

Lemma process_item_missing (d : deck) (item_no : string) :
  find_mapping_row item_no mapping_df MAPPING_PRODUCT_CODE_KEY = None ->
  no_char backslash_char item_no ->
  process_item fetch mapping_df stock_df template_copy d item_no
  = Some {| slides := (slides d ++ [missing_item_slide template_copy item_no])%list;
            missing_items := (missing_items d ++ [item_no])%list |}.
Proof.
  intros Hf Hb. unfold process_item.
  rewrite (compose_slide_missing _ Hf Hb), Hf. reflexivity.
Qed.

Lemma process_items_all_missing (varenumre : list string) (d : deck) :
  (forall item_no, In item_no varenumre ->
     find_mapping_row item_no mapping_df MAPPING_PRODUCT_CODE_KEY = None
     /\ no_char backslash_char item_no) ->
  process_items fetch mapping_df stock_df template_copy d varenumre
  = Some {| slides := (slides d ++ map (missing_item_slide template_copy) varenumre)%list;
            missing_items := (missing_items d ++ varenumre)%list |}.
Proof.
  revert d. induction varenumre as [|i rest IH]; intros d H.
  - cbn. rewrite !app_nil_r. now destruct d.
  - cbn [process_items].
    destruct (H i (or_introl eq_refl)) as [Hf Hb].
    rewrite (process_item_missing d i Hf Hb). cbn [bind].
    rewrite IH by (intros j Hj; apply H; now right).
    cbn [slides missing_items map]. now rewrite <- !app_assoc.
Qed.

End MissingItems.




(** ** The image pass *)

Lemma first_token_first (paragraphs : list paragraph) (ph : string) :
  first_token paragraphs = Some ph ->
  exists before after,
    IMAGE_PLACEHOLDERS_ORIG = (before ++ ph :: after)%list
    /\ token_in paragraphs ph = true
    /\ forall q, In q before -> token_in paragraphs q = false.
Proof.
  unfold first_token. generalize IMAGE_PLACEHOLDERS_ORIG.
  intros phs. induction phs as [|q phs IH]; [discriminate|].
  cbn [find]. destruct (token_in paragraphs q) eqn:E.
  - intros H. inversion H; subst q. exists [], phs. simpl. tauto.
  - intros H. destruct (IH H) as [before [after [H1 [H2 H3]]]].
    exists (q :: before), after. rewrite H1. split; [reflexivity|].
    split; [exact H2|]. intros q' [<-|Hq]; [exact E | now apply H3].
Qed.

Lemma first_token_none (paragraphs : list paragraph) :
  first_token paragraphs = None ->
  forall q, In q IMAGE_PLACEHOLDERS_ORIG -> token_in paragraphs q = false.
Proof. intros H q Hq. exact (find_none _ _ H q Hq). Qed.

Lemma mapM_Forall2 {A B : Type} (f : A -> option B) (l : list A)
    (outs : list B) :
  mapM f l = Some outs -> Forall2 (fun a b => f a = Some b) l outs.
Proof.
  revert outs. induction l as [|a l IH]; intros outs; cbn [mapM].
  - intros H. inversion H. constructor.
  - destruct (f a) as [b|] eqn:E; cbn [bind]; [|discriminate].
    destruct (mapM f l) as [bs|]; cbn [bind]; [|discriminate].
    intros H. inversion H. constructor; [exact E | now apply IH].
Qed.

Section ImageFacts.
Local Open Scope list_scope.

Variable fetch : string -> option bitmap.

Lemma fetch_all_blank (phs : list string) (image_values : list (string * string))
    (ph : string) :
  Py.dict_get image_values ph "" = "" ->
  Py.dict_get (fetch_all fetch phs image_values) ph None = None.
Proof.
  intros Hb. induction phs as [|q phs IH]; [reflexivity|].
  cbn [fetch_all].
  destruct (Py.dict_get image_values q "" =? "")%string eqn:E;
    [exact IH|].
  cbn [Py.dict_get].
  destruct (String.eqb_spec q ph) as [->|_]; [|exact IH].
  rewrite Hb in E. discriminate E.
Qed.

Lemma fetch_all_get (phs : list string) (image_values : list (string * string))
    (ph : string) :
  In ph phs ->
  Py.dict_get (fetch_all fetch phs image_values) ph None
  = resolved fetch image_values ph.
Proof.
  unfold resolved. induction phs as [|q phs IH]; intros Hin; [destruct Hin|].
  cbn [fetch_all].
  destruct (String.eqb_spec q ph) as [->|Hne].
  - destruct (Py.dict_get image_values ph "" =? "")%string
      eqn:E.
    + apply fetch_all_blank. now apply String.eqb_eq.
    + cbn [Py.dict_get]. now rewrite String.eqb_refl.
  - assert (Hin' : In ph phs) by (destruct Hin; [congruence | assumption]).
    destruct (Py.dict_get image_values q "" =? "")%string;
      [now apply IH|].
    cbn [Py.dict_get].
    destruct (String.eqb_spec q ph); [congruence | now apply IH].
Qed.

Lemma scan_placeholders_find (phs : list string)
    (image_values : list (string * string))
    (results : list (string * option bitmap)) (l t w h : Z)
    (paragraphs : list paragraph) :
  (forall ph, In ph phs ->
     Py.dict_get results ph None
     = resolved fetch image_values ph) ->
  scan_placeholders phs image_values results l t w h paragraphs =
  match find (token_in paragraphs) phs with
  | None => Some (TextShape l t w h paragraphs, None)
  | Some ph =>
      insert_or_keep l t w h paragraphs (resolved fetch image_values ph)
  end.
Proof.
  induction phs as [|q phs IH]; intros H; [reflexivity|].
  cbn [scan_placeholders find]. fold (token_in paragraphs q).
  destruct (token_in paragraphs q).
  - rewrite (H q) by now left. unfold resolved.
    destruct (Py.dict_get image_values q "" =? "")%string;
      cbn [negb]; [reflexivity|].
    destruct (fetch _); reflexivity.
  - apply IH. intros ph Hph. apply H. now right.
Qed.

Lemma replace_image_in_shape_first_token
    (image_values : list (string * string)) (l t w h : Z)
    (paragraphs : list paragraph) :
  replace_image_in_shape image_values
    (fetch_all fetch IMAGE_PLACEHOLDERS_ORIG image_values)
    (TextShape l t w h paragraphs) =
  match first_token paragraphs with
  | None => Some (TextShape l t w h paragraphs, None)
  | Some ph =>
      insert_or_keep l t w h paragraphs (resolved fetch image_values ph)
  end.
Proof.
  cbn [replace_image_in_shape]. apply scan_placeholders_find.
  intros ph Hph. now apply fetch_all_get.
Qed.



End ImageFacts.

Lemma pass_outcomes (fetch : string -> option bitmap)
    (image_values : list (string * string)) (sl sl' : slide) :
  replace_image_placeholders_parallel fetch sl image_values = Some sl' ->
  exists outs : list outcome,
    sl' = (map fst outs ++ added_pictures outs)%list
    /\ Forall2
         (fun sh out =>
            replace_image_in_shape image_values
              (fetch_all fetch IMAGE_PLACEHOLDERS_ORIG image_values) sh
            = Some out)
         sl outs.
Proof.
  unfold replace_image_placeholders_parallel. cbv zeta.
  destruct (mapM _ sl) as [outs|] eqn:E; cbn [bind]; [|discriminate].
  intros H. inversion H. exists outs. split; [reflexivity|].
  now apply mapM_Forall2.
Qed.

Lemma unresolved_outcome (fetch : string -> option bitmap)
    (image_values : list (string * string)) (l t w h : Z)
    (paragraphs : list paragraph) (ph : string) :
  first_token paragraphs = Some ph ->
  resolved fetch image_values ph = None ->
  replace_image_in_shape image_values
    (fetch_all fetch IMAGE_PLACEHOLDERS_ORIG image_values)
    (TextShape l t w h paragraphs)
  = Some (TextShape l t w h paragraphs, None).
Proof.
  intros Hf Hr. rewrite replace_image_in_shape_first_token, Hf, Hr.
  reflexivity.
Qed.

Lemma added_pictures_none (sl : slide) :
  added_pictures (map (fun sh => (sh, @None shape)) sl) = [].
Proof. induction sl as [|sh sl IH]; [reflexivity | exact IH]. Qed.

(** C2, the claim as stated fails.  A shape whose text is the packshot
    token keeps that text when the fetch of its URL gave nothing, and when
    its URL is blank: the pass returns the slide as it was. *)
Lemma unresolved_image_keeps_placeholder_text :
  replace_image_placeholders_parallel fetch_nothing [packshot_shape]
    [("{{Product Packshot1}}", "p.jpg")] = Some [packshot_shape]
  /\ replace_image_placeholders_parallel fetch_named [packshot_shape]
       [("{{Product Packshot1}}", "")] = Some [packshot_shape]
  /\ packshot_shape <> TextShape 10 20 1000 1000 cleared_text
  /\ shape_text [[plain_run "{{Product Packshot1}}" 1]] <> "".
Proof. vm_compute. repeat split; discriminate. Qed.

(** C2, amended.  A text shape whose first image placeholder token found in
    its text, in declaration order, has no resolved bitmap (blank URL, or
    nothing fetched) is left as it is by the image pass, its placeholder
    text included, and gets no picture.  The slide after the pass is the
    shapes after their own step, followed by the pictures added; a slide
    in which no text shape has a resolved first token comes back
    unchanged. *)
Theorem unresolved_image_leaves_shape (fetch : string -> option bitmap)
    (image_values : list (string * string)) :
  (forall l t w h paragraphs ph,
     first_token paragraphs = Some ph ->
     resolved fetch image_values ph = None ->
     replace_image_in_shape image_values
       (fetch_all fetch IMAGE_PLACEHOLDERS_ORIG image_values)
       (TextShape l t w h paragraphs)
     = Some (TextShape l t w h paragraphs, None))
  /\ (forall sl sl',
        replace_image_placeholders_parallel fetch sl image_values = Some sl' ->
        exists outs : list outcome,
          sl' = (map fst outs ++ added_pictures outs)%list
          /\ Forall2
               (fun sh out =>
                  replace_image_in_shape image_values
                    (fetch_all fetch IMAGE_PLACEHOLDERS_ORIG image_values) sh
                  = Some out)
               sl outs)
  /\ (forall sl,
        (forall l t w h paragraphs ph,
           In (TextShape l t w h paragraphs) sl ->
           first_token paragraphs = Some ph ->
           resolved fetch image_values ph = None) ->
        replace_image_placeholders_parallel fetch sl image_values = Some sl).
Proof.
  split; [intros l t w h ps ph Hf Hr;
          exact (unresolved_outcome _ _ l t w h ps ph Hf Hr)|].
  split; [intros sl sl'; apply pass_outcomes|].
  intros sl H. unfold replace_image_placeholders_parallel. cbv zeta.
  rewrite (mapM_total _ (fun sh => (sh, @None shape)) sl).
  - cbn [bind]. rewrite added_pictures_none, map_map. cbn [fst].
    now rewrite map_id, app_nil_r.
  - intros sh Hin. destruct sh as [l t w h ps| |]; try reflexivity.
    rewrite replace_image_in_shape_first_token.
    destruct (first_token ps) as [ph|] eqn:E; [|reflexivity].
    now rewrite (H l t w h ps ph Hin E).
Qed.

Lemma unresolved_image_leaves_shape_witness :
  replace_image_in_shape [("{{Product Packshot1}}", "p.jpg")]
    (fetch_all fetch_nothing IMAGE_PLACEHOLDERS_ORIG
       [("{{Product Packshot1}}", "p.jpg")])
    packshot_shape
  = Some (packshot_shape, None).
Proof.
  apply (proj1 (unresolved_image_leaves_shape fetch_nothing
                  [("{{Product Packshot1}}", "p.jpg")])
           10%Z 20%Z 1000%Z 1000%Z
           [[plain_run "{{Product Packshot1}}" 1]] "{{Product Packshot1}}").
  - reflexivity.
  - reflexivity.
Defined.



(** ** Binary64 arithmetic on sizes *)

Section FloatFacts.
Local Open Scope Z_scope.

Lemma digits2_pos_bounds (p : positive) :
  2 ^ (Zpos (digits2_pos p) - 1) <= Zpos p < 2 ^ Zpos (digits2_pos p).
Proof.
  induction p as [p IH|p IH|]; cbn [digits2_pos].
  - rewrite Pos2Z.inj_succ.
    replace (Z.succ (Zpos (digits2_pos p)) - 1) with (Z.succ (Zpos (digits2_pos p) - 1)) by lia.
    rewrite !Z.pow_succ_r by lia. lia.
  - rewrite Pos2Z.inj_succ.
    replace (Z.succ (Zpos (digits2_pos p)) - 1) with (Z.succ (Zpos (digits2_pos p) - 1)) by lia.
    rewrite !Z.pow_succ_r by lia. lia.
  - simpl. lia.
Qed.

Lemma digits2_unique (p : positive) (k : Z) :
  2 ^ (k - 1) <= Zpos p < 2 ^ k -> Zpos (digits2_pos p) = k.
Proof.
  intros [H1 H2]. pose proof (digits2_pos_bounds p) as [B1 B2].
  assert (0 < k).
  { destruct (Z_lt_le_dec 0 k); [assumption|].
    assert (2 ^ k <= 1).
    { destruct (Z.eq_dec k 0) as [->|]; [simpl; lia|].
      rewrite Z.pow_neg_r by lia. lia. }
    lia. }
  destruct (Z_lt_le_dec (Zpos (digits2_pos p)) k) as [L|L].
  - assert (2 ^ Zpos (digits2_pos p) <= 2 ^ (k - 1))
      by (apply Z.pow_le_mono_r; lia). lia.
  - destruct (Z_lt_le_dec k (Zpos (digits2_pos p))) as [G|G]; [|lia].
    assert (2 ^ k <= 2 ^ (Zpos (digits2_pos p) - 1))
      by (apply Z.pow_le_mono_r; lia). lia.
Qed.

Lemma shr_1_m (mrs : shr_record) :
  0 <= shr_m mrs -> shr_m (shr_1 mrs) = shr_m mrs / 2.
Proof.
  destruct mrs as [m r s]. cbn [shr_m]. intros H.
  destruct m as [|[p|p|]|p]; cbn [shr_1 shr_m];
    Z.div_mod_to_equations; lia.
Qed.

Lemma iter_pos_shr_1 (p : positive) : forall mrs,
  0 <= shr_m mrs ->
  shr_m (iter_pos shr_1 p mrs) = shr_m mrs / 2 ^ Zpos p.
Proof.
  induction p as [p IH|p IH|]; intros mrs H; cbn [iter_pos].
  - assert (H1 : 0 <= shr_m (shr_1 mrs)).
    { rewrite shr_1_m by assumption. apply Z.div_pos; lia. }
    assert (H2 : 0 <= shr_m (iter_pos shr_1 p (shr_1 mrs))).
    { rewrite IH by assumption. apply Z.div_pos; [lia|]. apply Z.pow_pos_nonneg; lia. }
    rewrite IH by assumption. rewrite IH by assumption. rewrite shr_1_m by assumption.
    assert (P : 0 < 2 ^ Zpos p) by (apply Z.pow_pos_nonneg; lia).
    assert (E : 2 ^ Zpos p~1 = 2 * (2 ^ Zpos p * 2 ^ Zpos p)).
    { rewrite <- Z.pow_add_r by lia.
      change 2 with (2 ^ 1) at 2. rewrite <- Z.pow_add_r by lia.
      f_equal. lia. }
    rewrite E, !Z.div_div by lia. reflexivity.
  - assert (H2 : 0 <= shr_m (iter_pos shr_1 p mrs)).
    { rewrite IH by assumption. apply Z.div_pos; [lia|]. apply Z.pow_pos_nonneg; lia. }
    rewrite IH by assumption. rewrite IH by assumption.
    assert (P : 0 < 2 ^ Zpos p) by (apply Z.pow_pos_nonneg; lia).
    assert (E : 2 ^ Zpos p~0 = 2 ^ Zpos p * 2 ^ Zpos p).
    { rewrite <- Z.pow_add_r by lia. f_equal. lia. }
    rewrite E, !Z.div_div by lia. reflexivity.
  - rewrite shr_1_m by assumption. reflexivity.
Qed.

Lemma shr_spec (mrs : shr_record) (e n : Z) :
  0 <= shr_m mrs -> 0 <= n ->
  shr_m (fst (shr mrs e n)) = shr_m mrs / 2 ^ n /\ snd (shr mrs e n) = e + n.
Proof.
  intros Hm Hn. destruct n as [|p|p]; cbn [shr fst snd].
  - rewrite Z.pow_0_r, Z.div_1_r. lia.
  - split; [now apply iter_pos_shr_1 | reflexivity].
  - lia.
Qed.

Lemma fexp_normal (e : Z) : -1074 <= e - 53 -> fexp 53 1024 e = e - 53.
Proof. unfold fexp, emin. lia. Qed.

Lemma round_nearest_even_bounds (m : Z) (l : location) :
  m <= round_nearest_even m l <= m + 1.
Proof.
  destruct l as [|[]]; cbn [round_nearest_even]; try lia.
  destruct (Z.even m); lia.
Qed.

Lemma shr_record_of_loc_m (m : Z) (l : location) :
  shr_m (shr_record_of_loc m l) = m.
Proof. destruct l as [|[]]; reflexivity. Qed.

Lemma shr_fexp_spec (p : positive) (e : Z) (l : location) :
  let d := Zpos (digits2_pos p) in
  53 <= d -> -1074 <= d + e - 53 ->
  shr_m (fst (shr_fexp 53 1024 (Zpos p) e l)) = Zpos p / 2 ^ (d - 53)
  /\ snd (shr_fexp 53 1024 (Zpos p) e l) = e + (d - 53).
Proof.
  intros d Hd He. unfold shr_fexp. cbn [Zdigits2]. fold d.
  rewrite fexp_normal by lia.
  replace (d + e - 53 - e) with (d - 53) by lia.
  destruct (shr_spec (shr_record_of_loc (Zpos p) l) e (d - 53)) as [H1 H2].
  - rewrite shr_record_of_loc_m. lia.
  - lia.
  - rewrite H1, H2, shr_record_of_loc_m. auto.
Qed.

Lemma shifted_mantissa_bounds (p : positive) :
  let d := Zpos (digits2_pos p) in
  53 <= d ->
  2 ^ 52 <= Zpos p / 2 ^ (d - 53) < 2 ^ 53.
Proof.
  intros d Hd. pose proof (digits2_pos_bounds p) as [B1 B2]. fold d in B1, B2.
  assert (P : 0 < 2 ^ (d - 53)) by (apply Z.pow_pos_nonneg; lia).
  assert (E1 : 2 ^ (d - 1) = 2 ^ (d - 53) * 2 ^ 52).
  { rewrite <- Z.pow_add_r by lia. f_equal. lia. }
  assert (E2 : 2 ^ d = 2 ^ (d - 53) * 2 ^ 53).
  { rewrite <- Z.pow_add_r by lia. f_equal. lia. }
  split.
  - apply Z.div_le_lower_bound; lia.
  - apply Z.div_lt_upper_bound; lia.
Qed.

Lemma binary_round_aux_normal (p : positive) (ex : Z) (lx : location) :
  let d := Zpos (digits2_pos p) in
  53 <= d -> -1074 <= d + ex - 53 -> d + ex <= 1023 ->
  exists m e,
    binary_round_aux 53 1024 false (Zpos p) ex lx = S754_finite false m e
    /\ 2 ^ 52 <= Zpos m < 2 ^ 53
    /\ ((e = ex + (d - 53) /\ Zpos p / 2 ^ (d - 53) <= Zpos m)
        \/ (e = ex + (d - 53) + 1 /\ Zpos m = 2 ^ 52)).
Proof.
  intros d Hd Hlo Hhi. unfold binary_round_aux.
  destruct (shr_fexp_spec p ex lx Hd Hlo) as [Hm He]. fold d in Hm, He.
  destruct (shr_fexp 53 1024 (Zpos p) ex lx) as [mrs' e'].
  cbn [fst snd] in Hm, He.
  pose proof (shifted_mantissa_bounds p Hd) as Hb. fold d in Hb.
  rewrite <- Hm in Hb.
  pose proof (round_nearest_even_bounds (shr_m mrs') (loc_of_shr_record mrs'))
    as Hr.
  set (m2 := round_nearest_even (shr_m mrs') (loc_of_shr_record mrs')) in *.
  assert (Hpos : 0 < m2) by (change (2 ^ 52) with 4503599627370496 in Hb; lia).
  destruct m2 as [|q|q] eqn:Eq; try lia.
  destruct (Z_lt_le_dec (Zpos q) (2 ^ 53)) as [Hlt|Hge].
  - assert (Hdq : Zpos (digits2_pos q) = 53).
    { apply digits2_unique. change (53 - 1) with 52. lia. }
    unfold shr_fexp. cbn [Zdigits2]. rewrite Hdq.
    rewrite fexp_normal by lia.
    replace (53 + e' - 53 - e') with 0 by lia. cbn [shr shr_record_of_loc shr_m].
    replace (e' <=? 1024 - 53) with true by (symmetry; apply Z.leb_le; lia).
    exists q, e'. split; [reflexivity|]. split; [lia|]. left. split; lia.
  - assert (Eq53 : Zpos q = 2 ^ 53) by lia.
    assert (Hdq : Zpos (digits2_pos q) = 54).
    { apply digits2_unique. rewrite Eq53. change (54 - 1) with 53.
      change (2 ^ 53) with 9007199254740992.
      change (2 ^ 54) with 18014398509481984. lia. }
    unfold shr_fexp. cbn [Zdigits2]. rewrite Hdq.
    rewrite fexp_normal by lia.
    replace (54 + e' - 53 - e') with 1 by lia.
    cbn [shr iter_pos shr_record_of_loc].
    assert (Hs : shr_m (shr_1 {| shr_m := Zpos q; shr_r := false; shr_s := false |})
                 = 2 ^ 52).
    { rewrite shr_1_m by (cbn; lia). cbn [shr_m]. rewrite Eq53. reflexivity. }
    destruct (shr_m (shr_1 {| shr_m := Zpos q; shr_r := false; shr_s := false |}))
      as [|m|m] eqn:Em; try (change (2 ^ 52) with 4503599627370496 in Hs; lia).
    replace (e' + 1 <=? 1024 - 53) with true by (symmetry; apply Z.leb_le; lia).
    exists m, (e' + 1). split; [reflexivity|].
    split; [rewrite Hs; change (2 ^ 52) with 4503599627370496;
            change (2 ^ 53) with 9007199254740992; lia|].
    right. split; [lia | exact Hs].
Qed.

Lemma binary_round_aux_exact (p : positive) (e : Z) :
  Zpos (digits2_pos p) = 53 -> -1074 <= e <= 971 ->
  binary_round_aux 53 1024 false (Zpos p) e loc_Exact = S754_finite false p e.
Proof.
  intros Hd He. unfold binary_round_aux, shr_fexp. cbn [Zdigits2].
  rewrite Hd, fexp_normal by lia.
  replace (53 + e - 53 - e) with 0 by lia.
  cbn [shr shr_record_of_loc loc_of_shr_record round_nearest_even shr_m
       Zdigits2].
  rewrite Hd, fexp_normal by lia.
  replace (53 + e - 53 - e) with 0 by lia.
  cbn [shr shr_record_of_loc shr_m].
  replace (e <=? 1024 - 53) with true by (symmetry; apply Z.leb_le; lia).
  reflexivity.
Qed.

Lemma iter_xO (p k : positive) :
  Zpos (Pos.iter xO p k) = Zpos p * 2 ^ Zpos k.
Proof.
  induction k as [|k IH] using Pos.peano_ind.
  - cbn [Pos.iter]. lia.
  - rewrite Pos.iter_succ, Pos2Z.inj_xO, IH, Pos2Z.inj_succ.
    rewrite Z.pow_succ_r by lia. lia.
Qed.

Lemma of_int_spec (z : Z) :
  1 <= z < 2 ^ 53 ->
  exists m e, Float64.normal (Float64.of_int z) m e /\ -52 <= e <= 0 /\ Zpos m = z * 2 ^ (- e).
Proof.
  intros Hz. destruct z as [|p|p]; try lia.
  unfold Float64.of_int, Float64.prec, Float64.emax, binary_normalize,
    binary_round.
  pose proof (digits2_pos_bounds p) as [B1 B2].
  set (d := Zpos (digits2_pos p)) in *.
  assert (Hd : 1 <= d <= 53).
  { split; [unfold d; lia|].
    destruct (Z_lt_le_dec 53 d) as [L|L]; [|lia].
    assert (2 ^ 53 <= 2 ^ (d - 1)) by (apply Z.pow_le_mono_r; lia). lia. }
  rewrite Z.add_0_r, fexp_normal by lia.
  unfold shl_align. replace (d - 53 - 0) with (d - 53) by lia.
  destruct (d - 53) as [|k|k] eqn:Ek; try lia.
  - assert (d = 53) by lia.
    rewrite binary_round_aux_exact by (fold d; lia).
    exists p, 0. unfold Float64.normal. split; [split; [reflexivity|]|].
    + split; [|lia]. replace 52 with (d - 1) by lia. exact B1.
    + split; [lia|]. simpl. lia.
  - assert (Hk : Zpos k = 53 - d) by lia.
    assert (Hm : Zpos (Pos.iter xO p k) = Zpos p * 2 ^ Zpos k) by apply iter_xO.
    assert (P : 0 < 2 ^ Zpos k) by (apply Z.pow_pos_nonneg; lia).
    assert (E1 : 2 ^ 52 = 2 ^ (d - 1) * 2 ^ Zpos k).
    { rewrite <- Z.pow_add_r by lia. f_equal. lia. }
    assert (E2 : 2 ^ 53 = 2 ^ d * 2 ^ Zpos k).
    { rewrite <- Z.pow_add_r by lia. f_equal. lia. }
    assert (Hb : 2 ^ 52 <= Zpos (Pos.iter xO p k) < 2 ^ 53).
    { rewrite Hm, E1, E2. split.
      - apply Z.mul_le_mono_nonneg_r; lia.
      - apply Z.mul_lt_mono_pos_r; lia. }
    rewrite binary_round_aux_exact.
    + exists (Pos.iter xO p k), (Zneg k). unfold Float64.normal.
      split; [split; [reflexivity | exact Hb]|].
      split; [lia|]. rewrite Hm. reflexivity.
    + apply digits2_unique. change (53 - 1) with 52. exact Hb.
    + lia.
Qed.

Lemma normal_digits (x : spec_float) (m : positive) (e : Z) :
  Float64.normal x m e -> Zpos (digits2_pos m) = 53.
Proof. intros [_ H]. apply digits2_unique. exact H. Qed.

Lemma of_int_order (k a b : Z) (ma mb : positive) (ea eb : Z) :
  0 <= k -> 1 <= b -> 2 ^ k * b <= a ->
  2 ^ 52 <= Zpos ma < 2 ^ 53 -> 2 ^ 52 <= Zpos mb < 2 ^ 53 ->
  -52 <= ea <= 0 -> -52 <= eb <= 0 ->
  Zpos ma = a * 2 ^ (- ea) -> Zpos mb = b * 2 ^ (- eb) ->
  eb + k < ea \/ (ea = eb + k /\ Zpos mb <= Zpos ma).
Proof.
  intros Hk Hb Hab Ba Bb Ea Eb Ha Hbm.
  assert (Pk : 0 < 2 ^ k) by (apply Z.pow_pos_nonneg; lia).
  assert (Pa : 0 < 2 ^ (- ea)) by (apply Z.pow_pos_nonneg; lia).
  assert (Pb : 0 < 2 ^ (- eb)) by (apply Z.pow_pos_nonneg; lia).
  assert (Hmul : 2 ^ k * b * 2 ^ (- ea) <= a * 2 ^ (- ea))
    by (apply Z.mul_le_mono_nonneg_r; lia).
  destruct (Z_lt_le_dec (eb + k) ea) as [L|L]; [now left|]. right.
  destruct (Z.eq_dec ea (eb + k)) as [E|Hne].
  - split; [exact E|]. rewrite Ha, Hbm.
    assert (E2 : 2 ^ (- eb) = 2 ^ k * 2 ^ (- ea)).
    { rewrite <- Z.pow_add_r by lia. f_equal. lia. }
    rewrite E2. lia.
  - exfalso. set (t := eb + k - ea). assert (Ht : 1 <= t) by (unfold t; lia).
    assert (E2 : 2 ^ k * 2 ^ (- ea) = 2 ^ (- eb) * 2 ^ t).
    { rewrite <- !Z.pow_add_r by lia. f_equal. unfold t. lia. }
    assert (Q : 2 <= 2 ^ t).
    { change 2 with (2 ^ 1) at 1. apply Z.pow_le_mono_r; lia. }
    change (2 ^ 53) with (2 * 2 ^ 52) in Ba.
    assert (E3 : 2 ^ k * b * 2 ^ (- ea) = b * 2 ^ (- eb) * 2 ^ t).
    { rewrite <- Z.mul_assoc, (Z.mul_comm b), Z.mul_assoc, E2. lia. }
    assert (b * 2 ^ (- eb) * 2 <= b * 2 ^ (- eb) * 2 ^ t)
      by (apply Z.mul_le_mono_nonneg_l; lia).
    lia.
Qed.

Lemma div_ge_pow (k a b : Z) :
  0 <= k -> 1 <= b -> 2 ^ k * b <= a -> a < 2 ^ 53 ->
  exists m e,
    Float64.normal (SFdiv 53 1024 (Float64.of_int a) (Float64.of_int b)) m e /\ k - 52 <= e <= 1.
Proof.
  intros Hk Hb Hab Ha.
  assert (Pk : 1 <= 2 ^ k) by (apply (Z.pow_le_mono_r 2 0 k); lia).
  assert (Hba : b <= a) by nia.
  destruct (of_int_spec a) as [ma [ea [[Ea Ba] [Ra Va]]]]; [lia|].
  destruct (of_int_spec b) as [mb [eb [[Eb Bb] [Rb Vb]]]]; [lia|].
  pose proof (of_int_order k a b ma mb ea eb Hk Hb Hab Ba Bb Ra Rb Va Vb)
    as Hord.
  rewrite Ea, Eb. unfold SFdiv, SFdiv_core_binary. cbn [Zdigits2 xorb].
  rewrite (digits2_unique ma 53), (digits2_unique mb 53)
    by (change (53 - 1) with 52; assumption).
  replace (53 + ea - (53 + eb)) with (ea - eb) by lia.
  rewrite fexp_normal by lia.
  replace (Z.min (ea - eb - 53) (ea - eb)) with (ea - eb - 53) by lia.
  replace (ea - eb - (ea - eb - 53)) with 53 by lia.
  rewrite Z.shiftl_mul_pow2 by lia.
  destruct (Z.div_eucl (Zpos ma * 2 ^ 53) (Zpos mb)) as [q r] eqn:Ediv.
  assert (Hq : q = Zpos ma * 2 ^ 53 / Zpos mb)
    by (unfold Z.div; now rewrite Ediv).
  change (2 ^ 52) with 4503599627370496 in Ba, Bb, Hq |- *.
  change (2 ^ 53) with 9007199254740992 in Ba, Bb, Hq |- *.
  assert (Hq1 : 4503599627370496 <= q).
  { rewrite Hq. apply Z.div_le_lower_bound; lia. }
  assert (Hq2 : q < 18014398509481984).
  { rewrite Hq. apply Z.div_lt_upper_bound; lia. }
  destruct q as [|pq|pq]; try lia.
  assert (Hd : Zpos (digits2_pos pq) = 53 \/ Zpos (digits2_pos pq) = 54).
  { destruct (Z_lt_le_dec (Zpos pq) 9007199254740992).
    - left. apply digits2_unique. change (2 ^ (53 - 1)) with 4503599627370496.
      change (2 ^ 53) with 9007199254740992. lia.
    - right. apply digits2_unique. change (2 ^ (54 - 1)) with 9007199254740992.
      change (2 ^ 54) with 18014398509481984. lia. }
  assert (Hd54 : Zpos mb <= Zpos ma -> Zpos (digits2_pos pq) = 54).
  { intros Hm.
    apply digits2_unique. change (2 ^ (54 - 1)) with 9007199254740992.
    change (2 ^ 54) with 18014398509481984. split; [|lia].
    rewrite Hq. apply Z.div_le_lower_bound; lia. }
  destruct (binary_round_aux_normal pq (ea - eb - 53) (new_location (Zpos mb) r))
    as [m [e [Hres [Hbm He]]]]; try lia.
  exists m, e. split; [split; [exact Hres | exact Hbm]|].
  destruct Hord as [L|[E Hm]].
  - lia.
  - specialize (Hd54 Hm). lia.
Qed.

Lemma trunc_value_ge_pow (m : positive) (e : Z) :
  2 ^ 52 <= Zpos m -> -52 <= e -> 2 ^ (52 + e) <= Float64.trunc_value m e.
Proof.
  intros Hm He. unfold Float64.trunc_value.
  destruct (Z.leb_spec 0 e) as [L|L].
  - rewrite Z.pow_add_r by lia. apply Z.mul_le_mono_nonneg_r; [|exact Hm].
    apply Z.pow_nonneg. lia.
  - assert (P : 0 < 2 ^ (- e)) by (apply Z.pow_pos_nonneg; lia).
    apply Z.div_le_lower_bound; [exact P|].
    rewrite <- Z.pow_add_r by lia. replace (- e + (52 + e)) with 52 by lia.
    exact Hm.
Qed.

Lemma trunc_value_ge_int (k z : Z) (mz m : positive) (ez : Z) :
  0 <= k -> -52 <= ez <= 0 -> Zpos mz = z * 2 ^ (- ez) ->
  Zpos mz <= Zpos m ->
  2 ^ k * z <= Float64.trunc_value m (ez + k).
Proof.
  intros Hk He Hz Hm. unfold Float64.trunc_value.
  destruct (Z.leb_spec 0 (ez + k)) as [L|L].
  - assert (E : 2 ^ k = 2 ^ (- ez) * 2 ^ (ez + k)).
    { rewrite <- Z.pow_add_r by lia. f_equal. lia. }
    assert (H1 : 2 ^ k * z = Zpos mz * 2 ^ (ez + k)) by (rewrite E, Hz; ring).
    rewrite H1. apply Z.mul_le_mono_nonneg_r; [|exact Hm].
    apply Z.pow_nonneg. lia.
  - assert (P : 0 < 2 ^ (- (ez + k))) by (apply Z.pow_pos_nonneg; lia).
    apply Z.div_le_lower_bound; [exact P|].
    assert (E : 2 ^ (- ez) = 2 ^ (- (ez + k)) * 2 ^ k).
    { rewrite <- Z.pow_add_r by lia. f_equal. lia. }
    assert (H1 : 2 ^ (- (ez + k)) * (2 ^ k * z) = Zpos mz)
      by (rewrite Hz, E; ring).
    rewrite H1. exact Hm.
Qed.

Lemma mul_to_int_ge (k z : Z) (s : spec_float) (ms : positive) (es : Z) :
  0 <= k -> 1 <= z < 2 ^ 53 -> Float64.normal s ms es -> k - 52 <= es <= 1 ->
  exists v, Float64.to_int (SFmul 53 1024 (Float64.of_int z) s) = Some v /\ 2 ^ k * z <= v.
Proof.
  intros Hk Hz [Es Bs] Res.
  destruct (of_int_spec z Hz) as [mz [ez [[Ez Bz] [Rz Vz]]]].
  rewrite Ez, Es. unfold SFmul. cbn [xorb].
  set (p := (mz * ms)%positive).
  assert (Hp : Zpos p = Zpos mz * Zpos ms) by (unfold p; lia).
  assert (Hlo : 2 ^ 104 <= Zpos p).
  { rewrite Hp. change (2 ^ 104) with (2 ^ 52 * 2 ^ 52).
    apply Z.mul_le_mono_nonneg; lia. }
  assert (Hhi : Zpos p < 2 ^ 106).
  { rewrite Hp. change (2 ^ 106) with (2 ^ 53 * 2 ^ 53).
    apply Z.mul_lt_mono_nonneg; lia. }
  assert (Hd : (Zpos (digits2_pos p) = 105 /\ Zpos p < 2 ^ 105)
               \/ Zpos (digits2_pos p) = 106).
  { destruct (Z_lt_le_dec (Zpos p) (2 ^ 105)).
    - left. split; [|assumption]. apply digits2_unique.
      change (105 - 1) with 104. lia.
    - right. apply digits2_unique. change (106 - 1) with 105. lia. }
  destruct (binary_round_aux_normal p (ez + es) loc_Exact)
    as [m [e [Hres [Hbm He]]]]; try lia.
  rewrite Hres. cbn [Float64.to_int cond_Zopp].
  eexists. split; [reflexivity|].
  assert (Hzlt : 2 ^ k * z < 2 ^ (53 + ez + k)).
  { assert (P : 0 < 2 ^ (- ez)) by (apply Z.pow_pos_nonneg; lia).
    assert (Pk : 0 < 2 ^ k) by (apply Z.pow_pos_nonneg; lia).
    assert (E : 2 ^ 53 = 2 ^ (53 + ez) * 2 ^ (- ez)).
    { rewrite <- Z.pow_add_r by lia. f_equal. lia. }
    assert (z < 2 ^ (53 + ez)).
    { apply (Z.mul_lt_mono_pos_r (2 ^ (- ez))); [exact P|].
      rewrite <- Vz, <- E. lia. }
    rewrite (Z.pow_add_r 2 (53 + ez) k) by lia.
    rewrite Z.mul_comm. apply Z.mul_lt_mono_pos_r; lia. }
  assert (Hbig : ez + k + 1 <= e -> 2 ^ k * z <= Float64.trunc_value m e).
  { intros L.
    pose proof (trunc_value_ge_pow m e (proj1 Hbm)) as Hv.
    assert (2 ^ (53 + ez + k) <= 2 ^ (52 + e)) by (apply Z.pow_le_mono_r; lia).
    lia. }
  destruct He as [[He Hm]|[He Hm]]; [|apply Hbig; lia].
  destruct (Z_lt_le_dec (ez + k) e) as [L|L]; [apply Hbig; lia|].
  assert (Hes : es = k - 52) by lia.
  assert (Hd105 : Zpos (digits2_pos p) = 105) by lia.
  assert (Ee : e = ez + k) by lia. rewrite Ee.
  apply (trunc_value_ge_int k z mz m ez Hk Rz Vz).
  rewrite Hd105 in Hm. change (105 - 53) with 52 in Hm.
  assert (Zpos mz <= Zpos p / 2 ^ 52); [|lia].
  apply Z.div_le_lower_bound; [reflexivity|]. rewrite Hp.
  rewrite Z.mul_comm. apply Z.mul_le_mono_nonneg_l; lia.
Qed.

Lemma exact_int_true (z : Z) :
  0 <= z < 2 ^ 53 -> Float64.exact_int z = true.
Proof. intros H. unfold Float64.exact_int. apply Z.ltb_lt. lia. Qed.

Lemma min_cases (x y : Float64.float) :
  Float64.min x y = x \/ Float64.min x y = y.
Proof. unfold Float64.min. destruct (SFltb y x); auto. Qed.

(** A shape at least 2^k times the bitmap in both dimensions gets a picture
    at least 2^k times the bitmap in both dimensions. *)
Lemma scaled_size_ge_pow (k : Z) (img : bitmap) (target_width target_height : Z) :
  0 <= k ->
  2 ^ k * Zpos (original_width img) <= target_width < 2 ^ 53 ->
  2 ^ k * Zpos (original_height img) <= target_height < 2 ^ 53 ->
  exists new_width new_height,
    scaled_size img target_width target_height = Some (new_width, new_height)
    /\ 2 ^ k * Zpos (original_width img) <= new_width
    /\ 2 ^ k * Zpos (original_height img) <= new_height.
Proof.
  intros Hk [Hw1 Hw2] [Hh1 Hh2].
  set (ow := Zpos (original_width img)) in *.
  set (oh := Zpos (original_height img)) in *.
  assert (Pk : 1 <= 2 ^ k) by (apply (Z.pow_le_mono_r 2 0 k); lia).
  assert (How : 1 <= ow < 2 ^ 53) by (unfold ow; split; [lia | nia]).
  assert (Hoh : 1 <= oh < 2 ^ 53) by (unfold oh; split; [lia | nia]).
  destruct (div_ge_pow k target_width ow Hk (proj1 How) Hw1 Hw2)
    as [ma [ea [Na Ra]]].
  destruct (div_ge_pow k target_height oh Hk (proj1 Hoh) Hh1 Hh2)
    as [mb [eb [Nb Rb]]].
  unfold scaled_size. fold ow oh. unfold Float64.true_div, Float64.mul_int.
  rewrite !exact_int_true by lia.
  replace (ow =? 0) with false by (symmetry; apply Z.eqb_neq; lia).
  replace (oh =? 0) with false by (symmetry; apply Z.eqb_neq; lia).
  cbn [andb negb bind]. unfold Float64.prec, Float64.emax.
  set (a := SFdiv 53 1024 (Float64.of_int target_width) (Float64.of_int ow))
    in *.
  set (b := SFdiv 53 1024 (Float64.of_int target_height) (Float64.of_int oh))
    in *.
  assert (Hs : exists ms es, Float64.normal (Float64.min a b) ms es
                             /\ k - 52 <= es <= 1).
  { destruct (min_cases a b) as [-> | ->]; eauto. }
  destruct Hs as [ms [es [Ns Rs]]].
  destruct (mul_to_int_ge k ow _ ms es Hk How Ns Rs) as [v1 [E1 L1]].
  destruct (mul_to_int_ge k oh _ ms es Hk Hoh Ns Rs) as [v2 [E2 L2]].
  rewrite E1, E2. cbn [bind]. exists v1, v2. auto.
Qed.

End FloatFacts.

(** ** The size of an inserted picture *)

(** C10, the claim as stated fails.  For a 47 x 47 bitmap in a 48 x 48
    shape the quotient 48/47 is rounded to the float 1.0212765957446808,
    47 times that float is rounded to 47.99999999999999, and [int] cuts it
    to 47: the shape is larger than the bitmap in both dimensions and the
    picture is not.  For a 2 x 1000 bitmap in a 10 x 1001 shape the scale is
    the float 1.001, the products are 2.002 and 1000.9999999999999, and the
    picture is 2 x 1000 again. *)
Lemma rounding_cancels_the_upscale :
  scaled_size (sample_bitmap 47 47) 48 48 = Some (47, 47)%Z
  /\ scaled_size (sample_bitmap 2 1000) 10 1001 = Some (2, 1000)%Z.
Proof. vm_compute. split; reflexivity. Qed.

(** C10, amended.  The scale factor is not capped at 1.  For sizes below
    2^53, a shape at least as large as the bitmap in both dimensions yields
    a picture at least as large as the bitmap in both dimensions, and that
    picture is what the pass inserts at the position of the shape; a shape
    at least 2^k times the bitmap yields a picture at least 2^k times the
    bitmap, so from twice the bitmap on the picture is larger than the
    bitmap in both dimensions: composition upscales.  A 100 x 50 bitmap in a
    1000 x 1000 shape becomes a 1000 x 500 picture. *)
Theorem picture_size_is_not_capped (img : bitmap)
    (target_width target_height : Z) :
  ((Zpos (original_width img) <= target_width < 2 ^ 53)%Z ->
   (Zpos (original_height img) <= target_height < 2 ^ 53)%Z ->
   exists new_width new_height,
     scaled_size img target_width target_height = Some (new_width, new_height)
     /\ (Zpos (original_width img) <= new_width)%Z
     /\ (Zpos (original_height img) <= new_height)%Z
     /\ forall l t paragraphs,
          insert_or_keep l t target_width target_height paragraphs (Some img)
          = Some (TextShape l t target_width target_height cleared_text,
                  Some (PictureShape l t new_width new_height img)))
  /\ (forall k : Z,
        (0 <= k)%Z ->
        (2 ^ k * Zpos (original_width img) <= target_width < 2 ^ 53)%Z ->
        (2 ^ k * Zpos (original_height img) <= target_height < 2 ^ 53)%Z ->
        exists new_width new_height,
          scaled_size img target_width target_height
          = Some (new_width, new_height)
          /\ (2 ^ k * Zpos (original_width img) <= new_width)%Z
          /\ (2 ^ k * Zpos (original_height img) <= new_height)%Z)
  /\ ((2 * Zpos (original_width img) <= target_width < 2 ^ 53)%Z ->
      (2 * Zpos (original_height img) <= target_height < 2 ^ 53)%Z ->
      exists new_width new_height,
        scaled_size img target_width target_height
        = Some (new_width, new_height)
        /\ (Zpos (original_width img) < new_width)%Z
        /\ (Zpos (original_height img) < new_height)%Z)
  /\ scaled_size (sample_bitmap 100 50) 1000 1000 = Some (1000, 500)%Z.
Proof.
  split; [|split; [|split]].
  - intros Hw Hh.
    destruct (scaled_size_ge_pow 0 img target_width target_height)
      as [nw [nh [E [L1 L2]]]]; try lia.
    exists nw, nh. split; [exact E|]. split; [lia|]. split; [lia|].
    intros l t ps. cbn [insert_or_keep]. rewrite E. reflexivity.
  - intros k. apply scaled_size_ge_pow.
  - intros Hw Hh.
    destruct (scaled_size_ge_pow 1 img target_width target_height)
      as [nw [nh [E [L1 L2]]]]; try lia.
    exists nw, nh. split; [exact E|]. lia.
  - vm_compute. reflexivity.
Qed.

Lemma picture_size_is_not_capped_witness :
  exists new_width new_height,
    scaled_size (sample_bitmap 1200 800) 9144000 6858000
    = Some (new_width, new_height)
    /\ (1200 < new_width)%Z /\ (800 < new_height)%Z.
Proof.
  apply (proj1 (proj2 (proj2 (picture_size_is_not_capped
                                (sample_bitmap 1200 800) 9144000 6858000))));
    simpl; lia.
Defined.

(** ** Further properties of [normalize_text] *)

Lemma replace_char_app (o n : ascii) (a b : string) :
  Py.replace_char o n (a ++ b) = Py.replace_char o n a ++ Py.replace_char o n b.
Proof. induction a as [|c a IH]; simpl; [reflexivity | now rewrite IH]. Qed.

Lemma remove_whitespace_app (a b : string) :
  Py.remove_whitespace (a ++ b)
  = Py.remove_whitespace a ++ Py.remove_whitespace b.
Proof.
  induction a as [|c a IH]; simpl; [reflexivity|].
  destruct (Py.is_space c); simpl; now rewrite IH.
Qed.

Lemma lower_app (a b : string) : Py.lower (a ++ b) = Py.lower a ++ Py.lower b.
Proof. induction a as [|c a IH]; simpl; [reflexivity | now rewrite IH]. Qed.

Lemma normalize_text_app (a b : string) :
  normalize_text (a ++ b) = normalize_text a ++ normalize_text b.
Proof.
  unfold normalize_text.
  now rewrite replace_char_app, remove_whitespace_app, lower_app.
Qed.

Lemma is_space_replace_nbsp (c : ascii) :
  Py.is_space (if Ascii.eqb c Py.nbsp then Py.space else c) = Py.is_space c.
Proof. by_cases_on_char c. Qed.

Lemma replace_nbsp_not_space (c : ascii) :
  Py.is_space c = false -> (if Ascii.eqb c Py.nbsp then Py.space else c) = c.
Proof. intro H. now rewrite (is_space_false_not_nbsp c H). Qed.

Lemma remove_whitespace_replace_nbsp (s : string) :
  Py.remove_whitespace (Py.replace_char Py.nbsp Py.space s)
  = Py.remove_whitespace s.
Proof.
  induction s as [|c s IH]; simpl; [reflexivity|].
  rewrite is_space_replace_nbsp.
  destruct (Py.is_space c) eqn:E; [exact IH|].
  now rewrite (replace_nbsp_not_space c E), IH.
Qed.

Lemma normalize_text_whitespace (w : string) :
  all_whitespace w -> normalize_text w = "".
Proof.
  unfold normalize_text. rewrite remove_whitespace_replace_nbsp.
  induction w as [|c w IH]; simpl; [reflexivity|].
  intros [Hc Hw]. rewrite Hc. now apply IH.
Qed.


Lemma lower_idem (s : string) : Py.lower (Py.lower s) = Py.lower s.
Proof.
  induction s as [|c s IH]; simpl; [reflexivity|].
  now rewrite lower_char_idem, IH.
Qed.



Lemma normalize_text_skip_whitespace (a w b : string) :
  all_whitespace w ->
  normalize_text (a ++ w ++ b) = normalize_text (a ++ b).
Proof.
  intro H. now rewrite !normalize_text_app, (normalize_text_whitespace w H).
Qed.

(** X1.  Whitespace is immaterial to [normalize_text], wherever it stands:
    inserting a run of whitespace code points (the no-break space included)
    between two parts of a text does not change the normalized text. *)
Theorem normalize_text_ignores_whitespace (a w b : string) :
  all_whitespace w ->
  normalize_text (a ++ w ++ b) = normalize_text (a ++ b).
Proof.
  intro H. rewrite !normalize_text_app, (normalize_text_whitespace w H).
  reflexivity.
Qed.

Lemma normalize_text_ignores_whitespace_witness :
  normalize_text ("Product" ++ String Py.nbsp (String "009"%char " ") ++ "Name")
  = normalize_text ("Product" ++ "Name").
Proof.
  apply (normalize_text_ignores_whitespace "Product"
           (String Py.nbsp (String "009"%char " ")) "Name").
  simpl. repeat split; reflexivity.
Defined.



(** X3.  The replacement of the no-break space by a space in [normalize_text]
    has no effect on the result: the no-break space is a whitespace code point
    of the class [\s] itself, so the result is the lower-case form of the text
    without its whitespace, with or without that step. *)
Theorem nbsp_replacement_is_redundant (s : string) :
  normalize_text s = Py.lower (Py.remove_whitespace s).
Proof.
  unfold normalize_text. f_equal. induction s as [|c s IH]; [reflexivity|].
  cbn [Py.replace_char Py.remove_whitespace]. rewrite is_space_replace_nbsp.
  destruct (Py.is_space c) eqn:E; [exact IH|].
  now rewrite (replace_nbsp_not_space c E), IH.
Qed.

(** ** Further properties of the matcher *)

Lemma space_not_hyphen (c : ascii) : Py.is_space c = true -> c <> "-"%char.
Proof. intros H E. subst c. discriminate H. Qed.

Lemma all_whitespace_no_hyphen (w : string) :
  all_whitespace w -> no_char "-"%char w.
Proof.
  induction w as [|c w IH]; simpl; [tauto|].
  intros [Hc Hw]. split; [now apply space_not_hyphen | now apply IH].
Qed.



Lemma before_first_hyphen_contains (item head : string) :
  before_first_hyphen item head -> Py.contains "-" item = true.
Proof.
  intro H. destruct (Py.contains "-" item) eqn:E; [reflexivity|].
  exfalso. apply (before_first_hyphen_some item head H).
  now apply contains_hyphen_false.
Qed.

(** The two shapes of an item code, and what the matcher computes on each. *)
Lemma find_mapping_row_plain (item key : string) (cat : list row) :
  no_char "-"%char item ->
  find_mapping_row item cat key = scan_exact (normalize_text item) key cat.
Proof.
  intro H. unfold find_mapping_row.
  destruct (scan_exact (normalize_text item) key cat); [reflexivity|].
  apply contains_hyphen_false in H. now rewrite H.
Qed.

Lemma find_mapping_row_hyphen (item head key : string) (cat : list row) :
  before_first_hyphen item head ->
  find_mapping_row item cat key =
  match scan_exact (normalize_text item) key cat with
  | Some r => Some r
  | None => scan_prefix (normalize_text head) key cat
  end.
Proof.
  intro H. unfold find_mapping_row.
  destruct (scan_exact (normalize_text item) key cat); [reflexivity|].
  rewrite (before_first_hyphen_contains _ _ H).
  now rewrite (split_before_first_hyphen _ _ H).
Qed.

Lemma hyphen_or_plain (item : string) :
  no_char "-"%char item \/ exists head, before_first_hyphen item head.
Proof.
  destruct (Py.contains "-" item) eqn:E.
  - right. now apply contains_hyphen_true.
  - left. now apply contains_hyphen_false.
Qed.

Lemma before_first_hyphen_left (a b head : string) :
  before_first_hyphen a head -> before_first_hyphen (a ++ b) head.
Proof.
  intros [tail [-> Hn]]. exists (tail ++ b). split; [|exact Hn].
  now rewrite !append_assoc.
Qed.

Lemma before_first_hyphen_right (a b head : string) :
  no_char "-"%char a -> before_first_hyphen b head ->
  before_first_hyphen (a ++ b) (a ++ head).
Proof.
  intros Ha [tail [-> Hn]]. exists tail. split.
  - now rewrite !append_assoc.
  - apply no_char_append. now split.
Qed.

(** X4.  Whitespace in an item code is immaterial to [find_mapping_row],
    wherever it stands (before or after a hyphen too): the code with a run of
    whitespace inserted is matched to the same row, or to none, as the code
    without it. *)
Theorem matching_ignores_whitespace (a w b key : string) (cat : list row) :
  all_whitespace w ->
  find_mapping_row (a ++ w ++ b) cat key = find_mapping_row (a ++ b) cat key.
Proof.
  intro Hw. pose proof (all_whitespace_no_hyphen w Hw) as Hwn.
  destruct (hyphen_or_plain a) as [Ha|[head Ha]].
  - destruct (hyphen_or_plain b) as [Hb|[head Hb]].
    + rewrite !find_mapping_row_plain.
      * now rewrite (normalize_text_skip_whitespace _ w _ Hw).
      * apply no_char_append. now split.
      * apply no_char_append. split; [exact Ha|].
        apply no_char_append. now split.
    + rewrite (find_mapping_row_hyphen (a ++ b) (a ++ head) key cat).
      2: now apply before_first_hyphen_right.
      rewrite (find_mapping_row_hyphen (a ++ w ++ b) (a ++ w ++ head) key cat).
      2:{ apply before_first_hyphen_right; [exact Ha|].
          now apply before_first_hyphen_right. }
      now rewrite !(normalize_text_skip_whitespace _ w _ Hw).
  - rewrite (find_mapping_row_hyphen (a ++ b) head key cat).
    2: now apply before_first_hyphen_left.
    rewrite (find_mapping_row_hyphen (a ++ w ++ b) head key cat).
    2: now apply before_first_hyphen_left.
    now rewrite (normalize_text_skip_whitespace _ w _ Hw).
Qed.



Lemma first_row_such_In (P : row -> Prop) (cat : list row) (r : row) :
  first_row_such P cat r -> In r cat /\ P r.
Proof.
  intros [b [a [-> [HP _]]]]. split; [apply in_elt | exact HP].
Qed.

Lemma split_hyphen_plain (s cur : string) :
  no_char "-"%char s -> Py.split_go "-" 0 cur s = [cur ++ s].
Proof.
  revert cur. induction s as [|c s IH]; intros cur Hn.
  - simpl. now rewrite append_empty_r.
  - destruct Hn as [Hc Hn]. cbn [Py.split_go]. rewrite prefix_hyphen.
    destruct (ascii_dec "-"%char c) as [E|_]; [congruence|].
    rewrite (IH _ Hn), append_assoc. reflexivity.
Qed.

Lemma is_prefix_of_refl (s : string) : is_prefix_of s s.
Proof. exists "". now rewrite append_empty_r. Qed.

Lemma is_prefix_of_app (p a b : string) :
  is_prefix_of p a -> is_prefix_of p (a ++ b).
Proof. intros [rest ->]. exists (rest ++ b). now rewrite append_assoc. Qed.

Lemma matching_ignores_whitespace_witness :
  find_mapping_row ("03194" ++ " " ++ "-A") [[("{{productcode}}", Str "03194")]]
    "{{productcode}}"
  = find_mapping_row ("03194" ++ "-A") [[("{{productcode}}", Str "03194")]]
      "{{productcode}}".
Proof.
  apply (matching_ignores_whitespace "03194" " " "-A"). simpl. now split.
Defined.

(** X6.  Whatever phase finds it, the row that [find_mapping_row] returns is a
    row of the catalog, and its normalized code starts with the normalized
    text before the first hyphen of the item code (the whole code when it has
    no hyphen). *)
Theorem matched_code_starts_with_head (item key : string) (cat : list row)
    (r : row) :
  find_mapping_row item cat key = Some r ->
  In r cat
  /\ is_prefix_of (normalize_text (hd "" (Py.split "-" item))) (key_norm key r).
Proof.
  intro H. destruct (hyphen_or_plain item) as [Hp|[head Hh]].
  - rewrite (find_mapping_row_plain _ _ _ Hp) in H.
    apply scan_exact_some, first_row_such_In in H. destruct H as [Hin Hk].
    split; [exact Hin|]. unfold Py.split. rewrite (split_hyphen_plain _ _ Hp).
    simpl. rewrite Hk. apply is_prefix_of_refl.
  - rewrite (find_mapping_row_hyphen _ _ _ _ Hh) in H.
    rewrite (split_before_first_hyphen _ _ Hh).
    destruct (scan_exact (normalize_text item) key cat) as [r'|] eqn:E.
    + injection H as ->.
      apply scan_exact_some, first_row_such_In in E. destruct E as [Hin Hk].
      split; [exact Hin|]. rewrite Hk.
      destruct Hh as [tail [-> _]]. rewrite normalize_text_app.
      apply is_prefix_of_app, is_prefix_of_refl.
    + apply scan_prefix_some, first_row_such_In in H. exact H.
Qed.

Lemma matched_code_starts_with_head_witness :
  let r : row := [("{{productcode}}", Str "03194 B")] in
  In r [r] /\ is_prefix_of "03194" (key_norm "{{productcode}}" r).
Proof.
  apply (matched_code_starts_with_head "03194-A" "{{productcode}}"
           [[("{{productcode}}", Str "03194 B")]]).
  reflexivity.
Defined.

(** X7.  An item code with nothing but whitespace before its first hyphen, and
    without exact match, is matched to the first row of the catalog, whatever
    that row is: the empty prefix starts every code. *)
Theorem blank_head_matches_first_row (item head key : string) (r : row)
    (rest : list row) :
  before_first_hyphen item head ->
  all_whitespace head ->
  (forall r', In r' (r :: rest) -> key_norm key r' <> normalize_text item) ->
  find_mapping_row item (r :: rest) key = Some r.
Proof.
  intros Hh Hw Hno. rewrite (find_mapping_row_hyphen _ _ _ _ Hh).
  destruct (scan_exact (normalize_text item) key (r :: rest)) as [r'|] eqn:E.
  - exfalso. apply scan_exact_some, first_row_such_In in E.
    destruct E as [Hin Hk]. exact (Hno r' Hin Hk).
  - rewrite (normalize_text_whitespace _ Hw). cbn [scan_prefix].
    unfold Py.startswith.
    replace (prefix "" (normalize_text (py_str (row_get r key (Str "")))))
      with true; [reflexivity|].
    symmetry. apply prefix_is_prefix_of.
    now exists (normalize_text (py_str (row_get r key (Str "")))).
Qed.

Lemma blank_head_matches_first_row_witness :
  find_mapping_row "-A"
    [[("{{productcode}}", Str "03194")]; [("{{productcode}}", Str "5")]]
    "{{productcode}}"
  = Some [("{{productcode}}", Str "03194")].
Proof.
  apply (blank_head_matches_first_row "-A" "" "{{productcode}}").
  - exists "A". split; [reflexivity | exact I].
  - exact I.
  - intros r' [<-|[<-|[]]]; vm_compute; discriminate.
Defined.

(** X8.  A catalog row whose code cell is missing (NaN) is found by an item
    code that normalizes to the text nan, since [str] of the missing value is
    that text: the match is a row whose normalized code is nan. *)
Theorem missing_code_cell_matches_nan (item key : string) (cat : list row)
    (r : row) :
  normalize_text item = "nan" ->
  In r cat -> row_get r key (Str "") = NaN ->
  exists r', find_mapping_row item cat key = Some r' /\ key_norm key r' = "nan".
Proof.
  intros Hi Hin Hr. unfold find_mapping_row. rewrite Hi.
  destruct (scan_exact "nan" key cat) as [r'|] eqn:E.
  - exists r'. split; [reflexivity|].
    apply scan_exact_some, first_row_such_In in E. apply E.
  - exfalso. apply (scan_exact_none _ _ _ E r Hin).
    unfold key_norm. now rewrite Hr.
Qed.

Lemma missing_code_cell_matches_nan_witness :
  exists r', find_mapping_row "NaN" [[("{{productcode}}", NaN)]] "{{productcode}}"
             = Some r' /\ key_norm "{{productcode}}" r' = "nan".
Proof.
  apply (missing_code_cell_matches_nan "NaN" "{{productcode}}"
           [[("{{productcode}}", NaN)]] [("{{productcode}}", NaN)]).
  - reflexivity.
  - now left.
  - reflexivity.
Defined.

(** ** Further properties of the grouper *)

Section Order.
Local Open Scope list_scope.

Lemma ascii_compare_trans_lt (x y z : ascii) :
  Ascii.compare x y = Lt -> Ascii.compare y z = Lt -> Ascii.compare x z = Lt.
Proof.
  unfold Ascii.compare. rewrite !N.compare_lt_iff. apply N.lt_trans.
Qed.

Lemma ascii_compare_eq (x y : ascii) : Ascii.compare x y = Eq -> x = y.
Proof.
  unfold Ascii.compare. rewrite N.compare_eq_iff. intro H.
  rewrite <- (ascii_N_embedding x), <- (ascii_N_embedding y). now rewrite H.
Qed.

Lemma string_leb_cons (x y : ascii) (a b : string) :
  String.leb (String x a) (String y b) =
  match Ascii.compare x y with
  | Eq => String.leb a b
  | Lt => true
  | Gt => false
  end.
Proof. unfold String.leb. simpl. now destruct (Ascii.compare x y). Qed.

Lemma string_leb_trans (a b c : string) :
  String.leb a b = true -> String.leb b c = true -> String.leb a c = true.
Proof.
  revert b c. induction a as [|x a IH]; intros b c Hab Hbc.
  - now destruct c.
  - destruct b as [|y b]; [discriminate Hab|].
    destruct c as [|z c]; [discriminate Hbc|].
    rewrite string_leb_cons in *.
    destruct (Ascii.compare x y) eqn:Exy; try discriminate.
    + apply ascii_compare_eq in Exy. subst y.
      destruct (Ascii.compare x z); try discriminate; eauto.
    + destruct (Ascii.compare y z) eqn:Eyz; try discriminate.
      * apply ascii_compare_eq in Eyz. subst z. now rewrite Exy.
      * now rewrite (ascii_compare_trans_lt _ _ _ Exy Eyz).
Qed.

Lemma str_le_trans : Relations_1.Transitive str_le.
Proof. intros a b c. apply string_leb_trans. Qed.

(** Two sorted lists with the same elements, each as often, are equal. *)
Lemma sorted_unique (l1 l2 : list string) :
  StronglySorted str_le l1 -> StronglySorted str_le l2 ->
  Permutation l1 l2 -> l1 = l2.
Proof.
  revert l2. induction l1 as [|x l1 IH]; intros l2 H1 H2 HP.
  - apply Permutation_nil in HP. now subst.
  - destruct l2 as [|y l2].
    + apply Permutation_sym, Permutation_nil in HP. discriminate.
    + inversion H1 as [|? ? S1 F1]; subst. inversion H2 as [|? ? S2 F2]; subst.
      assert (E : x = y).
      { assert (Hx : In x (y :: l2))
          by (apply (Permutation_in _ HP); now left).
        assert (Hy : In y (x :: l1))
          by (apply (Permutation_in _ (Permutation_sym HP)); now left).
        destruct Hx as [Hx|Hx]; [now symmetry|].
        destruct Hy as [Hy|Hy]; [exact Hy|].
        apply String.leb_antisym.
        - rewrite Forall_forall in F1. now apply F1.
        - rewrite Forall_forall in F2. now apply F2. }
      subst y. f_equal. apply IH; auto.
      now apply Permutation_cons_inv in HP.
Qed.

Lemma sorted_of_permutation (l l' : list string) :
  Permutation l l' -> Py.sorted l = Py.sorted l'.
Proof.
  intro HP. apply sorted_unique.
  - apply Sorted_StronglySorted; [exact str_le_trans | apply sorted_sorted].
  - apply Sorted_StronglySorted; [exact str_le_trans | apply sorted_sorted].
  - eapply Permutation_trans; [apply Permutation_sym, sorted_perm|].
    eapply Permutation_trans; [exact HP | apply sorted_perm].
Qed.

Lemma colors_same_set (l l' : list string) :
  (forall x, In x l <-> In x l') ->
  Permutation (GroupSpec.colors l) (GroupSpec.colors l').
Proof.
  intro H. apply NoDup_Permutation; try apply fromkeys_NoDup.
  intro c. unfold GroupSpec.colors. rewrite !fromkeys_In, !in_map_iff.
  split; intros [n [E Hn]]; exists n; (split; [exact E | now apply H]).
Qed.

Lemma sizes_of_same_set (l l' : list string) (c : string) :
  (forall x, In x l <-> In x l') ->
  Permutation (GroupSpec.sizes_of l c) (GroupSpec.sizes_of l' c).
Proof.
  intro H. apply NoDup_Permutation; try apply fromkeys_NoDup.
  intro z. unfold GroupSpec.sizes_of.
  rewrite !fromkeys_In, !filter_In, !in_map_iff.
  split; intros [[n [E Hn]] Hz]; (split; [|exact Hz]); exists n;
    (split; [exact E|]); rewrite filter_In in *;
    (split; [now apply H | tauto]).
Qed.

Lemma line_same_set (l l' : list string) (c : string) :
  (forall x, In x l <-> In x l') -> GroupSpec.line l c = GroupSpec.line l' c.
Proof.
  intro H. pose proof (sizes_of_same_set l l' c H) as HP.
  unfold GroupSpec.line.
  destruct (GroupSpec.sizes_of l c) as [|s r] eqn:E1;
    destruct (GroupSpec.sizes_of l' c) as [|s' r'] eqn:E2.
  - reflexivity.
  - apply Permutation_nil in HP. discriminate.
  - apply Permutation_sym, Permutation_nil in HP. discriminate.
  - now rewrite (sorted_of_permutation _ _ HP).
Qed.

Lemma group_same_set (l l' : list string) :
  (forall x, In x l <-> In x l') -> GroupSpec.group l = GroupSpec.group l'.
Proof.
  intro H. unfold GroupSpec.group. f_equal. apply sorted_of_permutation.
  rewrite (map_ext _ _ (fun c => line_same_set l l' c H)).
  apply Permutation_map, colors_same_set, H.
Qed.

End Order.

(** X9.  The text of [group_by_color_and_size] depends on the set of variant
    names only: two lists with the same elements, in any order and with any
    repetition, give the same text. *)
Theorem grouping_depends_on_the_set_of_names (l l' : list string) :
  (forall x, In x l <-> In x l') ->
  group_by_color_and_size l = group_by_color_and_size l'.
Proof.
  intro H. rewrite !group_by_color_and_size_spec. now apply group_same_set.
Qed.

Lemma grouping_depends_on_the_set_of_names_witness :
  group_by_color_and_size ["Oak - Large"; "Ash"; "Oak - Small"; "Oak - Large"]
  = group_by_color_and_size ["Oak - Small"; "Oak - Large"; "Ash"].
Proof.
  apply (grouping_depends_on_the_set_of_names
           ["Oak - Large"; "Ash"; "Oak - Small"; "Oak - Large"]
           ["Oak - Small"; "Oak - Large"; "Ash"]).
  intro x. simpl. tauto.
Defined.

Section PlainNames.
Local Open Scope list_scope.

Lemma sizes_of_plain (names : list string) (c : string) :
  (forall n, In n names -> Py.contains sep n = false) ->
  GroupSpec.sizes_of names c = [].
Proof.
  intro H. unfold GroupSpec.sizes_of.
  replace (filter (fun z => negb (z =? "")%string)
             (map GroupSpec.size_of
                (filter (fun n => (GroupSpec.color_of n =? c)%string) names)))
    with (@nil string); [reflexivity|].
  symmetry. apply filter_nil_iff. intros z Hz.
  apply in_map_iff in Hz. destruct Hz as [n [<- Hn]].
  apply filter_In in Hn. destruct Hn as [Hn _].
  unfold GroupSpec.size_of. now rewrite (parse_variant_plain n (H n Hn)).
Qed.

Lemma group_plain (names : list string) :
  (forall n, In n names -> Py.contains sep n = false) ->
  GroupSpec.group names
  = Py.join newline (Py.sorted (Py.fromkeys (map Py.strip names))).
Proof.
  intro H. unfold GroupSpec.group, GroupSpec.colors. f_equal. f_equal.
  rewrite (map_ext_in GroupSpec.color_of Py.strip names).
  2:{ intros n Hn. unfold GroupSpec.color_of.
      now rewrite (parse_variant_plain n (H n Hn)). }
  rewrite <- (map_id (Py.fromkeys (map Py.strip names))) at 2.
  apply map_ext. intro c. unfold GroupSpec.line.
  now rewrite (sizes_of_plain names c H).
Qed.

End PlainNames.

(** X10.  When no variant name contains the separator,
    [group_by_color_and_size] lists the trimmed names, each once, in sorted
    order, one per line. *)
Theorem grouping_of_plain_names (names : list string) :
  (forall n, In n names -> Py.contains sep n = false) ->
  group_by_color_and_size names
  = Py.join newline (Py.sorted (Py.fromkeys (map Py.strip names))).
Proof.
  intro H. rewrite group_by_color_and_size_spec. now apply group_plain.
Qed.

Lemma grouping_of_plain_names_witness :
  group_by_color_and_size ["Oak"; " Ash "; "Oak"] = "Ash" ++ newline ++ "Oak".
Proof.
  rewrite (grouping_of_plain_names ["Oak"; " Ash "; "Oak"]).
  - reflexivity.
  - intros n [<-|[<-|[<-|[]]]]; reflexivity.
Defined.

(** ** Further properties of the resolvers and the configurator *)

Section StockOrder.
Local Open Scope list_scope.

Variable flag : stock_row -> cell.

Lemma filter_same_set {A : Type} (f : A -> bool) (l l' : list A) :
  (forall x, In x l <-> In x l') ->
  forall x, In x (filter f l) <-> In x (filter f l').
Proof. intros H x. rewrite !filter_In, H. tauto. Qed.

Lemma nil_same_set {A : Type} (l l' : list A) :
  (forall x, In x l <-> In x l') -> l = [] -> l' = [].
Proof.
  intros H ->. destruct l' as [|x l']; [reflexivity|].
  exfalso. apply (H x). now left.
Qed.

Lemma variant_names_of_In (rows : list stock_row) (n : string) :
  In n (variant_names_of rows)
  <-> exists r, In r rows /\ variantname r = Str n.
Proof.
  induction rows as [|r rows IH]; simpl.
  - split; [tauto | intros [r [[] _]]].
  - destruct (variantname r) as [|s] eqn:E; simpl; rewrite IH; split.
    + intros [r' [Hin Hv]]. exists r'. tauto.
    + intros [r' [[<-|Hin] Hv]]; [congruence | now exists r'].
    + intros [<-|[r' [Hin Hv]]]; [now exists r; split; [left|] | exists r'; tauto].
    + intros [r' [[<-|Hin] Hv]]; [left; congruence | right; now exists r'].
Qed.

(** X11.  The text of a stock resolver depends on the set of stock rows only:
    two stock tables with the same rows, in any order and with any repetition,
    give the same text for every catalog row. *)
Theorem stock_text_depends_on_the_set_of_rows (mapping_row : row)
    (s s' : list stock_row) :
  (forall r, In r s <-> In r s') ->
  process_stock_alternative flag mapping_row s
  = process_stock_alternative flag mapping_row s'.
Proof.
  intro H. unfold process_stock_alternative, unique_variant_names.
  destruct (negb (truthy (row_get mapping_row "productkey" (Str "")))
            || isna (row_get mapping_row "productkey" (Str ""))); [reflexivity|].
  set (k := normalize_text (py_str (row_get mapping_row "productkey" (Str "")))).
  pose proof (filter_same_set
                (fun r => (normalize_text (py_str (productkey r)) =? k)%string)
                s s' H) as H1.
  fold (filter_key k s) in H1. fold (filter_key k s') in H1.
  pose proof (filter_same_set (available flag) _ _ H1) as H2.
  destruct (filter_key k s) as [|r1 f1] eqn:E1;
    destruct (filter_key k s') as [|r1' f1'] eqn:E1'.
  - reflexivity.
  - exfalso. apply (H1 r1'). now left.
  - exfalso. apply (H1 r1). now left.
  - destruct (filter (available flag) (r1 :: f1)) as [|r2 f2] eqn:E2;
      destruct (filter (available flag) (r1' :: f1')) as [|r2' f2'] eqn:E2'.
    + reflexivity.
    + exfalso. apply (H2 r2'). now left.
    + exfalso. apply (H2 r2). now left.
    + destruct (ProductConfigurator.get_options _); [reflexivity|].
      rewrite !group_by_color_and_size_spec. apply group_same_set.
      intro n. rewrite !fromkeys_In, !variant_names_of_In.
      split; intros [r [Hin Hv]]; exists r; (split; [now apply H2 | exact Hv]).
Qed.

Lemma filter_key_app (k : string) (a b : list stock_row) :
  filter_key k (a ++ b) = filter_key k a ++ filter_key k b.
Proof. apply filter_app. Qed.

(** X12.  Stock rows of other products do not interfere: rows whose normalized
    product key differs from the catalog row's can be added to the stock
    table, anywhere, without changing the text of a resolver. *)
Theorem other_products_do_not_interfere (mapping_row : row)
    (a others b : list stock_row) :
  (forall r, In r others -> ~ same_product mapping_row r) ->
  process_stock_alternative flag mapping_row (a ++ others ++ b)
  = process_stock_alternative flag mapping_row (a ++ b).
Proof.
  intro H. unfold process_stock_alternative, unique_variant_names.
  rewrite !filter_key_app.
  replace (filter_key
             (normalize_text (py_str (row_get mapping_row "productkey" (Str ""))))
             others) with (@nil stock_row); [reflexivity|].
  symmetry. apply filter_nil_iff. intros r Hr.
  apply String.eqb_neq. exact (H r Hr).
Qed.

End StockOrder.

Lemma stock_text_depends_on_the_set_of_rows_witness :
  process_stock_alternative rts chair_row chair_stock
  = process_stock_alternative rts chair_row (rev chair_stock ++ chair_stock).
Proof.
  apply (stock_text_depends_on_the_set_of_rows rts chair_row chair_stock
           (rev chair_stock ++ chair_stock)).
  intro r. simpl. tauto.
Defined.

Lemma other_products_do_not_interfere_witness :
  process_stock_alternative mto chair_row
    ([] ++ made_to_order_only ++ chair_stock)%list
  = process_stock_alternative mto chair_row ([] ++ chair_stock)%list.
Proof.
  apply (other_products_do_not_interfere mto chair_row [] made_to_order_only
           chair_stock).
  intros r [<-|[]]. vm_compute. discriminate.
Defined.

Lemma get_options_unfold (name : string) :
  ProductConfigurator.get_options name =
  if name_contains "Black Linoleum" name
  then Some (ProductConfigurator.leg_colors, ProductConfigurator.default_sizes)
  else if name_contains "Grey Linoleum" name
  then Some (ProductConfigurator.leg_colors, ProductConfigurator.default_sizes)
  else if name_contains "Oak Lacquered Oak Veneer" name
  then Some (ProductConfigurator.leg_colors, ProductConfigurator.default_sizes)
  else if name_contains "Oak Oiled Oak" name
  then Some (ProductConfigurator.leg_colors, ProductConfigurator.default_sizes)
  else if name_contains "Sand Laminate" name
  then Some (ProductConfigurator.leg_colors,
             ProductConfigurator.sand_laminate_sizes)
  else if name_contains "Smoked Oak Oiled Oak" name
  then Some (ProductConfigurator.leg_colors, ProductConfigurator.default_sizes)
  else if name_contains "White Laminate" name
  then Some (ProductConfigurator.leg_colors, ProductConfigurator.default_sizes)
  else None.
Proof. reflexivity. Qed.

Lemma sizes_differ :
  ProductConfigurator.default_sizes <> ProductConfigurator.sand_laminate_sizes.
Proof. discriminate. Qed.

(** X13.  What [get_options] returns. It returns nothing exactly when the name
    contains none of the seven surfaces, case-insensitively. Otherwise the leg
    colors are the fixed four and the sizes are the default list or the list
    of Sand Laminate; they are the latter exactly when the name contains Sand
    Laminate and none of the four surfaces declared before it. The letter case
    of the name is immaterial. *)
Theorem get_options_characterization (name : string) :
  (ProductConfigurator.get_options name = None
   <-> forall surface, In surface surfaces -> name_contains surface name = false)
  /\ (forall o, ProductConfigurator.get_options name = Some o ->
        fst o = ProductConfigurator.leg_colors
        /\ (snd o = ProductConfigurator.sand_laminate_sizes
            \/ snd o = ProductConfigurator.default_sizes)
        /\ (snd o = ProductConfigurator.sand_laminate_sizes
            <-> name_contains "Sand Laminate" name = true
                /\ forall surface, In surface earlier_surfaces ->
                     name_contains surface name = false))
  /\ ProductConfigurator.get_options (Py.lower name)
     = ProductConfigurator.get_options name.
Proof.
  split; [|split].
  - rewrite get_options_unfold. split.
    + intros H surface Hs. simpl in Hs.
      destruct (name_contains "Black Linoleum" name) eqn:E1; [discriminate|].
      destruct (name_contains "Grey Linoleum" name) eqn:E2; [discriminate|].
      destruct (name_contains "Oak Lacquered Oak Veneer" name) eqn:E3;
        [discriminate|].
      destruct (name_contains "Oak Oiled Oak" name) eqn:E4; [discriminate|].
      destruct (name_contains "Sand Laminate" name) eqn:E5; [discriminate|].
      destruct (name_contains "Smoked Oak Oiled Oak" name) eqn:E6;
        [discriminate|].
      destruct (name_contains "White Laminate" name) eqn:E7; [discriminate|].
      repeat (destruct Hs as [<-|Hs]; [assumption|]). destruct Hs.
    + intro H.
      rewrite (H "Black Linoleum"), (H "Grey Linoleum"),
        (H "Oak Lacquered Oak Veneer"), (H "Oak Oiled Oak"),
        (H "Sand Laminate"), (H "Smoked Oak Oiled Oak"), (H "White Laminate");
        try reflexivity; simpl; tauto.
  - intros o Ho. destruct (name_contains "Sand Laminate" name) eqn:E5.
    + destruct (name_contains "Black Linoleum" name) eqn:E1;
      [|destruct (name_contains "Grey Linoleum" name) eqn:E2;
        [|destruct (name_contains "Oak Lacquered Oak Veneer" name) eqn:E3;
          [|destruct (name_contains "Oak Oiled Oak" name) eqn:E4]]].
      5:{ rewrite (sand_laminate_options name E5) in Ho.
          - injection Ho as <-. simpl. repeat split; auto.
            intros surface Hs. simpl in Hs.
            repeat (destruct Hs as [<-|Hs]; [assumption|]). destruct Hs.
          - intros surface Hs. simpl in Hs.
            repeat (destruct Hs as [<-|Hs]; [assumption|]). destruct Hs. }
      all: rewrite get_options_unfold in Ho; rewrite ?E1, ?E2, ?E3, ?E4 in Ho;
        injection Ho as <-; simpl; (split; [reflexivity|]); (split; [now right|]);
        split; [intro C; exfalso; now apply sizes_differ|];
        intros [_ C]; exfalso.
      * rewrite (C "Black Linoleum") in E1; [discriminate | simpl; tauto].
      * rewrite (C "Grey Linoleum") in E2; [discriminate | simpl; tauto].
      * rewrite (C "Oak Lacquered Oak Veneer") in E3; [discriminate | simpl; tauto].
      * rewrite (C "Oak Oiled Oak") in E4; [discriminate | simpl; tauto].
    + rewrite get_options_unfold in Ho. rewrite E5 in Ho.
      assert (Hd : o = (ProductConfigurator.leg_colors,
                        ProductConfigurator.default_sizes)).
      { destruct (name_contains "Black Linoleum" name); [now injection Ho|].
        destruct (name_contains "Grey Linoleum" name); [now injection Ho|].
        destruct (name_contains "Oak Lacquered Oak Veneer" name);
          [now injection Ho|].
        destruct (name_contains "Oak Oiled Oak" name); [now injection Ho|].
        destruct (name_contains "Smoked Oak Oiled Oak" name);
          [now injection Ho|].
        destruct (name_contains "White Laminate" name); [now injection Ho|].
        discriminate. }
      subst o. simpl. split; [reflexivity|]. split; [now right|].
      split; [intro C; exfalso; now apply sizes_differ|].
      intros [C _]. discriminate.
  - rewrite !get_options_unfold. unfold name_contains. now rewrite lower_idem.
Qed.

(** ** The pasted item codes *)

Lemma linebreak_is_space (c : ascii) :
  Py.is_linebreak c = true -> Py.is_space c = true.
Proof. by_cases_on_char c. Qed.

Lemma all_whitespace_app (a b : string) :
  all_whitespace (a ++ b) <-> all_whitespace a /\ all_whitespace b.
Proof. induction a as [|c a IH]; simpl; [tauto | rewrite IH; tauto]. Qed.

Lemma no_linebreak_app (a b : string) :
  no_linebreak (a ++ b) <-> no_linebreak a /\ no_linebreak b.
Proof. induction a as [|c a IH]; simpl; [tauto | rewrite IH; tauto]. Qed.

Lemma lstrip_empty_iff (s : string) : Py.lstrip s = "" <-> all_whitespace s.
Proof.
  induction s as [|c s IH]; simpl; [tauto|].
  destruct (Py.is_space c).
  - rewrite IH. tauto.
  - split; [discriminate | intros [H _]; discriminate H].
Qed.

Lemma rstrip_empty_iff (s : string) : Py.rstrip s = "" <-> all_whitespace s.
Proof.
  induction s as [|c s IH]; simpl; [tauto|].
  destruct (Py.rstrip s) as [|d r].
  - destruct (Py.is_space c).
    + split; [intros _; split; [reflexivity | now apply IH] | reflexivity].
    + split; [discriminate | intros [H _]; discriminate H].
  - split; [discriminate|]. intros [_ H]. apply IH in H. discriminate H.
Qed.

Lemma lstrip_decompose (s : string) :
  exists w, all_whitespace w /\ s = w ++ Py.lstrip s.
Proof.
  induction s as [|c s [w [Hw E]]]; simpl.
  - now exists "".
  - destruct (Py.is_space c) eqn:Ec.
    + exists (String c w). simpl. split; [now split | now rewrite <- E].
    + now exists "".
Qed.

Lemma rstrip_decompose (s : string) :
  exists w, all_whitespace w /\ s = Py.rstrip s ++ w.
Proof.
  induction s as [|c s [w [Hw E]]]; simpl.
  - now exists "".
  - destruct (Py.rstrip s) as [|d r] eqn:Er.
    + destruct (Py.is_space c) eqn:Ec.
      * exists (String c w). simpl in *. split; [now split | now rewrite <- E].
      * exists w. simpl in *. split; [exact Hw | now rewrite <- E].
    + exists w. split; [exact Hw|]. simpl in *. now rewrite <- E.
Qed.

Lemma strip_empty_iff (s : string) : Py.strip s = "" <-> all_whitespace s.
Proof.
  unfold Py.strip. rewrite rstrip_empty_iff.
  destruct (lstrip_decompose s) as [w [Hw E]].
  rewrite E at 2. rewrite all_whitespace_app. tauto.
Qed.

Lemma rstrip_idem (s : string) : Py.rstrip (Py.rstrip s) = Py.rstrip s.
Proof.
  induction s as [|c s IH]; simpl; [reflexivity|].
  destruct (Py.rstrip s) as [|d r] eqn:Er.
  - destruct (Py.is_space c) eqn:Ec; simpl; [reflexivity | now rewrite Ec].
  - cbn [Py.rstrip]. cbn [Py.rstrip] in IH. now rewrite IH.
Qed.

Lemma strip_idem (s : string) : Py.strip (Py.strip s) = Py.strip s.
Proof.
  unfold Py.strip.
  rewrite (lstrip_fixed (Py.rstrip (Py.lstrip s))).
  - apply rstrip_idem.
  - apply rstrip_head, lstrip_head.
Qed.

Lemma lstrip_no_linebreak (s : string) :
  no_linebreak s -> no_linebreak (Py.lstrip s).
Proof.
  induction s as [|c s IH]; simpl; [tauto|].
  intros [Hc Hs]. destruct (Py.is_space c); [now apply IH | now split].
Qed.

Lemma rstrip_no_linebreak (s : string) :
  no_linebreak s -> no_linebreak (Py.rstrip s).
Proof.
  intro H. destruct (rstrip_decompose s) as [w [_ E]].
  rewrite E in H. now apply no_linebreak_app in H.
Qed.

Lemma strip_no_linebreak (s : string) :
  no_linebreak s -> no_linebreak (Py.strip s).
Proof. intro H. now apply rstrip_no_linebreak, lstrip_no_linebreak. Qed.

Lemma splitlines_go_cons (cur : string) (c : ascii) (s' : string) :
  Py.splitlines_go cur (String c s') =
  if Py.is_linebreak c
  then cur :: Py.splitlines_go "" (after_break c s')
  else Py.splitlines_go (cur ++ String c "") s'.
Proof.
  cbn [Py.splitlines_go]. unfold after_break.
  destruct (Py.is_linebreak c); [|reflexivity].
  destruct s' as [|d s'']; [reflexivity|].
  now destruct (Ascii.eqb c "013" && Ascii.eqb d "010").
Qed.

Lemma after_break_length (c : ascii) (s' : string) :
  (String.length (after_break c s') <= String.length s')%nat.
Proof.
  unfold after_break. destruct s' as [|d s'']; [apply le_n|].
  destruct (Ascii.eqb c "013" && Ascii.eqb d "010"); simpl; lia.
Qed.

Lemma after_break_whitespace (c : ascii) (s' : string) :
  all_whitespace (after_break c s') -> all_whitespace s'.
Proof.
  unfold after_break. destruct s' as [|d s'']; [tauto|].
  destruct (Ascii.eqb c "013" && Ascii.eqb d "010") eqn:E; [|tauto].
  apply andb_prop in E. destruct E as [_ E]. apply Ascii.eqb_eq in E. subst d.
  intro H. split; [reflexivity | exact H].
Qed.

Lemma lines_whitespace (n : nat) : forall s cur,
  (String.length s <= n)%nat ->
  Forall all_whitespace (Py.splitlines_go cur s) ->
  all_whitespace cur /\ all_whitespace s.
Proof.
  induction n as [|n IH]; intros s cur Hn HF.
  - destruct s; [|simpl in Hn; lia]. simpl in HF.
    destruct (cur =? "") eqn:E.
    + apply String.eqb_eq in E. subst. now split.
    + inversion HF. now split.
  - destruct s as [|c s'].
    + simpl in HF. destruct (cur =? "") eqn:E.
      * apply String.eqb_eq in E. subst. now split.
      * inversion HF. now split.
    + rewrite splitlines_go_cons in HF. simpl in Hn.
      destruct (Py.is_linebreak c) eqn:Ec.
      * inversion HF as [|? ? Hcur Hrest]; subst.
        apply IH in Hrest.
        2:{ pose proof (after_break_length c s'). lia. }
        split; [exact Hcur|]. split; [now apply linebreak_is_space|].
        apply (after_break_whitespace c). apply Hrest.
      * apply IH in HF; [|lia]. destruct HF as [H1 H2].
        apply all_whitespace_app in H1. simpl in H1. simpl. tauto.
Qed.

Lemma lines_no_linebreak (n : nat) : forall s cur,
  (String.length s <= n)%nat -> no_linebreak cur ->
  Forall no_linebreak (Py.splitlines_go cur s).
Proof.
  induction n as [|n IH]; intros s cur Hn Hcur.
  - destruct s; [|simpl in Hn; lia]. simpl.
    destruct (cur =? ""); [constructor | now repeat constructor].
  - destruct s as [|c s'].
    + simpl. destruct (cur =? ""); [constructor | now repeat constructor].
    + rewrite splitlines_go_cons. simpl in Hn.
      destruct (Py.is_linebreak c) eqn:Ec.
      * constructor; [exact Hcur|]. apply IH; [|exact I].
        pose proof (after_break_length c s'). lia.
      * apply IH; [lia|]. apply no_linebreak_app. simpl. tauto.
Qed.

Lemma varenumre_nil (t : string) :
  varenumre_of t = [] -> all_whitespace t.
Proof.
  unfold varenumre_of. intro H. apply map_eq_nil in H.
  assert (HF : Forall all_whitespace (Py.splitlines t)).
  { apply Forall_forall. intros line Hl. apply strip_empty_iff.
    pose proof (proj1 (filter_nil_iff _ _) H line Hl) as E.
    apply negb_false_iff in E. now apply String.eqb_eq. }
  now apply (lines_whitespace (String.length t) t "" (le_n _)) in HF.
Qed.

Lemma varenumre_item_codes (t : string) : Forall item_code (varenumre_of t).
Proof.
  unfold varenumre_of. apply Forall_forall. intros i Hi.
  apply in_map_iff in Hi. destruct Hi as [line [<- Hl]].
  apply filter_In in Hl. destruct Hl as [Hl Hne].
  apply negb_true_iff, String.eqb_neq in Hne.
  split; [exact Hne|]. split; [apply strip_idem|].
  apply strip_no_linebreak.
  pose proof (lines_no_linebreak (String.length t) t "" (le_n _) I) as HF.
  rewrite Forall_forall in HF. now apply HF.
Qed.

Lemma splitlines_go_line (x cur rest : string) :
  no_linebreak x ->
  Py.splitlines_go cur (x ++ newline ++ rest)
  = (cur ++ x) :: Py.splitlines_go "" rest.
Proof.
  revert cur. induction x as [|c x IH]; intros cur Hx.
  - change ("" ++ newline ++ rest) with (String "010"%char rest).
    rewrite splitlines_go_cons. change (Py.is_linebreak "010") with true.
    cbv iota. rewrite append_empty_r. f_equal.
    now destruct rest.
  - destruct Hx as [Hc Hx]. cbn [append]. rewrite splitlines_go_cons, Hc.
    rewrite (IH _ Hx), append_assoc. reflexivity.
Qed.

Lemma splitlines_go_last (x cur : string) :
  no_linebreak x -> cur ++ x <> "" ->
  Py.splitlines_go cur x = [cur ++ x].
Proof.
  revert cur. induction x as [|c x IH]; intros cur Hx Hne.
  - rewrite append_empty_r in *. simpl.
    destruct (cur =? "") eqn:E; [|reflexivity].
    apply String.eqb_eq in E. congruence.
  - destruct Hx as [Hc Hx]. rewrite splitlines_go_cons, Hc.
    rewrite (IH _ Hx), append_assoc; [reflexivity|].
    rewrite append_assoc. exact Hne.
Qed.

Lemma splitlines_join (x : string) (l : list string) :
  Forall item_code (x :: l) ->
  Py.splitlines (Py.join newline (x :: l)) = x :: l.
Proof.
  revert x. induction l as [|y l IH]; intros x HF.
  - inversion HF as [|? ? [Hne [_ Hlb]] _]; subst. simpl. unfold Py.splitlines.
    now rewrite splitlines_go_last.
  - inversion HF as [|? ? [Hne [_ Hlb]] HF']; subst.
    change (Py.join newline (x :: y :: l))
      with (x ++ newline ++ Py.join newline (y :: l)).
    unfold Py.splitlines. rewrite (splitlines_go_line _ _ _ Hlb).
    f_equal. now apply IH.
Qed.

Lemma varenumre_join (l : list string) :
  Forall item_code l -> l <> [] -> varenumre_of (Py.join newline l) = l.
Proof.
  intros HF Hne. destruct l as [|x l]; [congruence|].
  unfold varenumre_of. rewrite (splitlines_join _ _ HF).
  replace (filter (fun line => negb (Py.strip line =? "")) (x :: l))
    with (x :: l).
  - rewrite <- (map_id (x :: l)) at 2. apply map_ext_in.
    intros i Hi. rewrite Forall_forall in HF. now apply HF.
  - symmetry. apply forallb_filter_id. apply forallb_forall.
    intros i Hi. rewrite Forall_forall in HF. destruct (HF i Hi) as [H1 [H2 _]].
    rewrite H2. now apply negb_true_iff, String.eqb_neq.
Qed.

Lemma join_head (x : string) (l : list string) :
  exists rest, Py.join newline (x :: l) = x ++ rest.
Proof.
  destruct l as [|y l]; simpl.
  - exists "". now rewrite append_empty_r.
  - now exists (newline ++ match l with
                          | [] => y
                          | _ => y ++ newline ++ Py.join newline l
                          end).
Qed.

Lemma read_items_join (varenumre : list string) :
  varenumre <> [] -> Forall item_code varenumre ->
  read_items (Py.join newline varenumre) = Items varenumre.
Proof.
  intros Hne HF. unfold read_items. rewrite (varenumre_join _ HF Hne).
  destruct varenumre as [|x l]; [congruence|].
  destruct (Py.strip (Py.join newline (x :: l)) =? "") eqn:E;
    [|reflexivity].
  exfalso. apply String.eqb_eq, strip_empty_iff in E.
  destruct (join_head x l) as [rest Hj]. rewrite Hj in E.
  apply all_whitespace_app in E. destruct E as [E _].
  apply strip_empty_iff in E. inversion HF as [|? ? [H1 [H2 _]] _]; subst.
  congruence.
Qed.

Lemma read_items_item_codes (pasted_text : string) (varenumre : list string) :
  read_items pasted_text = Items varenumre -> Forall item_code varenumre.
Proof.
  unfold read_items. destruct (Py.strip pasted_text =? ""); [discriminate|].
  destruct (varenumre_of pasted_text) as [|x l] eqn:E; [discriminate|].
  intro H. injection H as <-. rewrite <- E. apply varenumre_item_codes.
Qed.

(** X14.  The second error message of the input step is never shown: when the
    pasted text passes the first check (it is not all whitespace), the list of
    item codes is not empty. The first message is shown exactly when every
    code point of the text is whitespace. *)
Theorem second_input_check_is_dead (pasted_text : string) :
  read_items pasted_text <> NoValidItems
  /\ (read_items pasted_text = NoText <-> all_whitespace pasted_text).
Proof.
  unfold read_items. destruct (Py.strip pasted_text =? "") eqn:E.
  - split; [discriminate|]. apply String.eqb_eq, strip_empty_iff in E. tauto.
  - apply String.eqb_neq in E.
    assert (Hn : ~ all_whitespace pasted_text)
      by (intro H; now apply E, strip_empty_iff).
    destruct (varenumre_of pasted_text) eqn:Ev.
    + exfalso. now apply Hn, varenumre_nil.
    + split; [discriminate|]. split; [discriminate | tauto].
Qed.

(** X15.  The item codes that [main] works on: the list is not empty, and each
    code is not empty, has no whitespace at either end and contains no line
    boundary. *)
Theorem items_are_trimmed_lines (pasted_text : string)
    (varenumre : list string) :
  read_items pasted_text = Items varenumre ->
  varenumre <> [] /\ Forall item_code varenumre.
Proof.
  unfold read_items. destruct (Py.strip pasted_text =? ""); [discriminate|].
  destruct (varenumre_of pasted_text) as [|i l] eqn:E; [discriminate|].
  intro H. injection H as <-. split; [discriminate|].
  rewrite <- E. apply varenumre_item_codes.
Qed.

Lemma items_are_trimmed_lines_witness :
  ["03194-A"; "5 1"] <> [] /\ Forall item_code ["03194-A"; "5 1"].
Proof.
  apply (items_are_trimmed_lines
           (" 03194-A "
            ++ String "013" (String "010" ("    " ++ newline ++ "5 1")))).
  reflexivity.
Defined.

(** X16.  Item codes pasted one per line are read back as they are: for a
    non-empty list of codes, each not empty, trimmed and on one line, the
    input step applied to the codes joined by newlines yields that list. *)
Theorem read_items_of_joined_lines (varenumre : list string) :
  varenumre <> [] -> Forall item_code varenumre ->
  read_items (Py.join newline varenumre) = Items varenumre.
Proof. apply read_items_join. Qed.

Lemma read_items_of_joined_lines_witness :
  read_items (Py.join newline ["03194-A"; "5 1"]) = Items ["03194-A"; "5 1"].
Proof.
  apply (read_items_of_joined_lines ["03194-A"; "5 1"]).
  - discriminate.
  - repeat constructor; try discriminate; simpl; auto.
Defined.

(** ** The deck *)

Section DeckFacts.
Local Open Scope list_scope.

Variable fetch : string -> option bitmap.
Variable mapping_df : list row.
Variable stock_df : list stock_row.
Variable template_copy : slide.

Lemma mapM_length {A B : Type} (f : A -> option B) (l : list A) (l' : list B) :
  mapM f l = Some l' -> length l' = length l.
Proof.
  intro H. apply mapM_Forall2 in H. symmetry. exact (Forall2_length H).
Qed.

Lemma image_pass_length (sl sl' : slide)
    (image_values : list (string * string)) :
  replace_image_placeholders_parallel fetch sl image_values = Some sl' ->
  length sl <= length sl'.
Proof.
  intro H. apply pass_outcomes in H. destruct H as [outs [-> HF]].
  rewrite length_app, length_map. rewrite (Forall2_length HF).
  apply Nat.le_add_r.
Qed.

Lemma compose_slide_length (item_no : string) (sl : slide) :
  compose_slide fetch mapping_df stock_df template_copy item_no = Some sl ->
  length template_copy <= length sl.
Proof.
  unfold compose_slide, duplicate_slide.
  destruct (find_mapping_row item_no mapping_df MAPPING_PRODUCT_CODE_KEY).
  - destruct (replace_text_placeholders template_copy _) as [s1|] eqn:E1;
      [|discriminate]. cbn [bind].
    destruct (replace_hyperlink_placeholders s1 _) as [s2|] eqn:E2;
      [|discriminate]. cbn [bind].
    intro E3. apply image_pass_length in E3.
    apply mapM_length in E1. apply mapM_length in E2. lia.
  - destruct (replace_text_placeholders template_copy _) as [s1|] eqn:E1;
      [|discriminate]. cbn [bind].
    intro E2. apply mapM_length in E1. apply mapM_length in E2. lia.
Qed.

(** What one item adds to the list of missing items. *)
Lemma process_item_some (d d' : deck) (item_no : string) :
  process_item fetch mapping_df stock_df template_copy d item_no = Some d' ->
  exists sl,
    compose_slide fetch mapping_df stock_df template_copy item_no = Some sl
    /\ slides d' = slides d ++ [sl]
    /\ missing_items d' = missing_items d ++ unmatched mapping_df [item_no].
Proof.
  unfold process_item, unmatched. cbn [filter].
  destruct (compose_slide fetch mapping_df stock_df template_copy item_no)
    as [sl|]; [|discriminate].
  cbn [bind]. intro H. injection H as <-. exists sl. cbn [slides missing_items].
  split; [reflexivity|]. split; [reflexivity|].
  destruct (find_mapping_row item_no mapping_df MAPPING_PRODUCT_CODE_KEY);
    [now rewrite app_nil_r | reflexivity].
Qed.

Lemma unmatched_cons (item_no : string) (rest : list string) :
  unmatched mapping_df (item_no :: rest)
  = unmatched mapping_df [item_no] ++ unmatched mapping_df rest.
Proof.
  unfold unmatched. cbn [filter].
  now destruct (find_mapping_row item_no mapping_df MAPPING_PRODUCT_CODE_KEY).
Qed.

Lemma process_items_some (varenumre : list string) : forall d d',
  process_items fetch mapping_df stock_df template_copy d varenumre = Some d' ->
  exists new_slides,
    slides d' = slides d ++ new_slides
    /\ length new_slides = length varenumre
    /\ Forall (fun sl => length template_copy <= length sl) new_slides
    /\ missing_items d' = missing_items d ++ unmatched mapping_df varenumre.
Proof.
  induction varenumre as [|item_no rest IH]; intros d d' H.
  - injection H as <-. exists []. rewrite !app_nil_r. repeat split. constructor.
  - cbn [process_items] in H.
    destruct (process_item fetch mapping_df stock_df template_copy d item_no)
      as [d1|] eqn:E1; [|discriminate].
    cbn [bind] in H. apply process_item_some in E1.
    destruct E1 as [sl [Hc [Hs Hm]]].
    destruct (IH _ _ H) as [new_slides [Hs' [Hl [HF Hm']]]].
    exists (sl :: new_slides). split; [|split; [|split]].
    + rewrite Hs', Hs, <- app_assoc. reflexivity.
    + simpl. now rewrite Hl.
    + constructor; [now apply compose_slide_length in Hc | exact HF].
    + rewrite Hm', Hm, <- app_assoc, <- unmatched_cons. reflexivity.
Qed.



End DeckFacts.

(** X17.  When the batch loop ends without an exception, the deck has one
    slide per item code, each with at least as many shapes as the template
    slide (no pass removes a shape), and the list of missing items holds
    exactly the codes without catalog row, in input order. *)
Theorem one_slide_per_item (fetch : string -> option bitmap)
    (mapping_df : list row) (stock_df : list stock_row) (template_copy : slide)
    (varenumre : list string) (d : deck) :
  generate fetch mapping_df stock_df template_copy varenumre = Some d ->
  length (slides d) = length varenumre
  /\ Forall (fun sl => length template_copy <= length sl)%nat (slides d)
  /\ missing_items d = unmatched mapping_df varenumre.
Proof.
  rewrite generate_flat. intro H. apply process_items_some in H.
  destruct H as [new_slides [Hs [Hl [HF Hm]]]]. cbn [slides missing_items] in *.
  rewrite Hs, Hm. simpl. auto.
Qed.

Lemma one_slide_per_item_witness :
  exists d,
    generate fetch_nothing [] [] small_template ["X1"; "X2"] = Some d
    /\ length (slides d) = 2%nat
    /\ missing_items d = ["X1"; "X2"].
Proof.
  eexists. split; [reflexivity|].
  destruct (one_slide_per_item fetch_nothing [] [] small_template ["X1"; "X2"]
              _ eq_refl) as [H1 [_ H3]].
  split; [exact H1 | exact H3].
Defined.

(** ** The required columns *)

Section Columns.
Local Open Scope list_scope.

Lemma missing_cols_nil (required headers : list string) :
  missing_cols required headers = []
  <-> forall req, In req required ->
        exists h, In h headers /\ normalize_col h = normalize_col req.
Proof.
  unfold missing_cols. rewrite filter_nil_iff. split.
  - intros H req Hreq.
    assert (Hm : Py.mem (normalize_col req) (map normalize_col headers) = true).
    { specialize (H (normalize_col req) (in_map _ _ _ Hreq)).
      now apply negb_false_iff in H. }
    apply mem_In, in_map_iff in Hm. destruct Hm as [h [E Hh]]. now exists h.
  - intros H x Hx. apply in_map_iff in Hx. destruct Hx as [req [<- Hreq]].
    destruct (H req Hreq) as [h [Hh E]].
    apply negb_false_iff, mem_In. rewrite <- E. now apply in_map.
Qed.

Lemma row_get_present (r : row) (key : string) (d d' : cell) :
  In key (map fst r) -> row_get r key d = row_get r key d'.
Proof.
  induction r as [|[k v] r IH]; simpl; [tauto|].
  intros [->|H].
  - now rewrite String.eqb_refl.
  - destruct (k =? key); [reflexivity | now apply IH].
Qed.

Lemma columns_read_required (key : string) :
  In key columns_read -> In key (map normalize_col REQUIRED_MAPPING_COLS_ORIG).
Proof.
  intro H. apply mem_In.
  assert (Hall : forallb
            (fun k => Py.mem k (map normalize_col REQUIRED_MAPPING_COLS_ORIG))
            columns_read = true) by (vm_compute; reflexivity).
  rewrite forallb_forall in Hall. now apply Hall.
Qed.

Lemma validated_columns (headers : list string) (key : string) :
  missing_cols REQUIRED_MAPPING_COLS_ORIG headers = [] ->
  In key columns_read -> In key (map normalize_col headers).
Proof.
  intros Hm Hk. apply columns_read_required, in_map_iff in Hk.
  destruct Hk as [req [<- Hreq]].
  destruct (proj1 (missing_cols_nil _ _) Hm req Hreq) as [h [Hh E]].
  rewrite <- E. now apply in_map.
Qed.

End Columns.

(** X19.  Once the catalog has passed the column check, every column that the
    composition reads from a catalog row (the code, the product key, the name
    and one column per text, link and image placeholder) is present in the
    row, so the default of the lookup is never what is returned. *)
Theorem validated_row_has_every_column_read (headers : list string) (r : row)
    (key : string) (d d' : cell) :
  missing_cols REQUIRED_MAPPING_COLS_ORIG headers = [] ->
  map fst r = map normalize_col headers ->
  In key columns_read ->
  row_get r key d = row_get r key d'.
Proof.
  intros Hm Hr Hk. apply row_get_present. rewrite Hr.
  now apply validated_columns.
Qed.

Lemma validated_row_has_every_column_read_witness :
  let headers := map (fun h => " " ++ h) REQUIRED_MAPPING_COLS_ORIG in
  let r : row := map (fun h => (normalize_col h, NaN)) headers in
  row_get r "productkey" (Str "") = row_get r "productkey" NaN.
Proof.
  apply (validated_row_has_every_column_read
           (map (fun h => " " ++ h) REQUIRED_MAPPING_COLS_ORIG)).
  - vm_compute. reflexivity.
  - vm_compute. reflexivity.
  - vm_compute. tauto.
Defined.

(** ** Further properties of the text and hyperlink passes *)

Lemma no_opener_cons (c : ascii) (s : string) :
  no_opener (String c s) -> prefix "{{" (String c s) = false /\ no_opener s.
Proof.
  unfold no_opener. cbn [Py.contains]. intro H.
  apply orb_false_iff in H. exact H.
Qed.

Lemma match_token_no_opener (key s : string) :
  prefix "{{" s = false -> Re.match_token key s = None.
Proof. intro H. unfold Re.match_token, Re.eat. now rewrite H. Qed.

Lemma sub_go_no_opener (key repl s : string) :
  no_opener s -> Re.sub_go key repl 0 s = s.
Proof.
  induction s as [|c s IH]; [reflexivity|].
  intro H. apply no_opener_cons in H. destruct H as [Hp Hs].
  cbn [Re.sub_go]. unfold Re.match_length.
  rewrite (match_token_no_opener _ _ Hp). now rewrite (IH Hs).
Qed.

Lemma search_no_opener (key s : string) :
  no_opener s -> Re.search key s = false.
Proof.
  induction s as [|c s IH]; [reflexivity|].
  intro H. apply no_opener_cons in H. destruct H as [Hp Hs].
  cbn [Re.search]. rewrite (match_token_no_opener _ _ Hp). now apply IH.
Qed.

Lemma apply_all_no_opener (values : list (string * string)) (t : string) :
  no_opener t -> apply_all values t = t.
Proof.
  intro H. induction values as [|[ph repl] values IH]; [reflexivity|].
  unfold apply_all. cbn [fold_left fst snd].
  rewrite (sub_go_no_opener _ _ _ H). exact IH.
Qed.


(** X20.  A paragraph whose text has no token opener keeps its text under the
    text pass, whatever the replacement values, but not its runs: the whole
    text moves to the first run and every other run is emptied. *)
Theorem text_without_opener_is_kept (values : list (string * string))
    (first_run : run) (others : list run) :
  Forall (fun pv => literal (snd pv)) values ->
  no_opener (paragraph_text (first_run :: others)) ->
  replace_in_paragraph values (first_run :: others)
  = Some (set_text (paragraph_text (first_run :: others)) first_run
          :: map (set_text "") others).
Proof.
  intros Hl Hn. rewrite (replace_in_paragraph_literal _ _ Hl).
  unfold collapse. now rewrite (apply_all_no_opener _ _ Hn).
Qed.

Lemma text_without_opener_is_kept_witness :
  replace_in_paragraph [("{{Product name}}", "Oak")]
    [plain_run "Dining " 1; plain_run "table" 2]
  = Some [plain_run "Dining table" 1; plain_run "" 2].
Proof.
  apply (text_without_opener_is_kept [("{{Product name}}", "Oak")]
           (plain_run "Dining " 1) [plain_run "table" 2]).
  - repeat constructor.
  - reflexivity.
Defined.

Section Links.
Local Open Scope list_scope.

Lemma replace_links_in_run_kept
    (values : list (string * (string * string))) : forall r,
  Forall (fun v => literal (fst (snd v))) values ->
  exists r', replace_links_in_run values r = Some r' /\ run_kept r r'.
Proof.
  induction values as [|[ph [display_text url]] values IH]; intros r Hl.
  - exists r. split; [reflexivity|]. now split.
  - inversion Hl as [|? ? Hd Hr]; subst. cbn [fst snd] in Hd.
    cbn [replace_links_in_run].
    destruct (Re.search (Re.key_of ph) (run_text r)) eqn:Es.
    + unfold Re.sub. unfold literal in Hd. rewrite Hd. cbn [bind].
      destruct (IH (set_hyperlink url
                      (set_text (Re.sub_go (Re.key_of ph) display_text 0
                                   (run_text r)) r)) Hr)
        as [r' [E [Hf _]]].
      exists r'. split; [exact E|]. split; [exact Hf|].
      intro Hn. rewrite (search_no_opener _ _ Hn) in Es. discriminate.
    + apply IH, Hr.
Qed.

Lemma mapM_related {A B : Type} (f : A -> option B) (R : A -> B -> Prop)
    (l : list A) :
  (forall a, In a l -> exists b, f a = Some b /\ R a b) ->
  exists l', mapM f l = Some l' /\ Forall2 R l l'.
Proof.
  induction l as [|a l IH]; intro H.
  - exists []. split; [reflexivity | constructor].
  - destruct (H a (or_introl eq_refl)) as [b [Eb Rb]].
    destruct IH as [l' [El Rl]]; [intros x Hx; apply H; now right|].
    exists (b :: l'). cbn [mapM]. rewrite Eb, El. split; [reflexivity|].
    now constructor.
Qed.

Lemma replace_links_layout
    (values : list (string * (string * string))) (sl : slide) :
  Forall (fun v => literal (fst (snd v))) values ->
  exists sl', replace_hyperlink_placeholders sl values = Some sl'
              /\ Forall2 same_layout sl sl'.
Proof.
  intro Hl. apply mapM_related. intros sh _.
  destruct sh as [l t w h ps|l t w h img|tag].
  - destruct (mapM_related (mapM (replace_links_in_run values))
                (Forall2 run_kept) ps) as [ps' [E HF]].
    { intros p _. apply mapM_related. intros r _.
      now apply replace_links_in_run_kept. }
    exists (TextShape l t w h ps'). cbn [replace_links_in_shape].
    rewrite E. split; [reflexivity|]. simpl. auto.
  - eexists. split; [reflexivity|]. now split.
  - eexists. split; [reflexivity|]. now split.
Qed.

Lemma hyperlink_vals_literal (mapping_row : row) :
  Forall (fun v => literal (fst (snd v))) (hyperlink_vals mapping_row).
Proof. repeat constructor. Qed.

End Links.

(** X21.  The hyperlink pass of an item with a catalog row never fails and
    keeps the layout: shapes without text frame are untouched; a text shape
    keeps its frame, the number of its paragraphs and runs and the formatting
    of every run; a run without token opener is left as it is. *)
Theorem hyperlink_pass_keeps_layout (sl : slide) (mapping_row : row) :
  exists sl',
    replace_hyperlink_placeholders sl (hyperlink_vals mapping_row) = Some sl'
    /\ Forall2 same_layout sl sl'.
Proof. apply replace_links_layout, hyperlink_vals_literal. Qed.



(** ** Further properties of the image pass *)

Section ImageAgain.
Local Open Scope list_scope.

Variable fetch : string -> option bitmap.
Variable image_values : list (string * string).

Lemma first_token_cleared : first_token cleared_text = None.
Proof. reflexivity. Qed.

(** What the pass leaves of a shape is not touched by a second pass. *)
Lemma outcome_stable (sh sh' : shape) (pic : option shape) :
  replace_image_in_shape image_values
    (fetch_all fetch IMAGE_PLACEHOLDERS_ORIG image_values) sh
  = Some (sh', pic) ->
  replace_image_in_shape image_values
    (fetch_all fetch IMAGE_PLACEHOLDERS_ORIG image_values) sh'
  = Some (sh', None)
  /\ forall p, pic = Some p ->
       replace_image_in_shape image_values
         (fetch_all fetch IMAGE_PLACEHOLDERS_ORIG image_values) p
       = Some (p, None).
Proof.
  destruct sh as [l t w h ps|l t w h img|tag].
  - rewrite replace_image_in_shape_first_token.
    destruct (first_token ps) as [ph|] eqn:Et.
    + destruct (resolved fetch image_values ph) as [img|] eqn:Er;
        cbn [insert_or_keep].
      * destruct (scaled_size img w h) as [size|]; [|discriminate].
        cbn [bind]. intro H. injection H as <- <-. split.
        -- rewrite replace_image_in_shape_first_token.
           now rewrite first_token_cleared.
        -- intros p Hp. injection Hp as <-. reflexivity.
      * intro H. injection H as <- <-. split; [|discriminate].
        rewrite replace_image_in_shape_first_token, Et, Er. reflexivity.
    + intro H. injection H as <- <-. split; [|discriminate].
      rewrite replace_image_in_shape_first_token, Et. reflexivity.
  - intro H. injection H as <- <-. split; [reflexivity | discriminate].
  - intro H. injection H as <- <-. split; [reflexivity | discriminate].
Qed.

Lemma outcomes_stable (sl : slide) (outs : list outcome) :
  Forall2
    (fun sh out =>
       replace_image_in_shape image_values
         (fetch_all fetch IMAGE_PLACEHOLDERS_ORIG image_values) sh = Some out)
    sl outs ->
  forall sh, In sh (map fst outs ++ added_pictures outs) ->
    replace_image_in_shape image_values
      (fetch_all fetch IMAGE_PLACEHOLDERS_ORIG image_values) sh
    = Some (sh, None).
Proof.
  induction 1 as [|sh0 [sh' pic] sl outs H0 HF IH]; intros sh Hin.
  - destruct Hin.
  - apply outcome_stable in H0. destruct H0 as [H1 H2].
    apply in_app_or in Hin. destruct Hin as [Hin|Hin].
    + destruct Hin as [<-|Hin]; [exact H1|].
      apply IH, in_or_app. now left.
    + cbn [added_pictures] in Hin. destruct pic as [p|].
      * destruct Hin as [<-|Hin]; [now apply H2|].
        apply IH, in_or_app. now right.
      * apply IH, in_or_app. now right.
Qed.

(** X23.  A second image pass with the same image values changes nothing: the
    result of [replace_image_placeholders_parallel] is a fixed point of it (an
    emptied shape has no token left, an unresolved token stays unresolved, a
    picture has no text frame). *)
Theorem image_pass_is_idempotent (sl sl' : slide) :
  replace_image_placeholders_parallel fetch sl image_values = Some sl' ->
  replace_image_placeholders_parallel fetch sl' image_values = Some sl'.
Proof.
  intro H. apply pass_outcomes in H. destruct H as [outs [-> HF]].
  unfold replace_image_placeholders_parallel. cbv zeta.
  rewrite (mapM_total _ (fun sh => (sh, @None shape))
             (map fst outs ++ added_pictures outs)).
  - cbn [bind]. rewrite added_pictures_none, map_map. cbn [fst].
    now rewrite map_id, app_nil_r.
  - intros sh Hin. now apply (outcomes_stable sl outs HF).
Qed.

End ImageAgain.

Lemma image_pass_is_idempotent_witness :
  replace_image_placeholders_parallel fetch_named
    [ TextShape 10 20 1000 1000 cleared_text;
      PictureShape 10 20 1000 500
        {| original_width := 100; original_height := 50; pixels := "p.jpg" |} ]
    two_urls
  = Some
    [ TextShape 10 20 1000 1000 cleared_text;
      PictureShape 10 20 1000 500
        {| original_width := 100; original_height := 50; pixels := "p.jpg" |} ].
Proof.
  apply (image_pass_is_idempotent fetch_named two_urls [two_token_shape]).
  vm_compute. reflexivity.
Defined.

(** ** Batches, the shadowed table entry and blank fields *)

Section BatchFacts.
Local Open Scope list_scope.

Lemma concat_batches (todo batch_index : nat) (l : list string) :
  concat (map (batch_of l) (seq batch_index todo))
  = firstn (todo * batch_size) (skipn (batch_index * batch_size) l).
Proof.
  revert batch_index. induction todo as [|todo IH]; intro i0.
  - reflexivity.
  - cbn [seq map concat]. rewrite IH.
    change (S todo * batch_size)%nat with (batch_size + todo * batch_size)%nat.
    rewrite firstn_add. unfold batch_of. f_equal. f_equal.
    change (S i0 * batch_size)%nat with (batch_size + i0 * batch_size)%nat.
    rewrite (Nat.add_comm batch_size). apply skipn_add.
Qed.

Lemma num_batches_tight (n batch_index : nat) :
  batch_index < num_batches n -> batch_index * batch_size < n.
Proof.
  unfold num_batches, batch_size. cbn [Nat.sub].
  pose proof (Nat.div_mod_eq (n + 9) 10) as H.
  pose proof (Nat.mod_upper_bound (n + 9) 10) as B. lia.
Qed.

Lemma batch_of_length (l : list string) (batch_index : nat) :
  length (batch_of l batch_index)
  = Nat.min batch_size (length l - batch_index * batch_size).
Proof. unfold batch_of. now rewrite length_firstn, length_skipn. Qed.

End BatchFacts.

(** X24.  The batches of [main] partition the item codes: concatenated in loop
    order they give back the list of codes, and every batch holds at least one
    and at most ten codes. *)
Theorem batches_partition_the_items (varenumre : list string) :
  concat (batches varenumre) = varenumre
  /\ Forall (fun batch => 1 <= length batch <= batch_size)%nat
       (batches varenumre).
Proof.
  unfold batches. split.
  - rewrite concat_batches. cbn [Nat.mul skipn].
    apply firstn_all2, num_batches_cover.
  - apply Forall_forall. intros batch Hb. apply in_map_iff in Hb.
    destruct Hb as [batch_index [<- Hi]]. apply in_seq in Hi.
    rewrite batch_of_length.
    assert (batch_index * batch_size < length varenumre)%nat
      by (apply num_batches_tight; lia).
    unfold batch_size in *. lia.
Qed.

Section Shadow.

Lemma contains_split (sub s : string) :
  Py.contains sub s = true -> exists a b, s = a ++ sub ++ b.
Proof.
  induction s as [|c s IH]; cbn [Py.contains]; intro H.
  - rewrite orb_false_r in H. apply prefix_is_prefix_of in H.
    destruct H as [rest H]. now exists "", rest.
  - apply orb_true_iff in H. destruct H as [H|H].
    + apply prefix_is_prefix_of in H. destruct H as [rest H]. now exists "", rest.
    + destruct (IH H) as [a [b E]]. exists (String c a), b. simpl. now rewrite E.
Qed.

Lemma contains_suffix_of_sub (p sub s : string) :
  Py.contains (p ++ sub) s = true -> Py.contains sub s = true.
Proof.
  intro H. apply contains_split in H. destruct H as [a [b ->]].
  rewrite append_assoc, <- (append_assoc a p). apply contains_infix.
Qed.

Lemma smoked_oak_is_oak (name : string) :
  name_contains "Smoked Oak Oiled Oak" name = true ->
  name_contains "Oak Oiled Oak" name = true.
Proof. unfold name_contains. apply (contains_suffix_of_sub "smoked "). Qed.

End Shadow.

(** X25.  The sixth entry of the fixed table is never the one selected: a name
    that contains Smoked Oak Oiled Oak contains Oak Oiled Oak, the fourth
    entry, so [get_options] has returned at the fourth entry or earlier. *)
Theorem smoked_oak_entry_is_shadowed (name : string) :
  name_contains "Smoked Oak Oiled Oak" name = true ->
  name_contains "Oak Oiled Oak" name = true
  /\ ProductConfigurator.get_options name
     = ProductConfigurator.get_options_from
         (firstn 4 ProductConfigurator.products) name.
Proof.
  intro H. apply smoked_oak_is_oak in H. split; [exact H|].
  rewrite get_options_unfold.
  unfold ProductConfigurator.products. cbn [firstn].
  cbn [ProductConfigurator.get_options_from].
  fold (name_contains "Black Linoleum" name).
  fold (name_contains "Grey Linoleum" name).
  fold (name_contains "Oak Lacquered Oak Veneer" name).
  fold (name_contains "Oak Oiled Oak" name).
  rewrite H.
  destruct (name_contains "Black Linoleum" name); [reflexivity|].
  destruct (name_contains "Grey Linoleum" name); [reflexivity|].
  destruct (name_contains "Oak Lacquered Oak Veneer" name); reflexivity.
Qed.

Lemma smoked_oak_entry_is_shadowed_witness :
  name_contains "Oak Oiled Oak" "Table, smoked oak oiled oak" = true
  /\ ProductConfigurator.get_options "Table, smoked oak oiled oak"
     = ProductConfigurator.get_options_from
         (firstn 4 ProductConfigurator.products) "Table, smoked oak oiled oak".
Proof.
  apply (smoked_oak_entry_is_shadowed "Table, smoked oak oiled oak").
  reflexivity.
Defined.

Section Fields.

Lemma append_not_empty (a : string) (c : ascii) (b : string) :
  a ++ String c b <> "".
Proof. destruct a; discriminate. Qed.

Lemma field_text_empty (ph label : string) (value : cell) :
  field_text ph label value = "" <-> is_blank_value value = true.
Proof.
  unfold field_text. destruct (is_blank_value value); [tauto|].
  split; [|discriminate]. intro H. exfalso. revert H.
  destruct (Py.mem ph _); [apply append_not_empty|].
  destruct (Py.mem ph _); apply append_not_empty.
Qed.

Lemma found_item_texts_get (mapping_row : row) (stock_df : list stock_row)
    (ph label : string) :
  In (ph, label) TEXT_PLACEHOLDERS_ORIG ->
  Py.dict_get (found_item_texts mapping_row stock_df) ph ""
  = field_text ph label (row_get mapping_row (normalize_col ph) (Str "")).
Proof.
  intro H. simpl in H.
  repeat (destruct H as [H|H]; [injection H as <- <-; reflexivity|]).
  destruct H.
Qed.

End Fields.

(** X26.  For an item with a catalog row, the text put in place of a text
    placeholder is empty exactly when the cell is blank (missing, or
    whitespace only): a blank cell leaves neither label nor value, and a cell
    that is not blank never gives an empty text. *)
Theorem blank_field_leaves_no_label (mapping_row : row)
    (stock_df : list stock_row) (ph label : string) :
  In (ph, label) TEXT_PLACEHOLDERS_ORIG ->
  Py.dict_get (found_item_texts mapping_row stock_df) ph "" = ""
  <-> is_blank_value (row_get mapping_row (normalize_col ph) (Str "")) = true.
Proof.
  intro H. rewrite (found_item_texts_get _ _ _ _ H). apply field_text_empty.
Qed.

Lemma blank_field_leaves_no_label_witness :
  Py.dict_get (found_item_texts [("{{productheight}}", Str " ")] [])
    "{{Product height}}" "" = ""
  <-> is_blank_value
        (row_get [("{{productheight}}", Str " ")]
           (normalize_col "{{Product height}}") (Str "")) = true.
Proof.
  apply (blank_field_leaves_no_label [("{{productheight}}", Str " ")] []
           "{{Product height}}" "Height:").
  simpl. tauto.
Defined.

(** ** Blank image cells *)

Section BlankImages.
Local Open Scope list_scope.

Variable fetch : string -> option bitmap.

Lemma image_vals_get (mapping_row : row) (ph : string) :
  In ph IMAGE_PLACEHOLDERS_ORIG ->
  Py.dict_get (image_vals mapping_row) ph ""%string
  = url_of (row_get mapping_row (normalize_col ph) (Str "")).
Proof.
  intro H. simpl in H.
  repeat (destruct H as [<-|H]; [reflexivity|]). destruct H.
Qed.

Lemma image_pass_without_urls (image_values : list (string * string))
    (sl : slide) :
  (forall ph, In ph IMAGE_PLACEHOLDERS_ORIG ->
     Py.dict_get image_values ph ""%string = ""%string) ->
  replace_image_placeholders_parallel fetch sl image_values = Some sl.
Proof.
  intro H. unfold replace_image_placeholders_parallel. cbv zeta.
  rewrite (mapM_total _ (fun sh => (sh, @None shape)) sl).
  - cbn [bind]. rewrite added_pictures_none, map_map. cbn [fst].
    now rewrite map_id, app_nil_r.
  - intros sh _. destruct sh as [l t w h ps|l t w h img|tag];
      [|reflexivity|reflexivity].
    rewrite replace_image_in_shape_first_token.
    destruct (first_token ps) as [ph|] eqn:Et; [|reflexivity].
    apply first_token_first in Et. destruct Et as [before [after [E _]]].
    unfold resolved. rewrite H; [reflexivity|].
    rewrite E. apply in_elt.
Qed.

End BlankImages.

(** X27.  For a catalog row whose five image cells are blank (missing or
    whitespace only), the image pass leaves every slide as it is, whatever the
    network would answer. *)
Theorem blank_image_cells_leave_the_slide (fetch : string -> option bitmap)
    (mapping_row : row) (sl : slide) :
  (forall ph, In ph IMAGE_PLACEHOLDERS_ORIG ->
     is_blank_value (row_get mapping_row (normalize_col ph) (Str "")) = true) ->
  replace_image_placeholders_parallel fetch sl (image_vals mapping_row)
  = Some sl.
Proof.
  intro H. apply image_pass_without_urls. intros ph Hph.
  rewrite (image_vals_get _ _ Hph). unfold url_of. now rewrite (H ph Hph).
Qed.

Lemma blank_image_cells_leave_the_slide_witness :
  replace_image_placeholders_parallel fetch_named [packshot_shape]
    (image_vals [("{{productpackshot1}}", Str "  ")])
  = Some [packshot_shape].
Proof.
  apply (blank_image_cells_leave_the_slide fetch_named
           [("{{productpackshot1}}", Str "  ")] [packshot_shape]).
  intros ph H. simpl in H.
  repeat (destruct H as [<-|H]; [reflexivity|]). destruct H.
Defined.

(** ** The picture and the box of its shape *)

Section FloatUpper.
Local Open Scope Z_scope.

Lemma binary_round_aux_bounds (p : positive) (ex : Z) (lx : location) :
  let d := Zpos (digits2_pos p) in
  53 <= d -> -1074 <= d + ex - 53 -> d + ex <= 1023 ->
  exists m e t,
    binary_round_aux 53 1024 false (Zpos p) ex lx = S754_finite false m e
    /\ 2 ^ 52 <= Zpos m < 2 ^ 53
    /\ 0 <= t <= 1
    /\ e = ex + (d - 53) + t
    /\ Zpos m * 2 ^ t <= Zpos p / 2 ^ (d - 53) + 1.
Proof.
  intros d Hd Hlo Hhi. unfold binary_round_aux.
  destruct (shr_fexp_spec p ex lx Hd Hlo) as [Hm He]. fold d in Hm, He.
  destruct (shr_fexp 53 1024 (Zpos p) ex lx) as [mrs' e'].
  cbn [fst snd] in Hm, He.
  pose proof (shifted_mantissa_bounds p Hd) as Hb. fold d in Hb.
  rewrite <- Hm in Hb.
  pose proof (round_nearest_even_bounds (shr_m mrs') (loc_of_shr_record mrs'))
    as Hr.
  set (m2 := round_nearest_even (shr_m mrs') (loc_of_shr_record mrs')) in *.
  assert (Hpos : 0 < m2) by (change (2 ^ 52) with 4503599627370496 in Hb; lia).
  destruct m2 as [|q|q] eqn:Eq; try lia.
  destruct (Z_lt_le_dec (Zpos q) (2 ^ 53)) as [Hlt|Hge].
  - assert (Hdq : Zpos (digits2_pos q) = 53).
    { apply digits2_unique. change (53 - 1) with 52. lia. }
    unfold shr_fexp. cbn [Zdigits2]. rewrite Hdq.
    rewrite fexp_normal by lia.
    replace (53 + e' - 53 - e') with 0 by lia. cbn [shr shr_record_of_loc shr_m].
    replace (e' <=? 1024 - 53) with true by (symmetry; apply Z.leb_le; lia).
    exists q, e', 0. split; [reflexivity|]. split; [lia|]. split; [lia|].
    split; [lia|]. rewrite <- Hm. change (2 ^ 0) with 1. lia.
  - assert (Eq53 : Zpos q = 2 ^ 53) by lia.
    assert (Hdq : Zpos (digits2_pos q) = 54).
    { apply digits2_unique. rewrite Eq53. change (54 - 1) with 53.
      change (2 ^ 53) with 9007199254740992.
      change (2 ^ 54) with 18014398509481984. lia. }
    unfold shr_fexp. cbn [Zdigits2]. rewrite Hdq.
    rewrite fexp_normal by lia.
    replace (54 + e' - 53 - e') with 1 by lia.
    cbn [shr iter_pos shr_record_of_loc].
    assert (Hs : shr_m (shr_1 {| shr_m := Zpos q; shr_r := false; shr_s := false |})
                 = 2 ^ 52).
    { rewrite shr_1_m by (cbn; lia). cbn [shr_m]. rewrite Eq53. reflexivity. }
    destruct (shr_m (shr_1 {| shr_m := Zpos q; shr_r := false; shr_s := false |}))
      as [|m|m] eqn:Em; try (change (2 ^ 52) with 4503599627370496 in Hs; lia).
    replace (e' + 1 <=? 1024 - 53) with true by (symmetry; apply Z.leb_le; lia).
    exists m, (e' + 1), 1. split; [reflexivity|].
    split; [rewrite Hs; change (2 ^ 52) with 4503599627370496;
            change (2 ^ 53) with 9007199254740992; lia|].
    split; [lia|]. split; [lia|].
    rewrite Hs, <- Hm. change (2 ^ 52 * 2 ^ 1) with (2 ^ 53). lia.
Qed.

Lemma pow2_pos (n : Z) : 0 <= n -> 0 < 2 ^ n.
Proof. intro H. apply Z.pow_pos_nonneg; lia. Qed.

Lemma div_mul_le (p n : Z) : 0 <= p -> 0 < n -> p / n * n <= p.
Proof.
  intros Hp Hn. pose proof (Z.mul_div_le p n Hn). lia.
Qed.

(** The quotient of two integers below 2^53 is rounded up by less than one
    part in 2^52. *)
Lemma div_upper (a b : Z) :
  1 <= a < 2 ^ 53 -> 1 <= b < 2 ^ 53 ->
  exists m e,
    Float64.normal (SFdiv 53 1024 (Float64.of_int a) (Float64.of_int b)) m e
    /\ -106 <= e <= 1
    /\ b * scaled_value m e * 2 ^ 52 <= a * 2 ^ 256 * (2 ^ 52 + 1).
Proof.
  intros Ha Hb.
  destruct (of_int_spec a Ha) as [ma [ea [[Ea Ba] [Ra Va]]]].
  destruct (of_int_spec b Hb) as [mb [eb [[Eb Bb] [Rb Vb]]]].
  rewrite Ea, Eb. unfold SFdiv, SFdiv_core_binary. cbn [Zdigits2 xorb].
  rewrite (digits2_unique ma 53), (digits2_unique mb 53)
    by (change (53 - 1) with 52; assumption).
  replace (53 + ea - (53 + eb)) with (ea - eb) by lia.
  rewrite fexp_normal by lia.
  replace (Z.min (ea - eb - 53) (ea - eb)) with (ea - eb - 53) by lia.
  replace (ea - eb - (ea - eb - 53)) with 53 by lia.
  rewrite Z.shiftl_mul_pow2 by lia.
  destruct (Z.div_eucl (Zpos ma * 2 ^ 53) (Zpos mb)) as [q r] eqn:Ediv.
  assert (Hq : q = Zpos ma * 2 ^ 53 / Zpos mb)
    by (unfold Z.div; now rewrite Ediv).
  assert (Hqmul : q * Zpos mb <= Zpos ma * 2 ^ 53).
  { rewrite Hq. apply div_mul_le; lia. }
  change (2 ^ 52) with 4503599627370496 in Ba, Bb.
  change (2 ^ 53) with 9007199254740992 in Ba, Bb, Hq.
  assert (Hq1 : 4503599627370496 <= q).
  { rewrite Hq. apply Z.div_le_lower_bound; lia. }
  assert (Hq2 : q < 18014398509481984).
  { rewrite Hq. apply Z.div_lt_upper_bound; lia. }
  destruct q as [|pq|pq]; try lia.
  assert (Hd : (Zpos (digits2_pos pq) = 53)
               \/ (Zpos (digits2_pos pq) = 54 /\ 9007199254740992 <= Zpos pq)).
  { destruct (Z_lt_le_dec (Zpos pq) 9007199254740992).
    - left. apply digits2_unique. change (2 ^ (53 - 1)) with 4503599627370496.
      change (2 ^ 53) with 9007199254740992. lia.
    - right. split; [|lia].
      apply digits2_unique. change (2 ^ (54 - 1)) with 9007199254740992.
      change (2 ^ 54) with 18014398509481984. lia. }
  destruct (binary_round_aux_bounds pq (ea - eb - 53)
              (new_location (Zpos mb) r))
    as [m [e [t [Hres [Hbm [Ht [He Hm]]]]]]]; try lia.
  exists m, e. split; [split; [exact Hres | exact Hbm]|]. split; [lia|].
  set (s := Zpos (digits2_pos pq) - 53) in *.
  assert (Hs : 0 <= s <= 1) by (unfold s; lia).
  (* the mantissa inequality *)
  assert (Hcore : Zpos m * 2 ^ t * 2 ^ s * 2 ^ 52 <= Zpos pq * (2 ^ 52 + 1)).
  { assert (Ps : 0 < 2 ^ s) by (apply pow2_pos; lia).
    assert (H1 : Zpos pq / 2 ^ s * 2 ^ s <= Zpos pq)
      by (apply div_mul_le; lia).
    assert (H2 : 2 ^ s * 2 ^ 52 <= Zpos pq).
    { change (2 ^ 52) with 4503599627370496.
      destruct (Z.eq_dec s 0) as [E0|E0].
      - rewrite E0. change (2 ^ 0) with 1. lia.
      - assert (E1 : s = 1) by lia. rewrite E1. change (2 ^ 1) with 2.
        destruct Hd as [Hd|[_ Hd]]; [unfold s in E1; lia | lia]. }
    assert (H3 : Zpos m * 2 ^ t * 2 ^ s
                 <= (Zpos pq / 2 ^ s + 1) * 2 ^ s)
      by (apply Z.mul_le_mono_nonneg_r; lia).
    change (2 ^ 52) with 4503599627370496 in *. nia. }
  (* back to the integers [a] and [b] *)
  unfold scaled_value.
  set (A := 2 ^ (- ea)) in *. set (B := 2 ^ (- eb)) in *.
  set (W := 2 ^ (203 + ea)).
  assert (PA : 0 < A) by (apply pow2_pos; lia).
  assert (PB : 0 < B) by (apply pow2_pos; lia).
  assert (PW : 0 < W) by (apply pow2_pos; lia).
  assert (EK : A * W * 2 ^ 53 = 2 ^ 256).
  { unfold A, W. rewrite <- !Z.pow_add_r by lia. f_equal. lia. }
  assert (EX : 2 ^ (e + 256) = B * W * (2 ^ t * 2 ^ s)).
  { unfold B, W. rewrite <- !Z.pow_add_r by lia. f_equal. unfold s. lia. }
  rewrite EX, <- EK.
  set (c := 2 ^ 52) in *. set (c1 := 2 ^ 53) in *.
  set (T := 2 ^ t) in *. set (S := 2 ^ s) in *.
  assert (Hmain : Zpos mb * (Zpos m * T * S * c) <= Zpos ma * c1 * (c + 1)).
  { apply Z.le_trans with (Zpos mb * (Zpos pq * (c + 1))).
    - apply Z.mul_le_mono_nonneg_l; [lia | exact Hcore].
    - replace (Zpos mb * (Zpos pq * (c + 1)))
        with (Zpos pq * Zpos mb * (c + 1)) by ring.
      apply Z.mul_le_mono_nonneg_r; [unfold c; lia | exact Hqmul]. }
  rewrite Va, Vb in Hmain.
  replace (b * (Zpos m * (B * W * (T * S))) * c)
    with (b * B * (Zpos m * T * S * c) * W) by ring.
  replace (a * (A * W * c1) * (c + 1))
    with (a * A * c1 * (c + 1) * W) by ring.
  apply Z.mul_le_mono_nonneg_r; [lia | exact Hmain].
Qed.

Lemma scaled_value_lt (mx my : positive) (ex ey : Z) :
  2 ^ 52 <= Zpos mx -> Zpos my < 2 ^ 53 -> -256 <= ey -> ey < ex ->
  scaled_value my ey < scaled_value mx ex.
Proof.
  intros Hx Hy He Hlt. unfold scaled_value.
  assert (E : 2 ^ (ex + 256) = 2 ^ (ey + 256) * 2 ^ (ex - ey)).
  { rewrite <- Z.pow_add_r by lia. f_equal. lia. }
  assert (P : 0 < 2 ^ (ey + 256)) by (apply pow2_pos; lia).
  assert (Q : 2 ^ 1 <= 2 ^ (ex - ey)) by (apply Z.pow_le_mono_r; lia).
  change (2 ^ 1) with 2 in Q.
  change (2 ^ 52) with 4503599627370496 in Hx.
  change (2 ^ 53) with 9007199254740992 in Hy.
  rewrite E. set (u := 2 ^ (ey + 256)) in *. set (v := 2 ^ (ex - ey)) in *.
  assert (Zpos my < Zpos mx * v) by nia.
  replace (Zpos mx * (u * v)) with (Zpos mx * v * u) by ring.
  apply Z.mul_lt_mono_pos_r; assumption.
Qed.

(** [min] returns one of its arguments, and one that is not above the
    other. *)
Lemma min_le (x y : spec_float) (mx my : positive) (ex ey : Z) :
  Float64.normal x mx ex -> Float64.normal y my ey ->
  -256 <= ex -> -256 <= ey ->
  exists m e,
    Float64.normal (Float64.min x y) m e
    /\ (e = ex \/ e = ey)
    /\ scaled_value m e <= scaled_value mx ex
    /\ scaled_value m e <= scaled_value my ey.
Proof.
  intros [Ex Bx] [Ey By] Hx Hy. unfold Float64.min, SFltb. rewrite Ex, Ey.
  cbn [SFcompare]. destruct (Z.compare_spec ey ex) as [E|L|G].
  - subst ey. change (PosDef.Pos.compare_cont Eq my mx) with (my ?= mx)%positive.
    destruct (Pos.compare_spec my mx) as [E|L|G].
    + exists mx, ex. repeat split; auto; try lia. subst. lia.
    + exists my, ex. repeat split; auto; try lia. unfold scaled_value.
      apply Z.mul_le_mono_nonneg_r; [apply Z.pow_nonneg; lia | lia].
    + exists mx, ex. repeat split; auto; try lia. unfold scaled_value.
      apply Z.mul_le_mono_nonneg_r; [apply Z.pow_nonneg; lia | lia].
  - exists my, ey. repeat split; auto; try lia.
    apply Z.lt_le_incl, scaled_value_lt; lia.
  - exists mx, ex. repeat split; auto; try lia.
    apply Z.lt_le_incl, scaled_value_lt; lia.
Qed.

(** The product of an integer below 2^53 and a float is rounded up by less
    than one part in 2^52. *)
Lemma mul_upper (z : Z) (s : spec_float) (ms : positive) (es : Z) :
  1 <= z < 2 ^ 53 -> Float64.normal s ms es -> -106 <= es <= 1 ->
  exists m e,
    SFmul 53 1024 (Float64.of_int z) s = S754_finite false m e
    /\ -256 <= e
    /\ scaled_value m e * 2 ^ 52 <= z * scaled_value ms es * (2 ^ 52 + 1).
Proof.
  intros Hz [Es Bs] Res.
  destruct (of_int_spec z Hz) as [mz [ez [[Ez Bz] [Rz Vz]]]].
  rewrite Ez, Es. unfold SFmul. cbn [xorb].
  set (p := (mz * ms)%positive).
  assert (Hp : Zpos p = Zpos mz * Zpos ms) by (unfold p; lia).
  assert (Hlo : 2 ^ 104 <= Zpos p).
  { rewrite Hp. change (2 ^ 104) with (2 ^ 52 * 2 ^ 52).
    apply Z.mul_le_mono_nonneg; lia. }
  assert (Hhi : Zpos p < 2 ^ 106).
  { rewrite Hp. change (2 ^ 106) with (2 ^ 53 * 2 ^ 53).
    apply Z.mul_lt_mono_nonneg; lia. }
  assert (Hd : (Zpos (digits2_pos p) = 105)
               \/ (Zpos (digits2_pos p) = 106 /\ 2 ^ 105 <= Zpos p)).
  { destruct (Z_lt_le_dec (Zpos p) (2 ^ 105)).
    - left. apply digits2_unique. change (105 - 1) with 104. lia.
    - right. split; [|assumption]. apply digits2_unique.
      change (106 - 1) with 105. lia. }
  destruct (binary_round_aux_bounds p (ez + es) loc_Exact)
    as [m [e [t [Hres [Hbm [Ht [He Hm]]]]]]]; try lia.
  exists m, e. split; [exact Hres|]. split; [lia|].
  set (d := Zpos (digits2_pos p) - 53) in *.
  assert (Hdr : 52 <= d <= 53) by (unfold d; lia).
  assert (Hcore : Zpos m * 2 ^ t * 2 ^ d * 2 ^ 52 <= Zpos p * (2 ^ 52 + 1)).
  { assert (Pd : 0 < 2 ^ d) by (apply pow2_pos; lia).
    assert (H1 : Zpos p / 2 ^ d * 2 ^ d <= Zpos p) by (apply div_mul_le; lia).
    assert (H2 : 2 ^ d * 2 ^ 52 <= Zpos p).
    { rewrite <- Z.pow_add_r by lia.
      destruct Hd as [Hd|[Hd Hge]].
      - replace (d + 52) with 104 by (unfold d; lia). exact Hlo.
      - replace (d + 52) with 105 by (unfold d; lia). exact Hge. }
    assert (H3 : Zpos m * 2 ^ t * 2 ^ d <= (Zpos p / 2 ^ d + 1) * 2 ^ d)
      by (apply Z.mul_le_mono_nonneg_r; lia).
    set (c := 2 ^ 52) in *. assert (0 < c) by (unfold c; lia).
    set (D := 2 ^ d) in *. set (T := 2 ^ t) in *.
    assert (H4 : Zpos m * T * D <= Zpos p + D) by lia.
    assert (H5 : Zpos m * T * D * c <= (Zpos p + D) * c)
      by (apply Z.mul_le_mono_nonneg_r; lia).
    lia. }
  unfold scaled_value.
  set (A := 2 ^ (- ez)) in *.
  set (W := 2 ^ (ez + es + 256)).
  assert (PA : 0 < A) by (apply pow2_pos; lia).
  assert (PW : 0 < W) by (apply pow2_pos; lia).
  assert (EX : 2 ^ (e + 256) = 2 ^ t * 2 ^ d * W).
  { unfold W. rewrite <- !Z.pow_add_r by lia. f_equal. unfold d. lia. }
  assert (ES : 2 ^ (es + 256) = A * W).
  { unfold A, W. rewrite <- !Z.pow_add_r by lia. f_equal. lia. }
  rewrite EX, ES.
  set (c := 2 ^ 52) in *. set (T := 2 ^ t) in *. set (D := 2 ^ d) in *.
  replace (Zpos m * (T * D * W) * c) with (Zpos m * T * D * c * W) by ring.
  replace (z * (Zpos ms * (A * W)) * (c + 1))
    with (z * A * Zpos ms * (c + 1) * W) by ring.
  apply Z.mul_le_mono_nonneg_r; [lia|].
  rewrite <- Vz, <- Hp. exact Hcore.
Qed.

Lemma trunc_value_le (m : positive) (e T : Z) :
  -256 <= e -> 0 <= T -> scaled_value m e < (T + 1) * 2 ^ 256 ->
  0 <= Float64.trunc_value m e <= T.
Proof.
  intros He HT H. unfold scaled_value in H. unfold Float64.trunc_value.
  destruct (Z.leb_spec 0 e) as [L|L].
  - assert (E : 2 ^ (e + 256) = 2 ^ e * 2 ^ 256)
      by (rewrite <- Z.pow_add_r by lia; reflexivity).
    assert (P : 0 < 2 ^ 256) by (apply pow2_pos; lia).
    assert (Pe : 0 < 2 ^ e) by (apply pow2_pos; lia).
    rewrite E in H. set (K := 2 ^ 256) in *. set (u := 2 ^ e) in *.
    split; [nia|].
    assert (Zpos m * u < T + 1); [|lia].
    apply (Z.mul_lt_mono_pos_r K); [exact P|]. lia.
  - assert (E : 2 ^ 256 = 2 ^ (- e) * 2 ^ (e + 256)).
    { rewrite <- Z.pow_add_r by lia. f_equal. lia. }
    assert (P : 0 < 2 ^ (e + 256)) by (apply pow2_pos; lia).
    assert (Pe : 0 < 2 ^ (- e)) by (apply pow2_pos; lia).
    rewrite E in H. set (u := 2 ^ (- e)) in *. set (v := 2 ^ (e + 256)) in *.
    split; [apply Z.div_pos; lia|].
    assert (Zpos m / u < T + 1); [|lia].
    apply Z.div_lt_upper_bound; [exact Pe|].
    apply (Z.mul_lt_mono_pos_r v); [exact P|]. lia.
Qed.

(** The chain of the three roundings stays below the next integer. *)
Lemma below_next_integer (X S A ow T : Z) :
  0 <= X -> 0 <= S -> 0 <= A -> 1 <= ow -> 0 <= T < 2 ^ 50 ->
  X * 2 ^ 52 <= ow * S * (2 ^ 52 + 1) ->
  S <= A ->
  ow * A * 2 ^ 52 <= T * 2 ^ 256 * (2 ^ 52 + 1) ->
  X < (T + 1) * 2 ^ 256.
Proof.
  intros HX HS HA How HT H1 H2 H3.
  assert (PK : 0 < 2 ^ 256) by (apply pow2_pos; lia).
  set (K := 2 ^ 256) in *.
  change (2 ^ 52) with 4503599627370496 in *.
  change (2 ^ 50) with 1125899906842624 in *.
  assert (H4 : ow * S <= ow * A) by (apply Z.mul_le_mono_nonneg_l; lia).
  assert (H5 : X * 4503599627370496 * 4503599627370496
               <= ow * A * 4503599627370496 * (4503599627370496 + 1)) by nia.
  assert (H6 : ow * A * 4503599627370496 * (4503599627370496 + 1)
               <= T * K * (4503599627370496 + 1) * (4503599627370496 + 1))
    by (apply Z.mul_le_mono_nonneg_r; lia).
  assert (H7 : T * (4503599627370496 + 1) * (4503599627370496 + 1)
               < (T + 1) * (4503599627370496 * 4503599627370496)) by lia.
  assert (H8 : T * K * (4503599627370496 + 1) * (4503599627370496 + 1)
               < (T + 1) * K * (4503599627370496 * 4503599627370496)).
  { replace (T * K * (4503599627370496 + 1) * (4503599627370496 + 1))
      with (T * (4503599627370496 + 1) * (4503599627370496 + 1) * K) by ring.
    replace ((T + 1) * K * (4503599627370496 * 4503599627370496))
      with ((T + 1) * (4503599627370496 * 4503599627370496) * K) by ring.
    apply Z.mul_lt_mono_pos_r; assumption. }
  assert (H9 : X * (4503599627370496 * 4503599627370496)
               < (T + 1) * K * (4503599627370496 * 4503599627370496)) by lia.
  apply (Z.mul_lt_mono_pos_r (4503599627370496 * 4503599627370496)); lia.
Qed.

Lemma scaled_value_pos (m : positive) (e : Z) : 0 <= scaled_value m e.
Proof. unfold scaled_value. apply Z.mul_nonneg_nonneg; [lia|]. apply Z.pow_nonneg. lia. Qed.

(** X28.  The inserted picture never exceeds the box of its shape: for a shape
    of width and height from 1 up to 2^50 and a bitmap of sides below 2^53,
    the size computation succeeds and gives a width from 0 to the shape's
    width and a height from 0 to the shape's height, the three roundings of
    the float computation notwithstanding. *)
Theorem picture_fits_the_shape (img : bitmap) (target_width target_height : Z) :
  1 <= target_width < 2 ^ 50 -> 1 <= target_height < 2 ^ 50 ->
  Zpos (original_width img) < 2 ^ 53 -> Zpos (original_height img) < 2 ^ 53 ->
  exists new_width new_height,
    scaled_size img target_width target_height = Some (new_width, new_height)
    /\ 0 <= new_width <= target_width
    /\ 0 <= new_height <= target_height.
Proof.
  intros Hw Hh How Hoh.
  set (ow := Zpos (original_width img)) in *.
  set (oh := Zpos (original_height img)) in *.
  assert (How1 : 1 <= ow < 2 ^ 53) by (unfold ow; lia).
  assert (Hoh1 : 1 <= oh < 2 ^ 53) by (unfold oh; lia).
  assert (Hw53 : 1 <= target_width < 2 ^ 53)
    by (change (2 ^ 50) with 1125899906842624 in Hw;
        change (2 ^ 53) with 9007199254740992; lia).
  assert (Hh53 : 1 <= target_height < 2 ^ 53)
    by (change (2 ^ 50) with 1125899906842624 in Hh;
        change (2 ^ 53) with 9007199254740992; lia).
  destruct (div_upper target_width ow Hw53 How1) as [ma [ea [Na [Ra Ua]]]].
  destruct (div_upper target_height oh Hh53 Hoh1) as [mb [eb [Nb [Rb Ub]]]].
  unfold scaled_size. fold ow oh. unfold Float64.true_div, Float64.mul_int.
  rewrite !exact_int_true by lia.
  replace (ow =? 0) with false by (symmetry; apply Z.eqb_neq; lia).
  replace (oh =? 0) with false by (symmetry; apply Z.eqb_neq; lia).
  cbn [andb negb bind]. unfold Float64.prec, Float64.emax.
  set (a := SFdiv 53 1024 (Float64.of_int target_width) (Float64.of_int ow))
    in *.
  set (b := SFdiv 53 1024 (Float64.of_int target_height) (Float64.of_int oh))
    in *.
  destruct (min_le a b ma mb ea eb Na Nb) as [ms [es [Ns [Hes [La Lb]]]]];
    try lia.
  assert (Res : -106 <= es <= 1) by lia.
  destruct (mul_upper ow _ ms es How1 Ns Res) as [m1 [e1 [E1 [R1 U1]]]].
  destruct (mul_upper oh _ ms es Hoh1 Ns Res) as [m2 [e2 [E2 [R2 U2]]]].
  rewrite E1, E2. cbn [Float64.to_int cond_Zopp bind].
  exists (Float64.trunc_value m1 e1), (Float64.trunc_value m2 e2).
  split; [reflexivity|]. split.
  - apply trunc_value_le; [exact R1 | lia|].
    apply (below_next_integer _ (scaled_value ms es) (scaled_value ma ea) ow);
      auto using scaled_value_pos; lia.
  - apply trunc_value_le; [exact R2 | lia|].
    apply (below_next_integer _ (scaled_value ms es) (scaled_value mb eb) oh);
      auto using scaled_value_pos; lia.
Qed.

End FloatUpper.

Lemma picture_fits_the_shape_witness :
  exists new_width new_height,
    scaled_size (sample_bitmap 4000 3000) 914400 914400
    = Some (new_width, new_height)
    /\ (0 <= new_width <= 914400)%Z /\ (0 <= new_height <= 914400)%Z.
Proof.
  apply (picture_fits_the_shape (sample_bitmap 4000 3000) 914400 914400);
    simpl; lia.
Defined.

(** ** Missing items *)

Section PasteBack.
Local Open Scope list_scope.

Lemma unmatched_item_codes (mapping_df : list row) (varenumre : list string) :
  Forall item_code varenumre -> Forall item_code (unmatched mapping_df varenumre).
Proof.
  intro H. apply Forall_forall. intros x Hx. unfold unmatched in Hx.
  apply filter_In in Hx. rewrite Forall_forall in H. now apply H.
Qed.

End PasteBack.

(** X29.  The list of missing items, shown one per line, can be pasted back as
    it is: when the item codes came from the input step and the batch loop has
    ended, reading the missing codes joined by newlines yields exactly the
    list of missing codes. *)
Theorem missing_list_can_be_pasted_back (fetch : string -> option bitmap)
    (mapping_df : list row) (stock_df : list stock_row) (template_copy : slide)
    (pasted_text : string) (varenumre : list string) (d : deck) :
  read_items pasted_text = Items varenumre ->
  generate fetch mapping_df stock_df template_copy varenumre = Some d ->
  missing_items d <> [] ->
  read_items (Py.join newline (missing_items d)) = Items (missing_items d).
Proof.
  intros Hr Hg Hne. apply read_items_item_codes in Hr.
  rewrite generate_flat in Hg. apply process_items_some in Hg.
  destruct Hg as [_ [_ [_ [_ Hm]]]]. cbn [missing_items app] in Hm.
  apply read_items_join; [exact Hne|]. rewrite Hm.
  now apply unmatched_item_codes.
Qed.

Lemma missing_list_can_be_pasted_back_witness :
  read_items (Py.join newline ["X1"; "X2"]) = Items ["X1"; "X2"].
Proof.
  apply (missing_list_can_be_pasted_back fetch_nothing [] [] small_template
           (" X1 " ++ newline ++ newline ++ "X2") ["X1"; "X2"]
           {| slides :=
                [ missing_item_slide small_template "X1";
                  missing_item_slide small_template "X2" ];
              missing_items := ["X1"; "X2"] |}).
  - vm_compute. reflexivity.
  - vm_compute. reflexivity.
  - discriminate.
Defined.

Lemma collapse_token (item_no token : string) (r : run) :
  In token link_and_image_tokens ->
  run_text r = token ->
  collapse (missing_item_texts item_no) [r] = [r].
Proof.
  intros Hin Ht. unfold collapse, paragraph_text. cbn [map String.concat].
  rewrite Ht. destruct r as [t f h]. cbn [run_text] in Ht. subst t.
  unfold set_text. cbn [run_format run_hyperlink map]. f_equal. f_equal.
  unfold link_and_image_tokens in Hin. simpl in Hin.
  repeat (destruct Hin as [<-|Hin]; [reflexivity|]). destruct Hin.
Qed.

(** X30.  On the slide of an item without catalog row, link and image tokens
    stay as text: a text shape that is one run holding one of the two link
    tokens or the five image tokens comes out of the composition as it went
    in. *)
Theorem missing_item_keeps_link_and_image_tokens
    (fetch : string -> option bitmap) (mapping_df : list row)
    (stock_df : list stock_row) (item_no token : string)
    (l t w h : Z) (r : run) :
  find_mapping_row item_no mapping_df MAPPING_PRODUCT_CODE_KEY = None ->
  no_char backslash_char item_no ->
  In token link_and_image_tokens ->
  run_text r = token ->
  compose_slide fetch mapping_df stock_df [TextShape l t w h [[r]]] item_no
  = Some [TextShape l t w h [[r]]].
Proof.
  intros Hf Hb Hin Ht. rewrite (compose_slide_missing _ _ _ _ _ Hf Hb).
  unfold missing_item_slide. cbn [map map_paragraphs].
  now rewrite (collapse_token _ _ _ Hin Ht).
Qed.

Lemma missing_item_keeps_link_and_image_tokens_witness :
  compose_slide fetch_nothing [] []
    [TextShape 0 0 10 10 [[plain_run "{{Product Packshot1}}" 1]]] "X1"
  = Some [TextShape 0 0 10 10 [[plain_run "{{Product Packshot1}}" 1]]].
Proof.
  apply (missing_item_keeps_link_and_image_tokens fetch_nothing [] [] "X1"
           "{{Product Packshot1}}").
  - reflexivity.
  - simpl. repeat split; discriminate.
  - simpl. tauto.
  - reflexivity.
Defined.
